(** * KoLM text normalisation (kolm/normalize.py)

    A shallow embedding of the Korean corpus normaliser: the sentence
    segmenter [bySentence], the per-sentence rewriting pipeline
    [normalize] and the reading passes it calls, followed by the
    properties of the passes.

    Modelling choices.
    - Python 3 strings are sequences of Unicode code points; they are
      lists of integers here, and the literals of the source are written
      as UTF-8 string literals and decoded.
    - The passes are written with the [re] module.  The development
      starts with a backtracking matcher for the fragment of regular
      expressions the source uses (character classes, sequences,
      alternatives, greedy and lazy repetition, the start anchor,
      look-ahead and fixed-width look-behind) and with [re.sub],
      [re.search] and [re.finditer] over it, following the search loop
      of CPython 3.7 and later (an empty match may directly follow a
      non-empty one).
    - The classes for whitespace and the line boundaries of
      [str.splitlines] are written out.  The decimal digits and the
      alphanumeric characters of the Unicode database, which decide the
      classes for digits and word characters and what [int] accepts, are
      parameters of the passes that use them.
    - The three external readers are nodes of a computation tree, next
      to raised exceptions; [run] interprets a tree against given
      readers.  [int] is the unbounded conversion. *)

From Stdlib Require Import String Ascii ZArith List Bool Lia.
Import ListNotations.

Set Implicit Arguments.

(** ** Strings as code points *)

Definition str := list Z.

(** Literals of the source are written as UTF-8 string literals and
    decoded to code points. *)
Definition byte_of (a : ascii) : Z := Z.of_N (N_of_ascii a).

Fixpoint utf8 (s : string) : str :=
  match s with
  | EmptyString => []
  | String a0 s1 =>
    let b0 := byte_of a0 in
    if (b0 <? 128)%Z then b0 :: utf8 s1
    else
      match s1 with
      | EmptyString => [b0]
      | String a1 s2 =>
        let b1 := (byte_of a1 - 128)%Z in
        if (b0 <? 224)%Z then ((b0 - 192) * 64 + b1)%Z :: utf8 s2
        else
          match s2 with
          | EmptyString => [b0]
          | String a2 s3 =>
            let b2 := (byte_of a2 - 128)%Z in
            if (b0 <? 240)%Z
            then ((b0 - 224) * 4096 + b1 * 64 + b2)%Z :: utf8 s3
            else
              match s3 with
              | EmptyString => [b0]
              | String a3 s4 =>
                let b3 := (byte_of a3 - 128)%Z in
                ((b0 - 240) * 262144 + b1 * 4096 + b2 * 64 + b3)%Z :: utf8 s4
              end
          end
      end
  end.

(** The code point of a one-character literal. *)
Definition chr (s : string) : Z := hd 0%Z (utf8 s).

Definition in_range (lo hi c : Z) : bool := ((lo <=? c) && (c <=? hi))%Z.

(** Character ranges written with their end points, as in [[가-힣]]. *)
Definition rng (lo hi : string) (c : Z) : bool := in_range (chr lo) (chr hi) c.

(** Membership of a character in an explicit set, as in [[=:;]]. *)
Definition one_of (s : string) (c : Z) : bool := existsb (Z.eqb c) (utf8 s).

Definition is_char (s : string) (c : Z) : bool := (c =? chr s)%Z.

(** [Py_UNICODE_ISSPACE]: the characters [str.isspace] and the class
    [\s] of a [str] pattern accept. *)
Definition is_space (c : Z) : bool :=
  in_range 9 13 c || in_range 28 32 c || (c =? 133)%Z || (c =? 160)%Z
  || (c =? 5760)%Z || in_range 8192 8202 c || (c =? 8232)%Z || (c =? 8233)%Z
  || (c =? 8239)%Z || (c =? 8287)%Z || (c =? 12288)%Z.

(** Korean syllable blocks, the class [[가-힣]]. *)
Definition hangul : Z -> bool := rng "가" "힣".

Definition upper : Z -> bool := rng "A" "Z".
Definition lower : Z -> bool := rng "a" "z".
Definition latin (c : Z) : bool := upper c || lower c.

(** [s.isspace()]: at least one character, and all of them whitespace. *)
Definition isspace (s : str) : bool :=
  match s with
  | [] => false
  | _ => forallb is_space s
  end.

(** Line boundaries of [str.splitlines]. *)
Definition is_linebreak (c : Z) : bool :=
  in_range 10 13 c || in_range 28 30 c || (c =? 133)%Z
  || (c =? 8232)%Z || (c =? 8233)%Z.

(** [s.splitlines()]: the pieces between line boundaries, a carriage
    return followed by a line feed counting as one boundary, with no
    empty piece after a final boundary. *)
Fixpoint splitlines_from (cur : str) (s : str) : list str :=
  match s with
  | [] => match cur with [] => [] | _ => [rev cur] end
  | c :: s' =>
    if is_linebreak c then
      rev cur ::
        match s' with
        | d :: s'' =>
          if ((c =? 13) && (d =? 10))%Z then splitlines_from [] s''
          else splitlines_from [] s'
        | [] => []
        end
    else splitlines_from (c :: cur) s'
  end.

Definition splitlines (s : str) : list str := splitlines_from [] s.

(** Python slices [s[i:j]] with both bounds given: a negative bound
    counts from the end, and bounds are clipped to the string. *)
Definition clip (len i : Z) : Z :=
  let i' := if (i <? 0)%Z then (i + len)%Z else i in
  Z.max 0 (Z.min len i').

Definition slice (s : str) (i j : Z) : str :=
  let len := Z.of_nat (length s) in
  let lo := Z.to_nat (clip len i) in
  let hi := Z.to_nat (clip len j) in
  firstn (hi - lo) (skipn lo s).

(** [s[i:]] *)
Definition slice_from (s : str) (i : Z) : str :=
  skipn (Z.to_nat (clip (Z.of_nat (length s)) i)) s.

(** ** Regular expressions *)

Module Re.

(** Patterns: the empty pattern, one character of a class, sequence,
    alternative, repetition between [lo] and [hi] times (greedy or
    lazy), start of the subject, positive look-ahead, and positive
    look-behind over a sequence of classes.  Groups only delimit, since
    the source uses neither back-references nor group contents. *)
Inductive regex : Type :=
| Eps
| Cls (p : Z -> bool)
| Seq (r1 r2 : regex)
| Alt (r1 r2 : regex)
| Rep (r : regex) (lo : nat) (hi : option nat) (greedy : bool)
| Bol
| Ahead (r : regex)
| Behind (ps : list (Z -> bool)).

(** Surface syntax. *)
Definition star r := Rep r 0 None true.
Definition plus r := Rep r 1 None true.
Definition opt r := Rep r 0 (Some 1) true.
Definition lazy_star r := Rep r 0 None false.
(** [.] matches anything but a line feed. *)
Definition dot : regex := Cls (fun c => negb (c =? 10)%Z).
Definition nots (p : Z -> bool) (c : Z) : bool := negb (p c).

Fixpoint seqs (rs : list regex) : regex :=
  match rs with
  | [] => Eps
  | [r] => r
  | r :: rs' => Seq r (seqs rs')
  end.

Fixpoint alts (rs : list regex) : regex :=
  match rs with
  | [] => Eps
  | [r] => r
  | r :: rs' => Alt r (alts rs')
  end.

(** A literal: its characters in sequence. *)
Definition lit (s : string) : regex :=
  seqs (map (fun c => Cls (Z.eqb c)) (utf8 s)).

Definition orelse {A} (x y : option A) : option A :=
  match x with Some _ => x | None => y end.

(** The matcher works on a position of the subject, given as the
    characters before it (nearest first) and the characters from it on;
    the continuation [k] is the rest of the pattern. *)
Section Matcher.
Variable R : Type.
Definition cont := str -> str -> option R.

Definition hi_open (hi : option nat) : bool :=
  match hi with Some O => false | _ => true end.
Definition hi_pred (hi : option nat) : option nat :=
  match hi with Some n => Some (pred n) | None => None end.

(** Repetition: the preferred branch (one more iteration when greedy,
    the rest of the pattern when lazy) is tried first and the other one
    on failure.  An iteration has to consume a character, as every
    repeated pattern of the source does. *)
Fixpoint rep_loop (body : cont -> cont) (fuel lo : nat) (hi : option nat)
         (greedy : bool) (k : cont) (b a : str) : option R :=
  match fuel with
  | O => None
  | S fuel' =>
    let more :=
      body (fun b' a' =>
              if (length a' <? length a)%nat
              then rep_loop body fuel' (pred lo) (hi_pred hi) greedy k b' a'
              else None) b a in
    match lo with
    | S _ => more
    | O =>
      if hi_open hi then
        if greedy then orelse more (k b a) else orelse (k b a) more
      else k b a
    end
  end.

Fixpoint behind (ps : list (Z -> bool)) (b : str) : bool :=
  match ps, b with
  | [], _ => true
  | p :: ps', c :: b' => p c && behind ps' b'
  | _ :: _, [] => false
  end.

End Matcher.

Fixpoint rx (R : Type) (r : regex) (k : cont R) (b a : str) : option R :=
  match r with
  | Eps => k b a
  | Cls p =>
    match a with
    | c :: a' => if p c then k (c :: b) a' else None
    | [] => None
    end
  | Seq r1 r2 => rx r1 (rx r2 k) b a
  | Alt r1 r2 => orelse (rx r1 k b a) (rx r2 k b a)
  | Rep r' lo hi greedy =>
    rep_loop (fun k' => rx r' k') (S (length a)) lo hi greedy k b a
  | Bol => match b with [] => k b a | _ => None end
  | Ahead r' =>
    match rx r' (fun _ _ => Some tt) b a with
    | Some _ => k b a
    | None => None
    end
  | Behind ps => if behind (rev ps) b then k b a else None
  end.

(** Length of the match of [r] at a position; with [adv] an empty match
    is refused (the search loop's [must_advance]). *)
Definition accept (adv : bool) (a : str) : cont nat :=
  fun _ a' =>
    let n := (length a - length a')%nat in
    if adv && (n =? 0)%nat then None else Some n.

Definition rx_len (r : regex) (adv : bool) (b a : str) : option nat :=
  rx r (accept adv a) b a.

(** Next match at or after a position: number of characters skipped
    and length of the match. *)
Fixpoint search_from (r : regex) (adv : bool) (b a : str) : option (nat * nat) :=
  match rx_len r adv b a with
  | Some n => Some (O, n)
  | None =>
    match a with
    | [] => None
    | c :: a' =>
      match search_from r false (c :: b) a' with
      | Some (i, n) => Some (S i, n)
      | None => None
      end
    end
  end.

(** [re.search(r, s)]: the span of the first match. *)
Definition search (r : regex) (s : str) : option (Z * Z) :=
  match search_from r false [] s with
  | Some (i, n) => Some (Z.of_nat i, Z.of_nat (i + n))
  | None => None
  end.

(** The successive matches of the search loop shared by [re.sub] and
    [re.finditer].  [skip] counts the characters still covered by the
    previous match.  After an empty match the same position is tried
    again for a non-empty one before moving on. *)
Fixpoint sub_scan (r : regex) (repl : str) (skip : nat) (b a : str) : str :=
  match skip with
  | S n =>
    match a with
    | [] => []
    | c :: a' => sub_scan r repl n (c :: b) a'
    end
  | O =>
    let step :=
      match a with
      | [] => []
      | c :: a' => c :: sub_scan r repl 0 (c :: b) a'
      end in
    let jump n :=
      match a with
      | [] => []
      | c :: a' => sub_scan r repl n (c :: b) a'
      end in
    match rx_len r false b a with
    | Some (S n) => repl ++ jump n
    | Some O =>
      repl ++
        match rx_len r true b a with
        | Some (S n) => repl ++ jump n
        | _ => step
        end
    | None => step
    end
  end.

(** [re.sub(r, repl, s)] for a replacement without backslash. *)
Definition sub_str (r : regex) (repl : str) (s : str) : str :=
  sub_scan r repl 0 [] s.

Definition sub (r : regex) (repl : string) (s : str) : str :=
  sub_str r (utf8 repl) s.

Fixpoint iter_scan (r : regex) (skip : nat) (pos : Z) (b a : str)
  : list (Z * Z) :=
  match skip with
  | S n =>
    match a with
    | [] => []
    | c :: a' => iter_scan r n (pos + 1) (c :: b) a'
    end
  | O =>
    let step :=
      match a with
      | [] => []
      | c :: a' => iter_scan r 0 (pos + 1) (c :: b) a'
      end in
    let jump n :=
      match a with
      | [] => []
      | c :: a' => iter_scan r n (pos + 1) (c :: b) a'
      end in
    match rx_len r false b a with
    | Some (S n) => (pos, pos + Z.of_nat (S n))%Z :: jump n
    | Some O =>
      (pos, pos) ::
        match rx_len r true b a with
        | Some (S n) => (pos, pos + Z.of_nat (S n))%Z :: jump n
        | _ => step
        end
    | None => step
    end
  end.

(** [[m.span() for m in re.finditer(r, s)]] *)
Definition finditer (r : regex) (s : str) : list (Z * Z) :=
  iter_scan r 0 0 [] s.

End Re.

Import Re.

(** ** External services and exceptions

    The normaliser calls three library functions that are not part of
    the repository: [korean.NumberWord(n).read()], [hanja.translate(s,
    mode)] and [korean.Loanword(w, lang).read()].  A computation is a
    tree whose nodes are these calls, a raised exception, or a result,
    so that both the value computed and the calls made can be read off. *)

Inductive ext (A : Type) : Type :=
| Ret (x : A)
| Raise
| NumberWord_read (n : Z) (k : str -> ext A)
| hanja_translate (s : str) (mode : string) (k : str -> ext A)
| Loanword_read (w : str) (lang : string) (k : str -> ext A).

Arguments Raise {A}.

Fixpoint bind {A B} (m : ext A) (f : A -> ext B) : ext B :=
  match m with
  | Ret x => f x
  | Raise => Raise
  | NumberWord_read n k => NumberWord_read n (fun r => bind (k r) f)
  | hanja_translate s mode k => hanja_translate s mode (fun r => bind (k r) f)
  | Loanword_read w lang k => Loanword_read w lang (fun r => bind (k r) f)
  end.

Notation "x <- m ;; f" := (bind m (fun x => f))
  (at level 61, m at next level, right associativity).

(** The external services as functions. *)
Record services : Type := {
  number_word : Z -> str;
  hanja_reading : str -> string -> str;
  loanword : str -> string -> str
}.

(** Running a computation against given services; [None] is an
    uncaught exception. *)
Fixpoint run {A} (sv : services) (m : ext A) : option A :=
  match m with
  | Ret x => Some x
  | Raise => None
  | NumberWord_read n k => run sv (k (number_word sv n))
  | hanja_translate s mode k => run sv (k (hanja_reading sv s mode))
  | Loanword_read w lang k => run sv (k (loanword sv w lang))
  end.

Definition of_option {A} (o : option A) : ext A :=
  match o with Some x => Ret x | None => Raise end.

(** [for i in range(0, n)] over a loop state. *)
Fixpoint for_range {S} (n : nat) (body : S -> ext S) (s : S) : ext S :=
  match n with
  | O => Ret s
  | S n' => s' <- body s ;; for_range n' body s'
  end.

(** [for x in xs] appending to an accumulator. *)
Fixpoint for_each {A B} (xs : list A) (body : A -> ext (list B)) : ext (list B) :=
  match xs with
  | [] => Ret []
  | x :: xs' => ys <- body x ;; zs <- for_each xs' body ;; Ret (ys ++ zs)
  end.

(** [m.group()] of a match with span [sp] in [s]. *)
Definition group (s : str) (sp : Z * Z) : str := slice s (fst sp) (snd sp).

(** [re.search(r, s).group()], raising when there is no match. *)
Definition search_group (r : regex) (s : str) : ext str :=
  of_option (option_map (group s) (search r s)).

(** [re.sub] with a computed replacement.  A replacement holding a
    backslash is a template with escapes; that is outside this model
    and counted as a failure. *)
Definition sub_template (r : regex) (repl : str) (s : str) : ext str :=
  if existsb (Z.eqb 92) repl then Raise else Ret (sub_str r repl s).

(** ** The segmenter *)

Definition LF : string := String (ascii_of_nat 10) EmptyString.

Definition sentence_end : Z -> bool := one_of ".?!".

Definition initial_dot_re : regex := Seq (Behind [is_char "."; upper]) (lit ".").
Definition inner_dot_re : regex := seqs [Behind [upper]; lit "."; Ahead (Cls upper)].
Definition break_after_re : regex := Seq (Behind [sentence_end]) (Cls (one_of " ,")).
Definition run_on_re : regex :=
  seqs [Behind [hangul]; Cls sentence_end; Ahead (Cls hangul)].

Definition bySentence_line (line : str) : list str :=
  (* Map the ellipsis into a period *)
  let line := sub (lit "…") "." line in
  (* Delete periods included in initial letter sequences *)
  let line := sub initial_dot_re "" line in
  let line := sub inner_dot_re "" line in
  (* Clean up multiple punctuations *)
  let line := sub (plus (lit ".")) "." line in
  let line := sub (plus (lit "?")) "?" line in
  let line := sub (plus (lit "!")) "!" line in
  (* Split by sentence final punctuation marks *)
  let line := sub break_after_re LF line in
  let line := sub run_on_re ("." ++ LF) line in
  filter (fun shorterline => negb (isspace shorterline)
                             && negb (match shorterline with [] => true | _ => false end))
         (splitlines line).

Definition bySentence (corpus : list str) : list str :=
  flat_map bySentence_line corpus.

(** ** The offset-safe replacement primitive *)

Definition replaceSubstring (line newstr : str) (ituple : Z * Z) : str :=
  slice line 0 (fst ituple) ++ newstr ++ slice_from line (snd ituple).

(** ** Non-Korean stripping *)

Definition removeNonHangul (line : str) : str :=
  sub (star (Cls (nots (fun c => hangul c || is_space c)))) "" line.

(** ** Jamo-letter reading *)

Definition readHangulLetter (line : str) : str :=
  let line := sub (lit "ㄱ") "기역" line in
  let line := sub (lit "ㄴ") "니은" line in
  let line := sub (lit "ㄷ") "디귿" line in
  let line := sub (lit "ㄹ") "리을" line in
  let line := sub (lit "ㅁ") "미음" line in
  let line := sub (lit "ㅂ") "비읍" line in
  let line := sub (lit "ㅅ") "시옷" line in
  let line := sub (lit "ㅇ") "이응" line in
  let line := sub (lit "ㅈ") "지읒" line in
  let line := sub (lit "ㅊ") "치읓" line in
  let line := sub (lit "ㅎ") "히읗" line in
  let line := sub (lit "ㄲ") "쌍기역" line in
  let line := sub (lit "ㄸ") "쌍디귿" line in
  let line := sub (lit "ㅃ") "쌍비읍" line in
  let line := sub (lit "ㅆ") "쌍시옷" line in
  let line := sub (lit "ㅉ") "쌍지읒" line in
  line.

(** ** Logograph reading *)

Definition hanja (c : Z) : bool := rng "一" "龥" c || rng "豈" "龎" c.

Definition readHanja (line : str) : ext str :=
  match search (plus (Cls hanja)) line with
  | Some _ =>
    match search (Seq (plus (Cls hangul)) (plus (Cls hanja))) line with
    | Some _ => Ret (sub (plus (Cls hanja)) "" line)
    | None => hanja_translate line "substitution" (fun line => Ret line)
    end
  | None => Ret line
  end.

(** ** Acronym reading *)

Definition ABC_table (ABC : str) : str :=
  let ABC := sub (lit "A") "에이" ABC in
  let ABC := sub (lit "B") "비" ABC in
  let ABC := sub (lit "C") "씨" ABC in
  let ABC := sub (lit "D") "디" ABC in
  let ABC := sub (lit "E") "이" ABC in
  let ABC := sub (lit "F") "에프" ABC in
  let ABC := sub (lit "G") "지" ABC in
  let ABC := sub (lit "H") "에이치" ABC in
  let ABC := sub (lit "I") "아이" ABC in
  let ABC := sub (lit "J") "제이" ABC in
  let ABC := sub (lit "K") "케이" ABC in
  let ABC := sub (lit "L") "엘" ABC in
  let ABC := sub (lit "M") "엠" ABC in
  let ABC := sub (lit "N") "엔" ABC in
  let ABC := sub (lit "O") "오" ABC in
  let ABC := sub (lit "P") "피" ABC in
  let ABC := sub (lit "Q") "큐" ABC in
  let ABC := sub (lit "R") "알" ABC in
  let ABC := sub (lit "S") "에스" ABC in
  let ABC := sub (lit "T") "티" ABC in
  let ABC := sub (lit "U") "유" ABC in
  let ABC := sub (lit "V") "브이" ABC in
  let ABC := sub (lit "W") "더블유" ABC in
  let ABC := sub (lit "X") "엑스" ABC in
  let ABC := sub (lit "Y") "와이" ABC in
  let ABC := sub (lit "Z") "지" ABC in
  ABC.

Definition ABC_re : regex := Seq (Cls upper) (Ahead (Cls (nots lower))).

(** The loops of the three reading passes share one shape: the state
    is the line and the variable holding the token of the last
    iteration, which keeps its old value (or stays unbound) when the
    fresh scan finds nothing; reading the token unbound and indexing
    the empty span list both raise. *)
Definition loop_state : Type := str * option str.

Definition take_first (r : regex) (st : loop_state)
           (rewrite : str -> ext str) : ext loop_state :=
  let '(line, tok) := st in
  let idx := finditer r line in
  let lst := map (group line) idx in
  let tok := match lst with x :: _ => Some x | [] => tok end in
  tok <- of_option tok ;;
  tok <- rewrite tok ;;
  match idx with
  | ituple :: _ => Ret (replaceSubstring line tok ituple, Some tok)
  | [] => Raise
  end.

Definition rescan_loop (r : regex) (rewrite : str -> ext str) (line : str)
  : ext str :=
  let lst := map (group line) (finditer r line) in
  if (0 <? length lst)%nat then
    st <- for_range (length lst) (fun st => take_first r st rewrite) (line, None) ;;
    Ret (fst st)
  else Ret line.

Definition readABC (line : str) : ext str :=
  rescan_loop ABC_re (fun ABC => Ret (ABC_table ABC)) line.

(** ** Foreign-word reading *)

Definition readAlphabet (line : str) (lang : string) : ext str :=
  rescan_loop (plus (Cls latin))
              (fun alpha => Loanword_read alpha lang (fun alpha => Ret alpha))
              line.

Section Unicode.

(** The Unicode character database is not part of the repository
    either: [decimal c] is the value of [c] when it is a decimal digit
    (the class [\d] and the digits [int] accepts), and [isalnum] the
    alphanumeric characters (the class [\w] adds the underscore). *)
Variable decimal : Z -> option Z.
Variable isalnum : Z -> bool.

Definition digit (c : Z) : bool :=
  match decimal c with Some _ => true | None => false end.
Definition word (c : Z) : bool := isalnum c || is_char "_" c.

(** [int(s)] for a string of decimal digits. *)
Definition int_digits (s : str) : option Z :=
  fold_left (fun acc c =>
               match acc, decimal c with
               | Some n, Some d => Some (10 * n + d)%Z
               | _, _ => None
               end) s (Some 0%Z).

Definition py_int (s : str) : ext Z :=
  match s with
  | [] => Raise
  | _ => of_option (int_digits s)
  end.

(** ** Digit reading *)

Definition number_re : regex :=
  seqs [opt (Cls (one_of "+-")); plus (Cls digit); opt (lit "."); star (Cls digit)].

Definition read_float_digits (num : str) : str :=
  let num := sub (lit ".") "점" num in
  let num := sub (lit "0") "영" num in
  let num := sub (lit "1") "일" num in
  let num := sub (lit "2") "이" num in
  let num := sub (lit "3") "삼" num in
  let num := sub (lit "4") "사" num in
  let num := sub (lit "5") "오" num in
  let num := sub (lit "6") "육" num in
  let num := sub (lit "7") "칠" num in
  let num := sub (lit "8") "팔" num in
  let num := sub (lit "9") "구" num in
  num.

Definition read_token (num : str) : ext str :=
  match search (lit ".") num with
  | None =>
    (* [Case 1] Integer *)
    numint <- search_group (plus (Cls digit)) num ;;
    n <- py_int numint ;;
    numint <- NumberWord_read n (fun w => Ret w) ;;
    sub_template (plus (Cls digit)) numint num
  | Some _ =>
    (* [Case 2] Floating number *)
    let int_part := Seq (plus (Cls digit)) (Ahead (lit ".")) in
    numint <- search_group int_part num ;;
    n <- py_int numint ;;
    numint <- NumberWord_read n (fun w => Ret w) ;;
    num <- sub_template int_part numint num ;;
    Ret (read_float_digits num)
  end.

Definition readNumber (line : str) : ext str :=
  rescan_loop number_re read_token line.

(** ** The normaliser *)

Definition opening : Z -> bool := one_of "([<〈《【〔".
Definition closing : Z -> bool := one_of ")]>〉》】〕".
Definition blank (c : Z) : bool := is_char " " c || (c =? 9)%Z.
Definition not_paren : Z -> bool := nots (is_char ")").
Definition host_char (c : Z) : bool := lower c || rng "0" "9" c || is_char "-" c.
Definition tld_char (c : Z) : bool := lower c || rng "0" "9" c.
Definition url_tail : Z -> bool :=
  nots (fun c => rng "ㄱ" "힣" c || one_of ")].,'" c || (c =? 34)%Z || is_space c).
Definition quote (c : Z) : bool := one_of "`'＂‘’“”" c || (c =? 34)%Z.
Definition word_dot (c : Z) : bool := word c || is_char "." c.
Definition hangul_latin (c : Z) : bool := hangul c || latin c.

(** The patterns of [normalize], in the order of the source. *)
Definition number_bullet_re : regex :=
  seqs [Bol; star (Cls is_space); star (Cls opening); star (Cls is_space);
        plus (Cls digit); Cls (fun c => closing c || is_char "." c);
        Ahead (plus (Cls (nots digit)))].

Definition example_re : regex :=
  alts [seqs [lit "(예:"; lazy_star dot; lit ")"];
        seqs [lit "[예:"; lazy_star dot; lit "]"];
        seqs [Bol; star (Cls blank); lit "예:"; lazy_star dot]].

Definition letter_bullet_re : regex :=
  seqs [Bol; star (Cls is_space); star (Cls opening); star (Cls is_space);
        Cls (fun c => rng "ㄱ" "ㅎ" c || hangul c); Cls closing;
        star (Cls is_space); Ahead (star (Cls hangul))].

Definition paren_re : regex :=
  seqs [lit "("; star (Cls not_paren); plus (Cls not_paren); lit ")"].

Definition url_re : regex :=
  seqs [alts [lit "file://"; lit "gopher://"; lit "news://"; lit "nntp://";
              lit "telnet://"; seqs [lit "http"; opt (lit "s"); lit "://"];
              seqs [lit "ftp"; opt (lit "s"); lit "://"]; lit "sftp://";
              lit "www."];
        plus (Seq (plus (Cls host_char)) (lit "."));
        Rep (Cls tld_char) 2 (Some 4) true;
        star (Cls url_tail)].

Definition dash_re : regex := star (Cls (one_of "ㅡ-")).
Definition quote_re : regex := star (Cls quote).

Definition reporter_re : regex :=
  seqs [lit "【"; lazy_star dot; lit "기자"; star (Cls blank); lit "】"].

Definition title_re : regex := seqs [lit "〔"; lazy_star dot; lit "〕"].
Definition bracket_re : regex := star (Cls (one_of "[〈〉《》「」『』{}]")).

Definition email_re : regex :=
  seqs [plus (Cls word); star (Cls word_dot); lit "@";
        plus (Cls word); star (Cls word_dot); lit "."; plus (Cls latin)].

Definition glued_latin_re : regex :=
  seqs [Behind [hangul]; plus (Cls latin); opt (lit " "); star (Cls latin)].

Definition tilde_re : regex :=
  seqs [Behind [hangul_latin]; lit "~"; Ahead (plus (Cls hangul_latin))].

Definition normalize_line (line : str) : ext str :=
  (* Number deletion *)
  let line := sub number_bullet_re "" line in
  (* Number reading *)
  line <- readNumber line ;;
  (* Deletion *)
  let line := sub example_re "" line in        (* examples *)
  let line := sub letter_bullet_re "" line in  (* ordered bullets *)
  let line := sub paren_re "" line in          (* everything within parentheses *)
  let line := sub url_re "" line in            (* web address *)
  let line := sub dash_re "" line in           (* dashes *)
  let line := sub quote_re "" line in          (* quotations *)
  let line := sub reporter_re "" line in       (* reporter's name *)
  let line := sub title_re "" line in          (* book's title as reference *)
  let line := sub bracket_re "" line in        (* brackets *)
  let line := sub email_re "" line in          (* email address *)
  let line := sub (lit "#") "" line in         (* sharp *)
  let line := sub glued_latin_re "" line in    (* alphabet references right after hangul *)
  (* Substitution into newline *)
  let line := sub (Cls (one_of "=:;")) LF line in
  (* Substitution into whitespace *)
  let line := sub (lit "·") " " line in
  let line := sub tilde_re " " line in
  let line := sub (lit "→") " " line in
  (* Hangul jaum (single consonants) reading *)
  let line := readHangulLetter line in
  (* Hanja (Chinese character) reading *)
  line <- readHanja line ;;
  (* ABC (capital letter sequences) reading *)
  line <- readABC line ;;
  (* Alphabet reading *)
  line <- readAlphabet line "ita" ;;
  (* Remove all non-hangul characters *)
  Ret (removeNonHangul line).

Definition normalize (corpus : list str) : ext (list str) :=
  for_each corpus
    (fun line =>
       line <- normalize_line line ;;
       Ret (if negb (isspace line)
            then match line with [] => [] | _ => [line] end
            else [])).

End Unicode.

(** * Vocabulary of the properties *)

(** Sample Unicode tables and services for concrete runs: ASCII digits
    only; ASCII and full-width digits (U+FF10 to U+FF19, decimal digits
    of the Unicode database); and readers that return Korean syllables. *)
Definition ascii_decimal (c : Z) : option Z :=
  if in_range 48 57 c then Some (c - 48)%Z else None.

Definition wide_decimal (c : Z) : option Z :=
  if in_range 48 57 c then Some (c - 48)%Z
  else if in_range 65296 65305 c then Some (c - 65296)%Z else None.

Definition ascii_alnum (c : Z) : bool := latin c || in_range 48 57 c.

Definition toy_digits (n : Z) : str :=
  match nth_error [utf8 "영"; utf8 "일"; utf8 "이"; utf8 "삼"; utf8 "사";
                   utf8 "오"; utf8 "육"; utf8 "칠"; utf8 "팔"; utf8 "구"]
                  (Z.to_nat n) with
  | Some w => w
  | None => utf8 "수"
  end.

Definition toy : services :=
  {| number_word := toy_digits;
     hanja_reading := fun s _ => map (fun c => if hanja c then chr "한" else c) s;
     loanword := fun w _ => map (fun _ => chr "외") w |}.

Definition sample_corpus : list str :=
  [utf8 "(1) 정부government는 3.14 ABC를 $"; utf8 " 12 "; utf8 "-- ??"].

(** The longest prefix of characters of a class and what follows it. *)
Fixpoint after (p : Z -> bool) (a : str) : str :=
  match a with
  | c :: a' => if p c then after p a' else a
  | [] => []
  end.

Fixpoint while (p : Z -> bool) (a : str) : str :=
  match a with
  | c :: a' => if p c then c :: while p a' else []
  | [] => []
  end.

(** Patterns whose matches are never empty and lie within the subject. *)
Definition proper (r : regex) : Prop :=
  forall adv b a n, rx_len r adv b a = Some n -> (0 < n <= length a)%nat.

(** Characters that may remain after normalisation. *)
Definition korean_or_space (c : Z) : bool := hangul c || is_space c.

(** A line that is neither empty nor made of whitespace only. *)
Definition nonblank (s : str) : Prop :=
  s <> [] /\ Exists (fun c => is_space c = false) s.

(** Some character of class [p] is directly followed by one of class [q]. *)
Fixpoint adjacent (p q : Z -> bool) (s : str) : bool :=
  match s with
  | c :: s' =>
    (p c && match s' with d :: _ => q d | [] => false end) || adjacent p q s'
  | [] => false
  end.

(** Three consecutive characters of classes [p], [q] and [r]. *)
Fixpoint triple (p q r : Z -> bool) (s : str) : bool :=
  match s with
  | u :: s' =>
    (p u && match s' with
            | v :: w :: _ => q v && r w
            | _ => false
            end) || triple p q r s'
  | [] => false
  end.

Definition q_hd (q : Z -> bool) (s : str) : bool :=
  match s with v :: _ => q v | [] => false end.

Definition t2 (q r : Z -> bool) (s : str) : bool :=
  match s with v :: w :: _ => q v && r w | _ => false end.

(** ** Numeric tokens *)

(** Where a numeric token starting at the head of [a] ends: after a
    digit run, an optional period and a further digit run. *)
Definition number_end (digit : Z -> bool) (a : str) : option str :=
  match a with
  | c :: a1 =>
    if digit c then
      let t := after digit a1 in
      Some match t with
           | c2 :: t2 => if (c2 =? 46)%Z then after digit t2 else t
           | [] => []
           end
    else None
  | [] => None
  end.

Definition token_end (digit : Z -> bool) (a : str) : option str :=
  match a with
  | c :: a' =>
    if one_of "+-" c
    then match number_end digit a' with
         | Some e => Some e
         | None => number_end digit a
         end
    else number_end digit a
  | [] => None
  end.

(** The character-wise effect of the eleven substitutions applied to a
    floating number. *)
Definition float_char (c : Z) : str :=
  if (c =? chr ".")%Z then utf8 "점"
  else if (c =? chr "0")%Z then utf8 "영"
  else if (c =? chr "1")%Z then utf8 "일"
  else if (c =? chr "2")%Z then utf8 "이"
  else if (c =? chr "3")%Z then utf8 "삼"
  else if (c =? chr "4")%Z then utf8 "사"
  else if (c =? chr "5")%Z then utf8 "오"
  else if (c =? chr "6")%Z then utf8 "육"
  else if (c =? chr "7")%Z then utf8 "칠"
  else if (c =? chr "8")%Z then utf8 "팔"
  else if (c =? chr "9")%Z then utf8 "구"
  else [c].

Definition no_digit_head (digit : Z -> bool) (a : str) : Prop :=
  match a with d :: _ => digit d = false | [] => True end.

(** The pattern for the integer part of a floating token. *)
Definition int_part (digit : Z -> bool) : regex :=
  Seq (plus (Cls digit)) (Ahead (lit ".")).

(** The characters of the line that are digits are ASCII digits. *)
Definition ascii_digits (digit : Z -> bool) (s : str) : Prop :=
  forall c, In c s -> digit c = true -> in_range 48 57 c = true.

Definition no_backslash (w : str) : bool := negb (existsb (Z.eqb 92) w).

(** Number of numeric tokens a scan of the line finds. *)
Definition tokens (decimal : Z -> option Z) (line : str) : nat :=
  length (finditer (number_re decimal) line).

(** The loop body of [readNumber]. *)
Definition readNumber_body (decimal : Z -> option Z) (st : loop_state)
  : ext loop_state :=
  take_first (number_re decimal) st (read_token decimal).

(** ** The segmenter, step by step *)

(** Collapsing runs of [c]: a [c] directly after a [c] is dropped. *)
Fixpoint squash (c : Z) (after_c : bool) (a : str) : str :=
  match a with
  | x :: a' =>
    if (x =? c)%Z
    then if after_c then squash c true a' else c :: squash c true a'
    else x :: squash c false a'
  | [] => []
  end.

(** A space or comma after a sentence-final mark becomes a line feed. *)
Fixpoint break_after (prev : Z) (a : str) : str :=
  match a with
  | c :: a' =>
    (if sentence_end prev && one_of " ," c then 10%Z else c) :: break_after c a'
  | [] => []
  end.

(** A sentence-final mark between two Korean syllables becomes a period
    and a line feed. *)
Fixpoint run_on (prev : Z) (a : str) : str :=
  match a with
  | c :: a' =>
    (if hangul prev && sentence_end c
        && match a' with d :: _ => hangul d | [] => false end
     then [46%Z; 10%Z] else [c]) ++ run_on c a'
  | [] => []
  end.

Definition ellipsis (x : Z) : str := if (8230 =? x)%Z then [46%Z] else [x].

(** The eight substitutions of [bySentence] on one line, as in the
    source, and as direct functions for lines without capitals. *)
Definition rewrites (line : str) : str :=
  let line := sub (lit "…") "." line in
  let line := sub initial_dot_re "" line in
  let line := sub inner_dot_re "" line in
  let line := sub (plus (lit ".")) "." line in
  let line := sub (plus (lit "?")) "?" line in
  let line := sub (plus (lit "!")) "!" line in
  let line := sub break_after_re LF line in
  sub run_on_re ("." ++ LF) line.

Definition direct (line : str) : str :=
  run_on 0 (break_after 0
    (squash 33 false (squash 63 false (squash 46 false (flat_map ellipsis line))))).

(** The test under which [bySentence] appends a piece. *)
Definition kept (s : str) : bool :=
  negb (isspace s) && negb (match s with [] => true | _ => false end).

Definition no_break (s : str) : bool := forallb (nots is_linebreak) s.


(** What is left of a text after the Latin annotation it starts with:
    the Latin letters, one space when it directly follows them, and the
    Latin letters directly after that space are passed over. *)
Definition annotation_rest (a : str) : str :=
  match after latin a with
  | c :: t => if (32 =? c)%Z then after latin t else c :: t
  | [] => []
  end.

(** * Vocabulary of the further properties *)

Unset Implicit Arguments.

(** ** The acronym pass in one sweep *)

(** A capital letter in front of [a] is read when a character that is
    not a lowercase letter follows it. *)
Definition ABC_hit (c : Z) (a : str) : bool := upper c && q_hd (nots lower) a.

Fixpoint spell_caps (a : str) : str :=
  match a with
  | c :: a' => (if ABC_hit c a' then ABC_table [c] else [c]) ++ spell_caps a'
  | [] => []
  end.

(** Number of capitals of [a] that are read. *)
Fixpoint caps (a : str) : nat :=
  match a with
  | c :: a' => (if ABC_hit c a' then 1 else 0) + caps a'
  | [] => 0
  end.

(** ** The foreign-word pass in one sweep *)

(** Number of maximal runs of Latin letters in [a]; [inside] tells
    whether the character before [a] belongs to a run. *)
Fixpoint latin_runs (inside : bool) (a : str) : nat :=
  match a with
  | c :: a' =>
    if latin c then (if inside then 0 else 1) + latin_runs true a'
    else latin_runs false a'
  | [] => 0
  end.

(** Reading every maximal run of Latin letters with [f]; [cur] is the
    run being collected, last letter first. *)
Definition flush (f : str -> str) (cur : str) : str :=
  match cur with [] => [] | _ => f (rev cur) end.

Fixpoint read_runs (f : str -> str) (cur : str) (a : str) : str :=
  match a with
  | c :: a' =>
    if latin c then read_runs f (c :: cur) a'
    else flush f cur ++ c :: read_runs f [] a'
  | [] => flush f cur
  end.

(** ** The jamo pass, character by character *)

(** The reading of one character by the sixteen substitutions of
    [readHangulLetter]. *)
Definition jamo_name (c : Z) : str :=
  if (c =? chr "ㄱ")%Z then utf8 "기역"
  else if (c =? chr "ㄴ")%Z then utf8 "니은"
  else if (c =? chr "ㄷ")%Z then utf8 "디귿"
  else if (c =? chr "ㄹ")%Z then utf8 "리을"
  else if (c =? chr "ㅁ")%Z then utf8 "미음"
  else if (c =? chr "ㅂ")%Z then utf8 "비읍"
  else if (c =? chr "ㅅ")%Z then utf8 "시옷"
  else if (c =? chr "ㅇ")%Z then utf8 "이응"
  else if (c =? chr "ㅈ")%Z then utf8 "지읒"
  else if (c =? chr "ㅊ")%Z then utf8 "치읓"
  else if (c =? chr "ㅎ")%Z then utf8 "히읗"
  else if (c =? chr "ㄲ")%Z then utf8 "쌍기역"
  else if (c =? chr "ㄸ")%Z then utf8 "쌍디귿"
  else if (c =? chr "ㅃ")%Z then utf8 "쌍비읍"
  else if (c =? chr "ㅆ")%Z then utf8 "쌍시옷"
  else if (c =? chr "ㅉ")%Z then utf8 "쌍지읒"
  else [c].

(** The sixteen letters of the table. *)
Definition jamo_read : Z -> bool := one_of "ㄱㄴㄷㄹㅁㅂㅅㅇㅈㅊㅎㄲㄸㅃㅆㅉ".


(** A pattern that cannot match in a text without character of class
    [P]. *)
Definition needs (P : Z -> bool) (r : regex) : Prop :=
  forall R (k : cont R) b a, existsb P a = false -> rx r k b a = None.

(** A continuation restricted to the texts that satisfy [G]. *)
Definition guard {R} (G : str -> bool) (k : cont R) : cont R :=
  fun b a => if G a then k b a else None.

(** ** Lines as the segmenter sees them *)

(** A period, or the ellipsis that the segmenter turns into one. *)
Definition dotlike (c : Z) : bool := (c =? 46)%Z || (c =? 8230)%Z.

(** A sentence-final mark or an ellipsis. *)
Definition mark (c : Z) : bool := sentence_end c || (c =? 8230)%Z.

(** The line after the deletion of the periods of initials. *)
Definition undotted (line : str) : str :=
  sub inner_dot_re "" (sub initial_dot_re "" (flat_map ellipsis line)).

(** What the segmenter leaves in every line it emits. *)
Record tidy (s : str) : Prop := {
  td_lb : no_break s = true;
  td_ell : existsb (Z.eqb 8230) s = false;
  td_dd : adjacent (Z.eqb 46) (Z.eqb 46) s = false;
  td_qq : adjacent (Z.eqb 63) (Z.eqb 63) s = false;
  td_bb : adjacent (Z.eqb 33) (Z.eqb 33) s = false;
  td_sc : adjacent sentence_end (one_of " ,") s = false;
  td_tr : triple hangul sentence_end hangul s = false
}.

(** ** Lines of Korean text *)

(** Characters of a line that [normalize] only has to cut: Korean
    syllables, whitespace, and the two separators [=] and [;] that
    become line feeds. *)
Definition korean_text (c : Z) : bool :=
  korean_or_space c || (c =? 61)%Z || (c =? 59)%Z.

Definition to_line_feed (c : Z) : Z :=
  if one_of "=:;" c then 10%Z else c.

(** The characters that [normalize] turns into a space. *)
Definition to_space (c : Z) : Z :=
  if is_char "·" c || is_char "→" c then 32%Z else c.

(** The text [t] does not start with a character of class [p]. *)
Definition stops (p : Z -> bool) (t : str) : Prop :=
  match t with d :: _ => p d = false | [] => True end.

(** The character that closes a numbered bullet. *)
Definition bullet_end (c : Z) : bool := closing c || is_char "." c.

Set Implicit Arguments.

(** * Properties of the matcher *)

Module ReFacts.

Section Ext.
Variable R : Type.

Lemma rep_loop_ext (body1 body2 : cont R -> cont R) :
  (forall k1 k2, (forall b a, k1 b a = k2 b a) ->
                 forall b a, body1 k1 b a = body2 k2 b a) ->
  forall fuel lo hi g k1 k2,
    (forall b a, k1 b a = k2 b a) ->
    forall b a, rep_loop body1 fuel lo hi g k1 b a
                = rep_loop body2 fuel lo hi g k2 b a.
Proof.
  intros Hbody fuel.
  induction fuel as [|fuel IH]; intros lo hi g k1 k2 Hk b a; simpl.
  - reflexivity.
  - rewrite (Hk b a).
    match goal with |- context [body1 ?K b a] => set (K1 := K) end.
    match goal with |- context [body2 ?K b a] => set (K2 := K) end.
    assert (E : body1 K1 b a = body2 K2 b a).
    { apply Hbody. intros b' a'. subst K1 K2. simpl.
      destruct (length a' <? length a)%nat; [apply IH; exact Hk | reflexivity]. }
    rewrite E. reflexivity.
Qed.

Lemma rx_ext (r : regex) :
  forall k1 k2 : cont R,
    (forall b a, k1 b a = k2 b a) ->
    forall b a, rx r k1 b a = rx r k2 b a.
Proof.
  induction r as [|p|r1 IH1 r2 IH2|r1 IH1 r2 IH2|r IH lo hi g| |r IH|ps];
    intros k1 k2 Hk b a; cbn [rx].
  - apply Hk.
  - destruct a as [|c a']; [reflexivity|].
    destruct (p c); [apply Hk | reflexivity].
  - apply IH1. intros b' a'. apply IH2. exact Hk.
  - rewrite (IH1 k1 k2 Hk), (IH2 k1 k2 Hk). reflexivity.
  - apply rep_loop_ext; [|exact Hk].
    intros k1' k2' Hk' b' a'. apply IH. exact Hk'.
  - destruct b; [apply Hk | reflexivity].
  - rewrite (Hk b a). reflexivity.
  - rewrite (Hk b a). reflexivity.
Qed.

Lemma rep_loop_fuel (r : regex) :
  forall f1 f2 lo hi g (k : cont R) b a,
    (length a < f1)%nat -> (length a < f2)%nat ->
    rep_loop (fun k' => rx r k') f1 lo hi g k b a
    = rep_loop (fun k' => rx r k') f2 lo hi g k b a.
Proof.
  induction f1 as [|f1 IH]; intros f2 lo hi g k b a H1 H2; [lia|].
  destruct f2 as [|f2]; [lia|]. simpl.
  match goal with |- context [rx r ?K b a] => set (K1 := K) end.
  match goal with |- context [rx r ?K b a] =>
    lazymatch K with K1 => fail | _ => set (K2 := K) end end.
  assert (E : rx r K1 b a = rx r K2 b a).
  { apply rx_ext. intros b' a'. subst K1 K2. simpl.
    destruct (Nat.ltb_spec (length a') (length a)); [|reflexivity].
    apply IH; lia. }
  rewrite E. reflexivity.
Qed.

(** One iteration of a repetition. *)
Lemma rx_rep (r : regex) lo hi g (k : cont R) b a :
  rx (Rep r lo hi g) k b a =
  let more :=
    rx r (fun b' a' =>
            if (length a' <? length a)%nat
            then rx (Rep r (pred lo) (hi_pred hi) g) k b' a'
            else None) b a in
  match lo with
  | S _ => more
  | O => if hi_open hi
         then if g then orelse more (k b a) else orelse (k b a) more
         else k b a
  end.
Proof.
  cbv zeta. change (rx (Rep r lo hi g) k b a)
    with (rep_loop (fun k' => rx r k') (S (length a)) lo hi g k b a).
  cbn [rep_loop].
  match goal with |- context [rx r ?K b a] => set (K1 := K) end.
  match goal with |- context [rx r ?K b a] =>
    lazymatch K with K1 => fail | _ => set (K2 := K) end end.
  assert (E : rx r K1 b a = rx r K2 b a).
  { apply rx_ext. intros b' a'. subst K1 K2. cbv beta.
    destruct (Nat.ltb_spec (length a') (length a)); [|reflexivity].
    change (rx (Rep r (pred lo) (hi_pred hi) g) k b' a')
      with (rep_loop (fun k' => rx r k') (S (length a'))
                     (pred lo) (hi_pred hi) g k b' a').
    apply rep_loop_fuel; lia. }
  rewrite E. reflexivity.
Qed.

Lemma rx_eps (k : cont R) b a : rx Eps k b a = k b a.
Proof. reflexivity. Qed.

Lemma rx_cls p (k : cont R) b a :
  rx (Cls p) k b a =
  match a with
  | c :: a' => if p c then k (c :: b) a' else None
  | [] => None
  end.
Proof. reflexivity. Qed.

Lemma rx_seq r1 r2 (k : cont R) b a :
  rx (Seq r1 r2) k b a = rx r1 (rx r2 k) b a.
Proof. reflexivity. Qed.

Lemma rx_alt r1 r2 (k : cont R) b a :
  rx (Alt r1 r2) k b a = orelse (rx r1 k b a) (rx r2 k b a).
Proof. reflexivity. Qed.

Lemma rx_bol (k : cont R) b a :
  rx Bol k b a = match b with [] => k b a | _ => None end.
Proof. reflexivity. Qed.

Lemma rx_ahead r (k : cont R) b a :
  rx (Ahead r) k b a =
  match rx r (fun _ _ => Some tt) b a with
  | Some _ => k b a
  | None => None
  end.
Proof. reflexivity. Qed.

Lemma rx_behind ps (k : cont R) b a :
  rx (Behind ps) k b a = if behind (rev ps) b then k b a else None.
Proof. reflexivity. Qed.

Lemma ltb_tail (c : Z) (a' : str) : (length a' <? length (c :: a'))%nat = true.
Proof. apply Nat.ltb_lt. simpl. lia. Qed.

Lemma rx_star_cls p (k : cont R) b a :
  rx (star (Cls p)) k b a =
  match a with
  | c :: a' =>
    if p c then orelse (rx (star (Cls p)) k (c :: b) a') (k b a) else k b a
  | [] => k b a
  end.
Proof.
  unfold star. rewrite rx_rep. cbv zeta. rewrite rx_cls.
  destruct a as [|c a']; [reflexivity|].
  destruct (p c); [|reflexivity].
  rewrite ltb_tail. reflexivity.
Qed.

Lemma rx_plus_cls p (k : cont R) b a :
  rx (plus (Cls p)) k b a =
  match a with
  | c :: a' => if p c then rx (star (Cls p)) k (c :: b) a' else None
  | [] => None
  end.
Proof.
  unfold plus. rewrite rx_rep. cbv zeta. rewrite rx_cls.
  destruct a as [|c a']; [reflexivity|].
  destruct (p c); [|reflexivity].
  rewrite ltb_tail. reflexivity.
Qed.

Lemma rx_opt_cls p (k : cont R) b a :
  rx (opt (Cls p)) k b a =
  match a with
  | c :: a' => if p c then orelse (k (c :: b) a') (k b a) else k b a
  | [] => k b a
  end.
Proof.
  unfold opt. rewrite rx_rep. cbv zeta. rewrite rx_cls.
  destruct a as [|c a']; [reflexivity|].
  destruct (p c); [|reflexivity].
  rewrite ltb_tail. rewrite rx_rep. reflexivity.
Qed.

End Ext.

Arguments rx : simpl never.

Lemma while_after p a : while p a ++ after p a = a.
Proof.
  induction a as [|c a IH]; simpl; [reflexivity|].
  destruct (p c); simpl; [rewrite IH|]; reflexivity.
Qed.

Lemma after_length p a : (length (after p a) <= length a)%nat.
Proof.
  induction a as [|c a IH]; simpl; [lia|]. destruct (p c); simpl; lia.
Qed.

Lemma while_Forall p a : Forall (fun c => p c = true) (while p a).
Proof.
  induction a as [|c a IH]; simpl; [constructor|].
  destruct (p c) eqn:E; constructor; assumption.
Qed.

Lemma after_head p a : match after p a with c :: _ => p c = false | [] => True end.
Proof.
  induction a as [|c a IH]; simpl; [exact I|].
  destruct (p c) eqn:E; [exact IH | exact E].
Qed.

Lemma while_app_stop p x t :
  forallb p x = true ->
  match t with d :: _ => p d = false | [] => True end ->
  while p (x ++ t) = x /\ after p (x ++ t) = t.
Proof.
  intros Hx Ht. induction x as [|c x IH]; simpl.
  - destruct t as [|d t]; [auto|]. simpl. rewrite Ht. auto.
  - simpl in Hx. apply andb_true_iff in Hx. destruct Hx as [Hc Hx].
    rewrite Hc. destruct (IH Hx) as [-> ->]. auto.
Qed.

(** A greedy class repetition stops after the longest run when the
    rest of the pattern accepts there. *)
Lemma rx_star_cls_greedy R p (k : cont R) b a v :
  k (rev (while p a) ++ b) (after p a) = Some v ->
  rx (star (Cls p)) k b a = Some v.
Proof.
  revert b. induction a as [|c a IH]; intros b H; rewrite rx_star_cls.
  - exact H.
  - simpl in H. destruct (p c).
    + rewrite (IH (c :: b)); [reflexivity|].
      simpl in H. rewrite <- app_assoc in H. exact H.
    + exact H.
Qed.

End ReFacts.

Module SubFacts.
Import ReFacts.

Lemma length_while_after p (a : str) :
  (length a - length (after p a) = length (while p a))%nat.
Proof.
  rewrite <- (while_after p a) at 1. rewrite length_app. lia.
Qed.

(** Length of the match of a greedy class repetition. *)
Lemma rx_len_star_cls p adv b a :
  rx_len (star (Cls p)) adv b a =
  match while p a with
  | [] => if adv then None else Some O
  | run => Some (length run)
  end.
Proof.
  unfold rx_len.
  destruct (while p a) as [|c run] eqn:E.
  - rewrite rx_star_cls. destruct a as [|c a'].
    + unfold accept. simpl. destruct adv; reflexivity.
    + simpl in E. destruct (p c); [discriminate|].
      unfold accept. rewrite Nat.sub_diag. destruct adv; reflexivity.
  - apply rx_star_cls_greedy. unfold accept.
    rewrite length_while_after, E. simpl. rewrite andb_false_r. reflexivity.
Qed.

(** Deleting the runs of a class deletes exactly its characters. *)
Lemma sub_scan_star_cls p :
  forall a skip b,
    (skip <= length (while p a))%nat ->
    sub_scan (star (Cls p)) [] skip b a = filter (nots p) a.
Proof.
  induction a as [|c a IH]; intros skip b Hskip.
  - simpl in Hskip. assert (skip = O) by lia. subst skip.
    cbn [sub_scan]. rewrite !rx_len_star_cls. reflexivity.
  - destruct skip as [|n].
    + cbn [sub_scan]. rewrite !rx_len_star_cls.
      cbn [while filter]. change (nots p c) with (negb (p c)).
      destruct (p c) eqn:Ec.
      * cbn [length negb app]. apply IH. lia.
      * cbn [negb app]. rewrite IH by (simpl; lia). reflexivity.
    + cbn [sub_scan filter]. change (nots p c) with (negb (p c)).
      simpl in Hskip.
      destruct (p c) eqn:Ec; [|simpl in Hskip; lia].
      cbn [negb]. apply IH. simpl in Hskip. lia.
Qed.

Lemma sub_star_cls p s : sub (star (Cls p)) "" s = filter (nots p) s.
Proof. apply sub_scan_star_cls. lia. Qed.

(** Stepping the search loop. *)
Lemma sub_scan_skip r repl x :
  forall b rest,
    sub_scan r repl (length x) b (x ++ rest) = sub_scan r repl 0 (rev x ++ b) rest.
Proof.
  induction x as [|c x IH]; intros b rest; [reflexivity|].
  cbn [length app sub_scan]. rewrite IH. cbn [rev].
  rewrite <- app_assoc. reflexivity.
Qed.

Lemma sub_scan_hit r repl b c x rest :
  rx_len r false b (c :: x ++ rest) = Some (S (length x)) ->
  sub_scan r repl 0 b (c :: x ++ rest)
  = repl ++ sub_scan r repl 0 (rev (c :: x) ++ b) rest.
Proof.
  intros H. cbn [sub_scan]. rewrite H. rewrite sub_scan_skip.
  cbn [rev]. rewrite <- app_assoc. reflexivity.
Qed.

Lemma sub_scan_miss r repl b c a :
  rx_len r false b (c :: a) = None ->
  sub_scan r repl 0 b (c :: a) = c :: sub_scan r repl 0 (c :: b) a.
Proof. intros H. cbn [sub_scan]. rewrite H. reflexivity. Qed.

Lemma sub_scan_miss_end r repl b :
  rx_len r false b [] = None -> sub_scan r repl 0 b [] = [].
Proof. intros H. cbn [sub_scan]. rewrite H. reflexivity. Qed.

(** A pass whose pattern matches nowhere leaves the line as it is. *)
Lemma sub_scan_no_match r repl :
  forall a b,
    (forall x y, a = x ++ y -> rx_len r false (rev x ++ b) y = None) ->
    sub_scan r repl 0 b a = a.
Proof.
  induction a as [|c a IH]; intros b H.
  - apply sub_scan_miss_end. apply (H [] []). reflexivity.
  - rewrite sub_scan_miss by (apply (H [] (c :: a)); reflexivity).
    f_equal. apply IH. intros x y E.
    specialize (H (c :: x) y). cbn [rev] in H. rewrite <- app_assoc in H.
    apply H. rewrite E. reflexivity.
Qed.

Lemma iter_scan_skip r x :
  forall pos b rest,
    iter_scan r (length x) pos b (x ++ rest)
    = iter_scan r 0 (pos + Z.of_nat (length x)) (rev x ++ b) rest.
Proof.
  induction x as [|c x IH]; intros pos b rest.
  - cbn [length app rev]. rewrite Z.add_0_r. reflexivity.
  - cbn [length app iter_scan]. rewrite IH. cbn [rev].
    rewrite <- app_assoc. f_equal. lia.
Qed.

Lemma iter_scan_hit r pos b c x rest :
  rx_len r false b (c :: x ++ rest) = Some (S (length x)) ->
  iter_scan r 0 pos b (c :: x ++ rest)
  = (pos, pos + Z.of_nat (S (length x)))%Z
      :: iter_scan r 0 (pos + Z.of_nat (S (length x))) (rev (c :: x) ++ b) rest.
Proof.
  intros H. cbn [iter_scan]. rewrite H. rewrite iter_scan_skip.
  cbn [rev]. rewrite <- app_assoc. do 2 f_equal. lia.
Qed.

Lemma iter_scan_miss r pos b c a :
  rx_len r false b (c :: a) = None ->
  iter_scan r 0 pos b (c :: a) = iter_scan r 0 (pos + 1) (c :: b) a.
Proof. intros H. cbn [iter_scan]. rewrite H. reflexivity. Qed.

Lemma iter_scan_miss_end r pos b :
  rx_len r false b [] = None -> iter_scan r 0 pos b [] = [].
Proof. intros H. cbn [iter_scan]. rewrite H. reflexivity. Qed.

End SubFacts.

Module SearchFacts.
Import ReFacts SubFacts.

(** What a class repetition followed by [k] can return. *)
Lemma rx_star_cls_none R p (k : cont R) :
  forall a b,
    rx (star (Cls p)) k b a = None <->
    (forall x y, a = x ++ y -> forallb p x = true -> k (rev x ++ b) y = None).
Proof.
  induction a as [|c a IH]; intros b; rewrite rx_star_cls.
  - split.
    + intros H x y E _. symmetry in E. apply app_eq_nil in E.
      destruct E; subst. exact H.
    + intros H. apply (H [] []); reflexivity.
  - destruct (p c) eqn:Ec.
    + split.
      * intros H x y E Hx.
        destruct (rx (star (Cls p)) k (c :: b) a) eqn:Er; [discriminate|].
        simpl in H. destruct x as [|d x].
        -- simpl in E. subst y. exact H.
        -- simpl in E. inversion E; subst. simpl in Hx.
           apply andb_true_iff in Hx. destruct Hx as [_ Hx].
           cbn [rev]. rewrite <- app_assoc.
           apply (proj1 (IH (d :: b)) Er x y); auto.
      * intros H.
        assert (Er : rx (star (Cls p)) k (c :: b) a = None).
        { apply IH. intros x y E Hx.
          specialize (H (c :: x) y). cbn [rev] in H. rewrite <- app_assoc in H.
          apply H; [rewrite E; reflexivity|]. simpl. rewrite Ec. exact Hx. }
        rewrite Er. simpl. apply (H [] (c :: a)); reflexivity.
    + split.
      * intros H x y E Hx. destruct x as [|d x].
        -- simpl in E. subst y. exact H.
        -- simpl in E. inversion E; subst. simpl in Hx. rewrite Ec in Hx.
           discriminate.
      * intros H. apply (H [] (c :: a)); reflexivity.
Qed.

Lemma search_from_none_here r adv b a :
  search_from r adv b a = None -> rx_len r adv b a = None.
Proof.
  destruct a; cbn [search_from]; destruct (rx_len r adv b _);
    try discriminate; reflexivity.
Qed.

Lemma search_from_none r :
  forall a adv b,
    search_from r adv b a = None ->
    forall x y, a = x ++ y -> x <> [] -> rx_len r false (rev x ++ b) y = None.
Proof.
  induction a as [|c a IH]; intros adv b H x y E Hx.
  - symmetry in E. apply app_eq_nil in E. destruct E. contradiction.
  - cbn [search_from] in H.
    destruct (rx_len r adv b (c :: a)); [discriminate|].
    destruct (search_from r false (c :: b) a) as [[i n]|] eqn:Es; [discriminate|].
    destruct x as [|d x]; [contradiction|]. simpl in E.
    injection E as <- ->.
    cbn [rev]. rewrite <- app_assoc. destruct x as [|e x].
    + apply search_from_none_here. exact Es.
    + eapply IH; [exact Es | reflexivity | discriminate].
Qed.

Lemma search_none_iff r s :
  search r s = None <->
  (forall x y, s = x ++ y -> rx_len r false (rev x) y = None).
Proof.
  unfold search. split.
  - intros H x y E.
    destruct (search_from r false [] s) as [[i n]|] eqn:Es; [discriminate|].
    destruct x as [|c x].
    + simpl in *. subst y. apply search_from_none_here. exact Es.
    + rewrite <- (app_nil_r (rev (c :: x))).
      eapply search_from_none; [exact Es | exact E | discriminate].
  - intros H.
    assert (G : forall a b, (forall x y, a = x ++ y ->
                                         rx_len r false (rev x ++ b) y = None) ->
                            search_from r false b a = None).
    { induction a as [|c a IH]; intros b Hb; cbn [search_from].
      - pose proof (Hb [] [] eq_refl) as E0. cbn [rev app] in E0.
        rewrite E0. reflexivity.
      - pose proof (Hb [] (c :: a) eq_refl) as E0. cbn [rev app] in E0.
        rewrite E0.
        rewrite IH; [reflexivity|]. intros x y E.
        specialize (Hb (c :: x) y). cbn [rev] in Hb. rewrite <- app_assoc in Hb.
        apply Hb. rewrite E. reflexivity. }
    rewrite G; [reflexivity|]. intros x y E. rewrite app_nil_r. apply H. exact E.
Qed.

(** A non-empty run of a class. *)
Lemma rx_len_plus_cls p adv b a :
  rx_len (plus (Cls p)) adv b a =
  match while p a with
  | [] => None
  | run => Some (length run)
  end.
Proof.
  unfold rx_len. rewrite rx_plus_cls. destruct a as [|c a]; [reflexivity|].
  cbn [while]. destruct (p c) eqn:Ec; [|reflexivity].
  apply rx_star_cls_greedy. unfold accept. cbn [length].
  assert (L : (S (length a) - length (after p a) = S (length (while p a)))%nat).
  { pose proof (length_while_after p a). pose proof (after_length p a). lia. }
  rewrite L. cbn [Nat.eqb]. rewrite andb_false_r. reflexivity.
Qed.

Lemma sub_scan_plus_cls p :
  forall a skip b,
    (skip <= length (while p a))%nat ->
    sub_scan (plus (Cls p)) [] skip b a = filter (nots p) a.
Proof.
  induction a as [|c a IH]; intros skip b Hskip.
  - simpl in Hskip. assert (skip = O) by lia. subst skip.
    cbn [sub_scan]. rewrite !rx_len_plus_cls. reflexivity.
  - destruct skip as [|n].
    + cbn [sub_scan]. rewrite !rx_len_plus_cls.
      cbn [while filter]. change (nots p c) with (negb (p c)).
      destruct (p c) eqn:Ec.
      * cbn [length negb app]. apply IH. lia.
      * cbn [negb app]. rewrite IH by (simpl; lia). reflexivity.
    + cbn [sub_scan filter]. change (nots p c) with (negb (p c)).
      simpl in Hskip.
      destruct (p c) eqn:Ec; [|simpl in Hskip; lia].
      cbn [negb]. apply IH. simpl in Hskip. lia.
Qed.

Lemma sub_plus_cls p s : sub (plus (Cls p)) "" s = filter (nots p) s.
Proof. apply sub_scan_plus_cls. lia. Qed.

Lemma search_plus_cls_none p s :
  search (plus (Cls p)) s = None <-> existsb p s = false.
Proof.
  rewrite search_none_iff. split.
  - intros H. induction s as [|c s IH]; [reflexivity|].
    simpl. destruct (p c) eqn:Ec.
    + specialize (H [] (c :: s) eq_refl). rewrite rx_len_plus_cls in H.
      simpl in H. rewrite Ec in H. discriminate.
    + simpl. apply IH. intros x y E.
      specialize (H (c :: x) y). rewrite rx_len_plus_cls in *.
      apply H. rewrite E. reflexivity.
  - intros H x y E. rewrite rx_len_plus_cls.
    destruct y as [|c y]; [reflexivity|]. simpl.
    destruct (p c) eqn:Ec; [|reflexivity].
    subst s. rewrite existsb_app in H. simpl in H. rewrite Ec in H.
    rewrite orb_true_r in H. discriminate.
Qed.

End SearchFacts.

(** Slices within bounds. *)
Lemma clip_in_range len i : (0 <= i <= len)%Z -> clip len i = i.
Proof.
  intros H. unfold clip. destruct (Z.ltb_spec i 0); lia.
Qed.

Lemma replaceSubstring_in_range (s r : str) (start stop : Z) :
  (0 <= start <= stop)%Z -> (stop <= Z.of_nat (length s))%Z ->
  replaceSubstring s r (start, stop)
  = firstn (Z.to_nat start) s ++ r ++ skipn (Z.to_nat stop) s.
Proof.
  intros H1 H2. unfold replaceSubstring, slice, slice_from. cbn [fst snd].
  rewrite !clip_in_range by lia. cbn [Z.to_nat skipn].
  rewrite Nat.sub_0_r. reflexivity.
Qed.

Module ScanFacts.
Import ReFacts SubFacts SearchFacts.

Lemma rx_len_cls p adv b a :
  rx_len (Cls p) adv b a =
  match a with
  | c :: _ => if p c then Some 1%nat else None
  | [] => None
  end.
Proof.
  unfold rx_len. rewrite rx_cls. destruct a as [|c a]; [reflexivity|].
  destruct (p c); [|reflexivity]. unfold accept. cbn [length].
  replace (S (length a) - length a)%nat with 1%nat by lia.
  rewrite andb_false_r. reflexivity.
Qed.

(** Replacing single characters is a character-wise map. *)
Lemma sub_scan_cls p repl :
  forall a b,
    sub_scan (Cls p) repl 0 b a = flat_map (fun x => if p x then repl else [x]) a.
Proof.
  induction a as [|c a IH]; intros b; cbn [sub_scan flat_map];
    rewrite !rx_len_cls; [reflexivity|].
  destruct (p c); rewrite IH; reflexivity.
Qed.

Lemma sub_cls p repl s :
  sub (Cls p) repl s = flat_map (fun x => if p x then utf8 repl else [x]) s.
Proof. apply sub_scan_cls. Qed.

Lemma search_cls_none p s : search (Cls p) s = None <-> existsb p s = false.
Proof.
  rewrite search_none_iff. split.
  - intros H. induction s as [|c s IH]; [reflexivity|].
    simpl. destruct (p c) eqn:Ec.
    + specialize (H [] (c :: s) eq_refl). rewrite rx_len_cls, Ec in H. discriminate.
    + simpl. apply IH. intros x y E. apply (H (c :: x) y). rewrite E. reflexivity.
  - intros H x y E. rewrite rx_len_cls. destruct y as [|c y]; [reflexivity|].
    destruct (p c) eqn:Ec; [|reflexivity].
    subst s. rewrite existsb_app in H. simpl in H. rewrite Ec in H.
    rewrite orb_true_r in H. discriminate.
Qed.

(** The first match found by [re.search]. *)
Lemma search_from_first r :
  forall p b t,
    (forall x y, p = x ++ y -> y <> [] ->
                 rx_len r false (rev x ++ b) (y ++ t) = None) ->
    forall n, rx_len r false (rev p ++ b) t = Some n ->
              search_from r false b (p ++ t) = Some (length p, n).
Proof.
  induction p as [|c p IH]; intros b t Hmiss n Hhit.
  - cbn [app]. destruct t; cbn [search_from]; cbn [rev app] in Hhit;
      rewrite Hhit; reflexivity.
  - cbn [app search_from].
    pose proof (Hmiss [] (c :: p) eq_refl ltac:(discriminate)) as E0.
    cbn [rev app] in E0. rewrite E0.
    rewrite (IH (c :: b) t) with (n := n).
    + reflexivity.
    + intros x y E Hy. specialize (Hmiss (c :: x) y).
      cbn [rev] in Hmiss. rewrite <- app_assoc in Hmiss.
      apply Hmiss; [rewrite E; reflexivity | exact Hy].
    + cbn [rev] in Hhit. rewrite <- app_assoc in Hhit. exact Hhit.
Qed.

Lemma search_first r p t n :
  (forall x y, p = x ++ y -> y <> [] -> rx_len r false (rev x) (y ++ t) = None) ->
  rx_len r false (rev p) t = Some n ->
  search r (p ++ t) = Some (Z.of_nat (length p), Z.of_nat (length p + n)).
Proof.
  intros Hmiss Hhit. unfold search.
  rewrite (@search_from_first r p [] t) with (n := n).
  - reflexivity.
  - intros x y E Hy. rewrite app_nil_r. apply Hmiss; assumption.
  - rewrite app_nil_r. exact Hhit.
Qed.

(** Slices of a line cut at a token. *)
Lemma slice_prefix (p t : str) : slice (p ++ t) 0 (Z.of_nat (length p)) = p.
Proof.
  unfold slice. rewrite !clip_in_range by (rewrite length_app; lia).
  cbn [Z.to_nat skipn]. rewrite Nat2Z.id, Nat.sub_0_r.
  rewrite firstn_app, firstn_all, Nat.sub_diag. cbn [firstn]. apply app_nil_r.
Qed.

Lemma slice_middle (p t rest : str) :
  slice (p ++ t ++ rest) (Z.of_nat (length p)) (Z.of_nat (length p + length t)) = t.
Proof.
  unfold slice. rewrite !clip_in_range by (rewrite !length_app; lia).
  rewrite !Nat2Z.id. rewrite skipn_app, skipn_all, Nat.sub_diag. cbn [skipn app].
  replace (length p + length t - length p)%nat with (length t) by lia.
  rewrite firstn_app, firstn_all, Nat.sub_diag. cbn [firstn]. apply app_nil_r.
Qed.

Lemma slice_from_suffix (p rest : str) :
  slice_from (p ++ rest) (Z.of_nat (length p)) = rest.
Proof.
  unfold slice_from. rewrite clip_in_range by (rewrite length_app; lia).
  rewrite Nat2Z.id, skipn_app, skipn_all, Nat.sub_diag. reflexivity.
Qed.

Lemma replaceSubstring_token (p t rest new : str) :
  replaceSubstring (p ++ t ++ rest) new
                   (Z.of_nat (length p), Z.of_nat (length p + length t))
  = p ++ new ++ rest.
Proof.
  unfold replaceSubstring. cbn [fst snd]. rewrite slice_prefix.
  replace (p ++ t ++ rest) with ((p ++ t) ++ rest) by (symmetry; apply app_assoc).
  rewrite <- length_app, slice_from_suffix. reflexivity.
Qed.

Lemma group_token (p t rest : str) :
  group (p ++ t ++ rest) (Z.of_nat (length p), Z.of_nat (length p + length t)) = t.
Proof. apply slice_middle. Qed.

(** The scan of a line either finds nothing, or stops first at a token
    [t] after a prefix [p] without match. *)
Lemma iter_scan_first r :
  proper r ->
  forall a pos b,
    (iter_scan r 0 pos b a = [] /\
     forall x y, a = x ++ y -> rx_len r false (rev x ++ b) y = None)
    \/
    (exists p t rest,
        a = p ++ t ++ rest /\ t <> [] /\
        (forall x y, p = x ++ y -> y <> [] ->
                     rx_len r false (rev x ++ b) (y ++ t ++ rest) = None) /\
        rx_len r false (rev p ++ b) (t ++ rest) = Some (length t) /\
        iter_scan r 0 pos b a
        = (pos + Z.of_nat (length p), pos + Z.of_nat (length p + length t))%Z
            :: iter_scan r 0 (pos + Z.of_nat (length p + length t))
                         (rev t ++ rev p ++ b) rest).
Proof.
  intros Hr. induction a as [|c a IH]; intros pos b.
  - left. destruct (rx_len r false b []) as [n|] eqn:E.
    + apply Hr in E. simpl in E. lia.
    + split; [apply iter_scan_miss_end; exact E|].
      intros x y Exy. symmetry in Exy. apply app_eq_nil in Exy.
      destruct Exy; subst. exact E.
  - destruct (rx_len r false b (c :: a)) as [n|] eqn:E.
    + right. pose proof (Hr _ _ _ _ E) as Hn.
      destruct n as [|n]; [lia|]. simpl in Hn.
      exists [], (c :: firstn n a), (skipn n a).
      assert (Ea : c :: a = c :: firstn n a ++ skipn n a)
        by (rewrite firstn_skipn; reflexivity).
      assert (Hl : length (firstn n a) = n) by (apply firstn_length_le; lia).
      repeat split.
      * exact Ea.
      * discriminate.
      * intros x y Exy Hy. symmetry in Exy. apply app_eq_nil in Exy.
        destruct Exy; contradiction.
      * cbn [rev app length]. rewrite firstn_skipn, Hl. exact E.
      * rewrite Ea at 1. rewrite iter_scan_hit
          by (rewrite firstn_skipn, Hl; exact E).
        cbn [length rev app]. rewrite Hl. rewrite !Z.add_0_r.
        replace (0 + S n)%nat with (S n) by lia.
        reflexivity.
    + rewrite iter_scan_miss by exact E.
      destruct (IH (pos + 1)%Z (c :: b)) as [[E0 Hnone]|(p & t & rest & Ea & Ht & Hmiss & Hhit & Es)].
      * left. split; [exact E0|]. intros x y Exy.
        destruct x as [|d x].
        -- simpl in Exy. subst y. exact E.
        -- simpl in Exy. injection Exy as <- ->.
           cbn [rev]. rewrite <- app_assoc. apply Hnone. reflexivity.
      * right. exists (c :: p), t, rest. repeat split.
        -- rewrite Ea. reflexivity.
        -- exact Ht.
        -- intros x y Exy Hy. destruct x as [|d x].
           ++ simpl in Exy. subst y. cbn [rev app]. rewrite <- Ea. exact E.
           ++ simpl in Exy. injection Exy as <- ->.
              cbn [rev]. rewrite <- app_assoc. apply Hmiss; [reflexivity|exact Hy].
        -- cbn [rev]. rewrite <- app_assoc. exact Hhit.
        -- rewrite Es. cbn [length rev]. rewrite <- !app_assoc. cbn [app].
           f_equal; [f_equal; lia|]. f_equal. lia.
Qed.

End ScanFacts.

(** * Properties of the passes *)

Lemma run_bind A B (sv : services) (m : ext A) (f : A -> ext B) :
  run sv (bind m f) =
  match run sv m with
  | Some x => run sv (f x)
  | None => None
  end.
Proof.
  induction m as [x| |n k IH|s mode k IH|w lang k IH]; simpl; auto.
Qed.

Lemma run_for_each A B (sv : services) (body : A -> ext (list B)) (P : B -> Prop) :
  (forall x ys, run sv (body x) = Some ys -> Forall P ys) ->
  forall xs zs, run sv (for_each xs body) = Some zs -> Forall P zs.
Proof.
  intros Hbody. induction xs as [|x xs IH]; intros zs H; simpl in H.
  - inversion H. constructor.
  - rewrite run_bind in H. destruct (run sv (body x)) as [ys|] eqn:Ey; [|discriminate].
    rewrite run_bind in H.
    destruct (run sv (for_each xs body)) as [zs'|] eqn:Ez; [|discriminate].
    inversion H; subst. apply Forall_app. split; eauto.
Qed.

Lemma removeNonHangul_filter line :
  removeNonHangul line = filter korean_or_space line.
Proof.
  unfold removeNonHangul. rewrite SubFacts.sub_star_cls.
  apply filter_ext. intros c. unfold nots, korean_or_space.
  apply negb_involutive.
Qed.

Lemma removeNonHangul_clean line :
  Forall (fun c => korean_or_space c = true) (removeNonHangul line).
Proof.
  rewrite removeNonHangul_filter. apply Forall_forall.
  intros c Hc. apply filter_In in Hc. tauto.
Qed.

Section NormalizeFacts.
Variable decimal : Z -> option Z.
Variable isalnum : Z -> bool.
Variable sv : services.

Lemma normalize_line_stripped line out :
  run sv (normalize_line decimal isalnum line) = Some out ->
  exists l, out = removeNonHangul l.
Proof.
  unfold normalize_line. cbv zeta.
  repeat (rewrite run_bind;
          match goal with
          | |- context [run sv ?m] =>
            lazymatch m with
            | Ret _ => fail
            | _ => destruct (run sv m); [|discriminate]
            end
          end).
  simpl. intros H. inversion H. eexists. reflexivity.
Qed.

Lemma normalize_kept (P : str -> Prop) corpus body :
  (forall l, isspace (removeNonHangul l) = false ->
             removeNonHangul l <> [] -> P (removeNonHangul l)) ->
  run sv (normalize decimal isalnum corpus) = Some body ->
  Forall P body.
Proof.
  intros HP. unfold normalize. apply run_for_each.
  intros line ys H. rewrite run_bind in H.
  destruct (run sv (normalize_line decimal isalnum line)) as [out|] eqn:E;
    [|discriminate].
  apply normalize_line_stripped in E. destruct E as [l ->].
  simpl in H. inversion H; subst; clear H.
  destruct (isspace (removeNonHangul l)) eqn:Es; simpl; [constructor|].
  destruct (removeNonHangul l) eqn:El; [constructor|].
  constructor; [|constructor]. rewrite <- El. apply HP.
  - rewrite El. exact Es.
  - rewrite El. discriminate.
Qed.

End NormalizeFacts.

Lemma not_isspace_nonblank s : isspace s = false -> s <> [] -> nonblank s.
Proof.
  intros Hs Hne. split; [exact Hne|].
  destruct s as [|c s]; [contradiction|].
  unfold isspace in Hs. apply Exists_exists.
  destruct (forallb_forall is_space (c :: s)) as [_ Hall].
  destruct (existsb (fun x => negb (is_space x)) (c :: s)) eqn:E.
  - apply existsb_exists in E. destruct E as [x [Hin Hx]].
    exists x. split; [exact Hin|]. destruct (is_space x); [discriminate|reflexivity].
  - rewrite Hall in Hs; [discriminate|].
    intros x Hin. destruct (is_space x) eqn:Ex; [reflexivity|].
    assert (existsb (fun x => negb (is_space x)) (c :: s) = true).
    { apply existsb_exists. exists x. rewrite Ex. auto. }
    congruence.
Qed.

Module CharFacts.

Lemma hangul_spec c : hangul c = true <-> (44032 <= c <= 55203)%Z.
Proof.
  unfold hangul, rng, in_range.
  change (chr "가") with 44032%Z. change (chr "힣") with 55203%Z.
  rewrite andb_true_iff, !Z.leb_le. tauto.
Qed.

Lemma latin_spec c :
  latin c = true <-> ((65 <= c <= 90) \/ (97 <= c <= 122))%Z.
Proof.
  unfold latin, upper, lower, rng, in_range.
  change (chr "A") with 65%Z. change (chr "Z") with 90%Z.
  change (chr "a") with 97%Z. change (chr "z") with 122%Z.
  rewrite orb_true_iff, !andb_true_iff, !Z.leb_le. tauto.
Qed.

Lemma hangul_not_latin c : hangul c = true -> latin c = false.
Proof.
  intros H. apply hangul_spec in H.
  destruct (latin c) eqn:E; [|reflexivity].
  apply latin_spec in E. lia.
Qed.

End CharFacts.

Module HanjaFacts.
Import ReFacts SubFacts SearchFacts.

Lemma adjacent_split p q s :
  adjacent p q s = true ->
  exists x u d y, s = x ++ u :: d :: y /\ p u = true /\ q d = true.
Proof.
  induction s as [|c s IH]; simpl; [discriminate|].
  intros H. apply orb_true_iff in H. destruct H as [H|H].
  - apply andb_true_iff in H. destruct H as [Hp Hq].
    destruct s as [|d s]; [discriminate|].
    exists [], c, d, s. auto.
  - destruct (IH H) as (x & u & d & y & E & Hp & Hq).
    exists (c :: x), u, d, y. subst s. auto.
Qed.

Lemma adjacent_app p q x u d y :
  p u = true -> q d = true -> adjacent p q (x ++ u :: d :: y) = true.
Proof.
  intros Hp Hq. induction x as [|c x IH]; simpl.
  - rewrite Hp, Hq. reflexivity.
  - rewrite IH. apply orb_true_r.
Qed.

Lemma rx_plus_cls_accept q a0 b y :
  rx (plus (Cls q)) (accept false a0) b y = None ->
  match y with d :: _ => q d = false | [] => True end.
Proof.
  rewrite rx_plus_cls. destruct y as [|d y]; [trivial|].
  destruct (q d); [|reflexivity].
  intros H. exfalso.
  erewrite rx_star_cls_greedy in H; [discriminate|].
  unfold accept. simpl. reflexivity.
Qed.

Lemma rx_len_pair p q b a :
  rx_len (Seq (plus (Cls p)) (plus (Cls q))) false b a = None <->
  (forall x u d y, a = x ++ u :: d :: y -> forallb p x = true ->
                   p u = true -> q d = false).
Proof.
  unfold rx_len. rewrite rx_seq, rx_plus_cls.
  destruct a as [|c a].
  - split; [|reflexivity]. intros _ x u d y E. destruct x; discriminate.
  - destruct (p c) eqn:Ec.
    + rewrite rx_star_cls_none. split.
      * intros H x u d y E Hx Hu.
        destruct (q d) eqn:Ed; [|reflexivity]. exfalso.
        destruct x as [|c' x].
        -- simpl in E. injection E as -> ->.
           specialize (H [] (d :: y) eq_refl eq_refl).
           apply rx_plus_cls_accept in H. congruence.
        -- simpl in E. injection E as -> ->. simpl in Hx.
           apply andb_true_iff in Hx. destruct Hx as [_ Hx].
           specialize (H (x ++ [u]) (d :: y)).
           rewrite <- app_assoc in H. specialize (H eq_refl).
           rewrite forallb_app in H. simpl in H. rewrite Hx, Hu in H.
           specialize (H eq_refl).
           apply rx_plus_cls_accept in H. congruence.
      * intros H x y E Hx. rewrite rx_plus_cls.
        destruct y as [|d y]; [reflexivity|].
        replace (q d) with false; [reflexivity|]. symmetry.
        destruct (rev (c :: x)) as [|u x'] eqn:Er.
        { apply (f_equal (@length Z)) in Er. rewrite length_rev in Er. discriminate. }
        apply (H (rev x') u d y).
        -- assert (E2 : c :: x = rev x' ++ [u]).
           { rewrite <- (rev_involutive (c :: x)), Er. reflexivity. }
           rewrite E. change (c :: x ++ d :: y) with ((c :: x) ++ d :: y).
           rewrite E2, <- app_assoc. reflexivity.
        -- assert (Hall : forallb p (rev (c :: x)) = true).
           { apply forallb_forall. intros z Hz. apply in_rev in Hz.
             destruct Hz as [<-|Hz]; [exact Ec|].
             apply (proj1 (forallb_forall p x) Hx z Hz). }
           rewrite Er in Hall. simpl in Hall.
           apply andb_true_iff in Hall. destruct Hall as [_ Hall].
           apply forallb_forall. intros z Hz. apply in_rev in Hz.
           apply (proj1 (forallb_forall p x') Hall z Hz).
        -- assert (Hall : forallb p (rev (c :: x)) = true).
           { apply forallb_forall. intros z Hz. apply in_rev in Hz.
             destruct Hz as [<-|Hz]; [exact Ec|].
             apply (proj1 (forallb_forall p x) Hx z Hz). }
           rewrite Er in Hall. simpl in Hall.
           apply andb_true_iff in Hall. tauto.
    + split; [|reflexivity]. intros _ x u d y E Hx Hu.
      destruct x as [|c' x]; simpl in E; injection E as -> ->.
      * congruence.
      * simpl in Hx. rewrite Ec in Hx. discriminate.
Qed.

Lemma search_pair_none p q s :
  search (Seq (plus (Cls p)) (plus (Cls q))) s = None <-> adjacent p q s = false.
Proof.
  rewrite search_none_iff. split.
  - intros H. destruct (adjacent p q s) eqn:E; [|reflexivity]. exfalso.
    apply adjacent_split in E. destruct E as (x & u & d & y & E & Hp & Hq).
    specialize (H x (u :: d :: y) E).
    rewrite rx_len_pair in H.
    specialize (H [] u d y eq_refl eq_refl Hp). congruence.
  - intros H x y E. apply rx_len_pair. intros x' u d y' E' _ Hu.
    destruct (q d) eqn:Ed; [|reflexivity].
    subst s y. rewrite app_assoc in H.
    rewrite adjacent_app in H by assumption. discriminate.
Qed.

End HanjaFacts.

Module GluedFacts.
Import ReFacts SubFacts SearchFacts CharFacts HanjaFacts.

Lemma rx_len_glued_miss b a :
  match b, a with
  | h :: _, d :: _ => hangul h && latin d = false
  | _, _ => True
  end ->
  rx_len glued_latin_re false b a = None.
Proof.
  intros H. unfold rx_len, glued_latin_re. cbn [seqs].
  rewrite rx_seq, rx_behind. cbn [rev app behind].
  destruct b as [|h b]; [reflexivity|].
  rewrite andb_true_r. destruct (hangul h) eqn:Eh; [|reflexivity].
  rewrite rx_seq, rx_plus_cls. destruct a as [|d a]; [reflexivity|].
  simpl in H. rewrite H. reflexivity.
Qed.

Lemma rx_len_glued_hit h b c w t :
  hangul h = true -> latin c = true -> forallb latin w = true ->
  (t = [] \/ exists w2, t = 32%Z :: w2 /\ forallb latin w2 = true) ->
  rx_len glued_latin_re false (h :: b) (c :: w ++ t) = Some (S (length (w ++ t))).
Proof.
  intros Hh Hc Hw Ht. unfold rx_len, glued_latin_re. cbn [seqs].
  rewrite rx_seq, rx_behind. cbn [rev app behind]. rewrite Hh. cbn [andb].
  rewrite rx_seq, rx_plus_cls, Hc.
  apply rx_star_cls_greedy.
  assert (Hstop : match t with d :: _ => latin d = false | [] => True end).
  { destruct Ht as [->|[w2 [-> _]]]; [exact I | reflexivity]. }
  destruct (while_app_stop latin w t Hw Hstop) as [-> ->].
  rewrite rx_seq. change (lit " ") with (Cls (Z.eqb 32)).
  rewrite rx_opt_cls.
  destruct Ht as [->|[w2 [-> Hw2]]].
  - rewrite rx_star_cls. unfold accept. cbn [length andb].
    rewrite Nat.sub_0_r. reflexivity.
  - cbn [Z.eqb Pos.eqb].
    erewrite rx_star_cls_greedy; [reflexivity|].
    destruct (while_app_stop latin w2 [] Hw2 I) as [E1 E2].
    rewrite app_nil_r in E1, E2. rewrite E1, E2.
    unfold accept. cbn [length andb]. rewrite Nat.sub_0_r. reflexivity.
Qed.

Lemma sub_scan_glued_korean k :
  forallb hangul k = true ->
  forall b rest,
    sub_scan glued_latin_re [] 0 b (k ++ rest)
    = k ++ sub_scan glued_latin_re [] 0 (rev k ++ b) rest.
Proof.
  intros Hk. induction k as [|c k IH]; intros b rest; [reflexivity|].
  simpl in Hk. apply andb_true_iff in Hk. destruct Hk as [Hc Hk].
  cbn [app]. rewrite sub_scan_miss.
  - cbn [rev]. rewrite <- app_assoc. cbn [app]. f_equal. apply IH. exact Hk.
  - apply rx_len_glued_miss. destruct b as [|h b]; [exact I|].
    rewrite (hangul_not_latin c Hc). apply andb_false_r.
Qed.

Lemma rev_last_hangul k :
  k <> [] -> forallb hangul k = true ->
  exists h b, rev k = h :: b /\ hangul h = true.
Proof.
  intros Hne Hk. destruct (rev k) as [|h b] eqn:E.
  - apply (f_equal (@length Z)) in E. rewrite length_rev in E.
    destruct k; [contradiction|discriminate].
  - exists h, b. split; [reflexivity|].
    apply (proj1 (forallb_forall hangul k) Hk). apply in_rev. rewrite E. left. reflexivity.
Qed.

Lemma sub_glued_annotation k c w t :
  k <> [] -> forallb hangul k = true ->
  latin c = true -> forallb latin w = true ->
  (t = [] \/ exists w2, t = 32%Z :: w2 /\ forallb latin w2 = true) ->
  sub glued_latin_re "" (k ++ c :: w ++ t) = k.
Proof.
  intros Hne Hk Hc Hw Ht. unfold sub, sub_str. change (utf8 "") with (@nil Z).
  rewrite sub_scan_glued_korean by exact Hk.
  destruct (rev_last_hangul Hne Hk) as (h & b & E & Hh).
  rewrite app_nil_r, E.
  rewrite <- (app_nil_r (w ++ t)) at 1. rewrite app_comm_cons.
  replace ((c :: w ++ t) ++ []) with (c :: (w ++ t) ++ []) by reflexivity.
  rewrite sub_scan_hit.
  - cbn [app]. rewrite sub_scan_miss_end; [apply app_nil_r|].
    apply rx_len_glued_miss.
    destruct (rev (c :: w ++ t) ++ h :: b); exact I.
  - rewrite app_nil_r. apply rx_len_glued_hit; assumption.
Qed.

Lemma sub_glued_unchanged line :
  adjacent hangul latin line = false -> sub glued_latin_re "" line = line.
Proof.
  intros H. apply sub_scan_no_match. intros x y E. rewrite app_nil_r.
  apply rx_len_glued_miss.
  destruct (rev x) as [|h b] eqn:Er; [exact I|].
  destruct y as [|d y]; [exact I|].
  destruct (hangul h) eqn:Eh; [|reflexivity].
  destruct (latin d) eqn:Ed; [|reflexivity]. exfalso.
  assert (Ex : x = rev b ++ [h]).
  { rewrite <- (rev_involutive x), Er. reflexivity. }
  subst x line. rewrite <- app_assoc in H. cbn [app] in H.
  rewrite adjacent_app in H by assumption. discriminate.
Qed.

End GluedFacts.


Section NumberFacts.
Import ReFacts SubFacts SearchFacts ScanFacts.

Variable decimal : Z -> option Z.
Hypothesis decimal_ascii :
  forall c, (0 <= c < 128)%Z -> decimal c = ascii_decimal c.

Local Notation "'dig'" := (digit decimal) (only parsing).
Local Notation "'num_re'" := (number_re decimal) (only parsing).

Lemma digit_ascii c : (0 <= c < 128)%Z -> dig c = in_range 48 57 c.
Proof.
  intros H. unfold digit. rewrite (decimal_ascii H).
  unfold ascii_decimal. destruct (in_range 48 57 c); reflexivity.
Qed.

Lemma sign_not_digit c : one_of "+-" c = true -> dig c = false.
Proof.
  intros H. unfold one_of in H. cbn in H.
  apply orb_true_iff in H. destruct H as [H|H].
  - apply Z.eqb_eq in H. subst c. rewrite digit_ascii by lia. reflexivity.
  - rewrite orb_false_r in H. apply Z.eqb_eq in H. subst c.
    rewrite digit_ascii by lia. reflexivity.
Qed.

Lemma dot_not_digit : dig 46 = false.
Proof. rewrite digit_ascii by lia. reflexivity. Qed.

Lemma number_end_shorter a e :
  number_end dig a = Some e -> (length e < length a)%nat.
Proof.
  destruct a as [|c a1]; [discriminate|]. cbn [number_end].
  destruct (dig c); [|discriminate]. intros H. injection H as <-.
  pose proof (after_length dig a1) as L1.
  destruct (after dig a1) as [|c2 t2] eqn:E; cbn [length] in *; [lia|].
  destruct (c2 =? 46)%Z.
  - pose proof (after_length dig t2). lia.
  - cbn [length]. lia.
Qed.

(** The digits-period-digits part of the pattern. *)
Lemma rx_number_body adv a0 b a :
  (length a <= length a0)%nat ->
  rx (seqs [plus (Cls dig); opt (lit "."); star (Cls dig)]) (accept adv a0) b a
  = option_map (fun e => (length a0 - length e)%nat) (number_end dig a).
Proof.
  intros Hlen. cbn [seqs]. rewrite rx_seq, rx_plus_cls.
  destruct a as [|c a1]; [reflexivity|]. cbn [number_end].
  destruct (dig c) eqn:Ec; [|reflexivity].
  assert (Hacc : forall b' e, (length e < length a0)%nat ->
                              accept adv a0 b' e = Some (length a0 - length e)%nat).
  { intros b' e He. unfold accept.
    destruct (Nat.eqb_spec (length a0 - length e) 0); [lia|].
    rewrite andb_false_r. reflexivity. }
  cbn [length] in Hlen. pose proof (after_length dig a1) as L1.
  apply rx_star_cls_greedy. rewrite rx_seq.
  change (lit ".") with (Cls (Z.eqb 46)). rewrite rx_opt_cls.
  destruct (after dig a1) as [|c2 t2] eqn:E.
  - rewrite rx_star_cls. cbn [option_map]. apply Hacc. cbn [length]. lia.
  - cbn [length] in L1. rewrite (Z.eqb_sym 46 c2).
    destruct (c2 =? 46)%Z eqn:E2.
    + pose proof (after_length dig t2) as L2.
      erewrite rx_star_cls_greedy; [reflexivity|].
      cbn [option_map]. apply Hacc. lia.
    + pose proof (after_head dig a1) as Hh. rewrite E in Hh.
      rewrite rx_star_cls, Hh. cbn [option_map]. apply Hacc. cbn [length]. lia.
Qed.

(** Length of a numeric token at the head of [a]. *)
Lemma rx_len_number adv b a :
  rx_len num_re adv b a
  = option_map (fun e => (length a - length e)%nat) (token_end dig a).
Proof.
  unfold rx_len, number_re.
  change (seqs [opt (Cls (one_of "+-")); plus (Cls dig); opt (lit "."); star (Cls dig)])
    with (Seq (opt (Cls (one_of "+-")))
              (seqs [plus (Cls dig); opt (lit "."); star (Cls dig)])).
  rewrite rx_seq, rx_opt_cls.
  destruct a as [|c a']; [apply rx_number_body; lia|].
  cbn [token_end]. destruct (one_of "+-" c) eqn:Es.
  - rewrite (rx_number_body adv (c :: a') (c :: b) a') by (simpl; lia).
    destruct (number_end dig a') as [e|] eqn:E; [reflexivity|].
    cbn [option_map orelse]. apply rx_number_body. lia.
  - apply rx_number_body. lia.
Qed.

Lemma token_end_shorter a e :
  token_end dig a = Some e -> (length e < length a)%nat.
Proof.
  destruct a as [|c a']; [discriminate|]. cbn [token_end].
  destruct (one_of "+-" c).
  - destruct (number_end dig a') as [e'|] eqn:E.
    + intros H. injection H as <-. apply number_end_shorter in E. simpl. lia.
    + apply number_end_shorter.
  - apply number_end_shorter.
Qed.

Lemma number_re_proper : proper num_re.
Proof.
  intros adv b a n H. rewrite rx_len_number in H.
  destruct (token_end dig a) as [e|] eqn:E; [|discriminate].
  apply token_end_shorter in E. injection H as <-. lia.
Qed.

Lemma while_all p (x : str) : forallb p (while p x) = true.
Proof.
  induction x as [|c x IH]; simpl; [reflexivity|].
  destruct (p c) eqn:E; simpl; [rewrite E, IH|]; reflexivity.
Qed.

(** Shape of a number at the head of [a]: digits, then either nothing
    (and no period follows) or a period and digits. *)
Lemma number_end_inv a e :
  number_end dig a = Some e ->
  exists ds dt,
    a = ds ++ dt ++ e /\ ds <> [] /\ forallb dig ds = true /\
    ((dt = [] /\ match e with c :: _ => c <> 46%Z | [] => True end)
     \/ exists fs, dt = 46%Z :: fs /\ forallb dig fs = true) /\
    no_digit_head dig e.
Proof.
  destruct a as [|c a1]; [discriminate|]. cbn [number_end].
  destruct (dig c) eqn:Ec; [|discriminate]. intros H. injection H as <-.
  pose proof (while_after dig a1) as Ea. pose proof (after_head dig a1) as Hh.
  pose proof (while_all dig a1) as Hw.
  exists (c :: while dig a1).
  destruct (after dig a1) as [|c2 t2] eqn:E.
  - exists []. repeat split.
    + cbn [app]. rewrite Ea. reflexivity.
    + discriminate.
    + simpl. rewrite Ec. exact Hw.
    + left. auto.
  - destruct (Z.eqb_spec c2 46) as [->|Hne].
    + exists (46%Z :: while dig t2). repeat split.
      * cbn [app]. rewrite (while_after dig t2). rewrite Ea. reflexivity.
      * discriminate.
      * simpl. rewrite Ec. exact Hw.
      * right. exists (while dig t2). split; [reflexivity|apply while_all].
      * exact (after_head dig t2).
    + exists []. repeat split.
      * cbn [app]. rewrite Ea. reflexivity.
      * discriminate.
      * simpl. rewrite Ec. exact Hw.
      * left. auto.
      * exact Hh.
Qed.

Lemma token_end_inv a e :
  token_end dig a = Some e ->
  exists sg ds dt,
    a = sg ++ ds ++ dt ++ e /\
    forallb (one_of "+-") sg = true /\ (length sg <= 1)%nat /\
    ds <> [] /\ forallb dig ds = true /\
    ((dt = [] /\ match e with c :: _ => c <> 46%Z | [] => True end)
     \/ exists fs, dt = 46%Z :: fs /\ forallb dig fs = true) /\
    no_digit_head dig e.
Proof.
  destruct a as [|c a']; [discriminate|]. cbn [token_end].
  destruct (one_of "+-" c) eqn:Es.
  - destruct (number_end dig a') as [e'|] eqn:E.
    + intros H. injection H as <-.
      destruct (number_end_inv _ E) as (ds & dt & Ea & H1 & H2 & H3 & H4).
      exists [c], ds, dt. repeat split; auto.
      * rewrite Ea. reflexivity.
      * simpl. rewrite Es. reflexivity.
    + cbn [number_end]. rewrite (sign_not_digit _ Es). discriminate.
  - intros H.
    destruct (number_end_inv _ H) as (ds & dt & Ea & H1 & H2 & H3 & H4).
    exists [], ds, dt. repeat split; auto.
Qed.

(** No token starts inside a digit-free prefix followed by a non-digit. *)
Lemma token_end_digit_free c p rest :
  dig c = false -> forallb (nots dig) p = true -> no_digit_head dig rest ->
  token_end dig (c :: p ++ rest) = None.
Proof.
  intros Hc Hp Hrest. cbn [token_end number_end]. rewrite Hc.
  assert (Hn : number_end dig (p ++ rest) = None).
  { destruct p as [|d p]; cbn [app].
    - destruct rest as [|d rest]; [reflexivity|]. cbn [number_end].
      simpl in Hrest. rewrite Hrest. reflexivity.
    - simpl in Hp. apply andb_true_iff in Hp. destruct Hp as [Hd _].
      unfold nots in Hd. cbn [number_end].
      destruct (dig d); [discriminate|reflexivity]. }
  rewrite Hn. destruct (one_of "+-" c); reflexivity.
Qed.

Lemma iter_scan_digit_free p :
  forallb (nots dig) p = true ->
  forall pos b rest,
    no_digit_head dig rest ->
    iter_scan num_re 0 pos b (p ++ rest)
    = iter_scan num_re 0 (pos + Z.of_nat (length p)) (rev p ++ b) rest.
Proof.
  induction p as [|c p IH]; intros Hp pos b rest Hrest.
  - cbn [app length rev]. rewrite Z.add_0_r. reflexivity.
  - simpl in Hp. apply andb_true_iff in Hp. destruct Hp as [Hc Hp].
    cbn [app]. rewrite iter_scan_miss.
    + rewrite IH by assumption. cbn [rev length]. rewrite <- app_assoc.
      f_equal. lia.
    + rewrite rx_len_number, token_end_digit_free; auto.
      unfold nots in Hc. destruct (dig c); [discriminate|reflexivity].
Qed.

(** The number of tokens only depends on the text still to be scanned. *)
Lemma iter_scan_number_length :
  forall a skip pos b pos' b',
    length (iter_scan num_re skip pos b a)
    = length (iter_scan num_re skip pos' b' a).
Proof.
  induction a as [|c a IH]; intros skip pos b pos' b'.
  - destruct skip; cbn [iter_scan]; [|reflexivity].
    rewrite !rx_len_number. reflexivity.
  - destruct skip as [|k]; cbn [iter_scan]; [|apply IH].
    rewrite !rx_len_number.
    match goal with
    | |- context [option_map ?f ?x] => destruct (option_map f x) as [[|n]|]
    end; cbn [length]; auto.
Qed.

Lemma int_digits_some ds :
  forallb dig ds = true -> exists n, int_digits decimal ds = Some n.
Proof.
  unfold int_digits. generalize 0%Z.
  induction ds as [|c ds IH]; intros acc H; simpl.
  - eauto.
  - simpl in H. apply andb_true_iff in H. destruct H as [Hc H].
    unfold digit in Hc. destruct (decimal c) as [d|]; [|discriminate].
    apply IH. exact H.
Qed.

Lemma py_int_digits ds :
  ds <> [] -> forallb dig ds = true ->
  exists n, int_digits decimal ds = Some n /\ py_int decimal ds = Ret n.
Proof.
  intros Hne H. destruct (int_digits_some _ H) as [n E].
  exists n. split; [exact E|]. unfold py_int. rewrite E.
  destruct ds; [contradiction|reflexivity].
Qed.

Lemma sign_digit_free sg :
  forallb (one_of "+-") sg = true -> forallb (nots dig) sg = true.
Proof.
  intros H. apply forallb_forall. intros c Hc.
  apply (proj1 (forallb_forall _ sg) H) in Hc.
  unfold nots. rewrite (sign_not_digit _ Hc). reflexivity.
Qed.

(** The first digit run of a token. *)
Lemma search_digits sg ds tl :
  forallb (nots dig) sg = true -> ds <> [] -> forallb dig ds = true ->
  no_digit_head dig tl ->
  search (plus (Cls dig)) (sg ++ ds ++ tl)
  = Some (Z.of_nat (length sg), Z.of_nat (length sg + length ds)).
Proof.
  intros Hsg Hne Hds Htl. apply search_first.
  - intros x y E Hy. rewrite rx_len_plus_cls.
    destruct y as [|c y]; [contradiction|]. cbn [app while].
    assert (Hc : nots dig c = true).
    { apply (proj1 (forallb_forall _ sg) Hsg). subst sg.
      apply in_or_app. right. left. reflexivity. }
    unfold nots in Hc. destruct (dig c); [discriminate|reflexivity].
  - rewrite rx_len_plus_cls.
    destruct (@while_app_stop dig ds tl Hds Htl) as [-> _].
    destruct ds; [contradiction|reflexivity].
Qed.

Lemma sub_scan_prefix_miss r repl p :
  forall b t,
    (forall x y, p = x ++ y -> y <> [] ->
                 rx_len r false (rev x ++ b) (y ++ t) = None) ->
    sub_scan r repl 0 b (p ++ t) = p ++ sub_scan r repl 0 (rev p ++ b) t.
Proof.
  induction p as [|c p IH]; intros b t H; [reflexivity|].
  cbn [app]. rewrite sub_scan_miss.
  - cbn [rev]. rewrite <- app_assoc. cbn [app]. f_equal. apply IH.
    intros x y E Hy. specialize (H (c :: x) y). cbn [rev] in H.
    rewrite <- app_assoc in H. apply H; [rewrite E; reflexivity|exact Hy].
  - apply (H [] (c :: p)); [reflexivity|discriminate].
Qed.

Lemma digit_free_split (p x y : str) c :
  forallb (nots dig) p = true -> p = x ++ c :: y -> dig c = false.
Proof.
  intros Hp E. assert (Hc : nots dig c = true).
  { apply (proj1 (forallb_forall _ p) Hp). subst p.
    apply in_or_app. right. left. reflexivity. }
  unfold nots in Hc. destruct (dig c); [discriminate|reflexivity].
Qed.

(** Integer tokens: the digit run is replaced by its reading. *)
Lemma sub_digits_int sg ds w :
  forallb (nots dig) sg = true -> ds <> [] -> forallb dig ds = true ->
  sub_str (plus (Cls dig)) w (sg ++ ds) = sg ++ w.
Proof.
  intros Hsg Hne Hds. unfold sub_str.
  rewrite sub_scan_prefix_miss.
  - f_equal. destruct ds as [|c ds]; [contradiction|].
    rewrite <- (app_nil_r ds) at 1. rewrite sub_scan_hit.
    + rewrite sub_scan_miss_end; [apply app_nil_r|].
      rewrite rx_len_plus_cls. reflexivity.
    + rewrite rx_len_plus_cls, app_nil_r.
      destruct (@while_app_stop dig (c :: ds) [] Hds I) as [E _].
      rewrite app_nil_r in E. rewrite E. reflexivity.
  - intros x y E Hy. rewrite rx_len_plus_cls.
    destruct y as [|c y]; [contradiction|]. cbn [app while].
    rewrite (@digit_free_split _ _ _ _ Hsg E). reflexivity.
Qed.

Lemma rx_len_int_part_hit b ds fs :
  ds <> [] -> forallb dig ds = true ->
  rx_len (int_part dig) false b (ds ++ 46%Z :: fs) = Some (length ds).
Proof.
  intros Hne Hds. unfold rx_len, int_part. rewrite rx_seq, rx_plus_cls.
  destruct ds as [|c ds]; [contradiction|]. cbn [app].
  simpl in Hds. apply andb_true_iff in Hds. destruct Hds as [Hc Hds].
  rewrite Hc. apply rx_star_cls_greedy.
  destruct (@while_app_stop dig ds (46%Z :: fs) Hds dot_not_digit) as [-> ->].
  rewrite rx_ahead. change (lit ".") with (Cls (Z.eqb 46)).
  rewrite rx_cls. cbn [Z.eqb Pos.eqb]. unfold accept.
  cbn [length]. rewrite length_app. cbn [length].
  replace (S (length ds + S (length fs)) - S (length fs))%nat
    with (S (length ds)) by lia.
  reflexivity.
Qed.

Lemma rx_len_int_part_miss b a :
  (forall x c y, a = x ++ c :: y -> forallb dig x = true -> x <> [] -> c <> 46%Z) ->
  rx_len (int_part dig) false b a = None.
Proof.
  intros H. unfold rx_len, int_part. rewrite rx_seq, rx_plus_cls.
  destruct a as [|c a]; [reflexivity|].
  destruct (dig c) eqn:Ec; [|reflexivity].
  apply rx_star_cls_none. intros x y E Hx.
  rewrite rx_ahead. change (lit ".") with (Cls (Z.eqb 46)). rewrite rx_cls.
  destruct y as [|d y]; [reflexivity|].
  rewrite (Z.eqb_sym 46 d).
  destruct (Z.eqb_spec d 46) as [->|Hne]; [|reflexivity].
  exfalso. apply (H (c :: x) 46%Z y).
  - rewrite E. reflexivity.
  - simpl. rewrite Ec. exact Hx.
  - discriminate.
  - reflexivity.
Qed.

Lemma search_int_part sg ds fs :
  forallb (nots dig) sg = true -> ds <> [] -> forallb dig ds = true ->
  search (int_part dig) (sg ++ ds ++ 46%Z :: fs)
  = Some (Z.of_nat (length sg), Z.of_nat (length sg + length ds)).
Proof.
  intros Hsg Hne Hds. apply search_first.
  - intros x y E Hy. destruct y as [|c y]; [contradiction|].
    unfold rx_len, int_part. rewrite rx_seq, rx_plus_cls. cbn [app].
    rewrite (@digit_free_split _ _ _ _ Hsg E). reflexivity.
  - apply rx_len_int_part_hit; assumption.
Qed.

Lemma sub_int_part sg ds fs w :
  forallb (nots dig) sg = true -> ds <> [] -> forallb dig ds = true ->
  forallb dig fs = true ->
  sub_str (int_part dig) w (sg ++ ds ++ 46%Z :: fs) = sg ++ w ++ 46%Z :: fs.
Proof.
  intros Hsg Hne Hds Hfs. unfold sub_str.
  rewrite sub_scan_prefix_miss.
  - f_equal. destruct ds as [|c ds]; [contradiction|]. cbn [app].
    rewrite sub_scan_hit by (apply (@rx_len_int_part_hit _ (c :: ds)); assumption).
    f_equal. apply sub_scan_no_match. intros x y E.
    apply rx_len_int_part_miss.
    intros x' d y' E' Hx' Hne' ->.
    (* a period inside [46 :: fs] preceded by a digit run *)
    destruct x' as [|e x']; [contradiction|]. simpl in Hx'.
    apply andb_true_iff in Hx'. destruct Hx' as [He Hx'].
    assert (Hin : In 46%Z fs).
    { destruct x as [|u x].
      - simpl in E. rewrite E' in E. injection E as <- _.
        rewrite dot_not_digit in He. discriminate.
      - simpl in E. injection E as _ ->. rewrite E'.
        apply in_or_app. right. apply in_or_app. right. left. reflexivity. }
    apply (proj1 (forallb_forall _ fs) Hfs) in Hin.
    rewrite dot_not_digit in Hin. discriminate.
  - intros x y E Hy. destruct y as [|c y]; [contradiction|].
    unfold rx_len, int_part. rewrite rx_seq, rx_plus_cls. cbn [app].
    rewrite (@digit_free_split _ _ _ _ Hsg E). reflexivity.
Qed.

(** The eleven substitutions of a floating number, character by character. *)
Lemma read_float_digits_char c : read_float_digits [c] = float_char c.
Proof.
  unfold read_float_digits, float_char.
  repeat match goal with
         | |- context [sub (lit ?l) ?r ?x] =>
           change (sub (lit l) r x) with (sub (Cls (Z.eqb (chr l))) r x);
           rewrite (sub_cls (Z.eqb (chr l)) r x)
         end.
  repeat match goal with
         | |- context [(c =? chr ?l)%Z] =>
           let k := eval cbv in (chr l) in
           change (chr l) with k;
           destruct (Z.eqb_spec c k) as [->|?]; [vm_compute; reflexivity|]
         end.
  cbn [flat_map app].
  repeat match goal with
         | H : c <> ?k |- context [(?k =? c)%Z] =>
           rewrite (proj2 (Z.eqb_neq k c)) by lia;
           cbn [flat_map app]
         end.
  reflexivity.
Qed.

Lemma read_float_digits_app x y :
  read_float_digits (x ++ y) = read_float_digits x ++ read_float_digits y.
Proof.
  unfold read_float_digits.
  repeat match goal with
         | |- context [sub (lit ?l) ?r ?x] =>
           change (sub (lit l) r x) with (sub (Cls (Z.eqb (chr l))) r x);
           rewrite (sub_cls (Z.eqb (chr l)) r x)
         end.
  rewrite !flat_map_app. reflexivity.
Qed.

Lemma read_float_digits_map s : read_float_digits s = flat_map float_char s.
Proof.
  induction s as [|c s IH]; [reflexivity|].
  change (c :: s) with ([c] ++ s). rewrite read_float_digits_app, IH.
  rewrite read_float_digits_char. reflexivity.
Qed.

Hypothesis decimal_hangul : forall c, hangul c = true -> decimal c = None.
Variable sv : services.

Lemma hangul_not_digit c : hangul c = true -> dig c = false.
Proof. intros H. unfold digit. rewrite (decimal_hangul _ H). reflexivity. Qed.

Lemma float_char_digit_free c :
  (dig c = true -> in_range 48 57 c = true) ->
  forallb (nots dig) (float_char c) = true.
Proof.
  intros H. unfold float_char.
  repeat match goal with
         | |- context [(c =? chr ?l)%Z] =>
           let k := eval cbv in (chr l) in
           change (chr l) with k;
           destruct (Z.eqb_spec c k) as [->|?];
           [cbn; unfold nots; rewrite hangul_not_digit; reflexivity|]
         end.
  cbn. unfold nots. destruct (dig c) eqn:E; [|reflexivity].
  specialize (H eq_refl). unfold in_range in H.
  apply andb_true_iff in H. rewrite !Z.leb_le in H. lia.
Qed.

Lemma float_digit_free s :
  ascii_digits dig s -> forallb (nots dig) (flat_map float_char s) = true.
Proof.
  induction s as [|c s IH]; intros H; [reflexivity|].
  cbn [flat_map]. rewrite forallb_app. apply andb_true_iff. split.
  - apply float_char_digit_free. apply H. left. reflexivity.
  - apply IH. intros d Hd. apply H. right. exact Hd.
Qed.

Lemma sub_template_plain r w s :
  no_backslash w = true -> sub_template r w s = Ret (sub_str r w s).
Proof.
  unfold no_backslash, sub_template. intros H.
  destruct (existsb (Z.eqb 92) w); [discriminate|reflexivity].
Qed.

Lemma no_dot_in sg ds :
  forallb (one_of "+-") sg = true -> forallb dig ds = true ->
  existsb (Z.eqb 46) (sg ++ ds) = false.
Proof.
  intros Hsg Hds. destruct (existsb (Z.eqb 46) (sg ++ ds)) eqn:E; [|reflexivity].
  apply existsb_exists in E. destruct E as [c [Hin Hc]].
  apply Z.eqb_eq in Hc. subst c. apply in_app_or in Hin. destruct Hin as [Hin|Hin].
  - apply (proj1 (forallb_forall _ sg) Hsg) in Hin. discriminate.
  - apply (proj1 (forallb_forall _ ds) Hds) in Hin.
    rewrite dot_not_digit in Hin. discriminate.
Qed.

(** [Case 1]: an integer token keeps its sign and reads its digits. *)
Lemma run_read_token_int sg ds n :
  forallb (one_of "+-") sg = true -> ds <> [] -> forallb dig ds = true ->
  int_digits decimal ds = Some n ->
  no_backslash (number_word sv n) = true ->
  run sv (read_token decimal (sg ++ ds)) = Some (sg ++ number_word sv n).
Proof.
  intros Hsg Hne Hds Hn Hw. unfold read_token.
  change (lit ".") with (Cls (Z.eqb 46)).
  rewrite (proj2 (search_cls_none (Z.eqb 46) (sg ++ ds)) (@no_dot_in sg ds Hsg Hds)).
  pose proof (@sign_digit_free sg Hsg) as Hsg'.
  unfold search_group.
  pose proof (@search_digits sg ds [] Hsg' Hne Hds I) as E1.
  pose proof (group_token sg ds []) as E2.
  rewrite app_nil_r in E1, E2. rewrite E1.
  cbn [option_map of_option bind]. rewrite E2.
  unfold py_int. rewrite Hn. destruct ds as [|c ds]; [contradiction|].
  cbn [of_option bind run].
  rewrite sub_template_plain by exact Hw. cbn [run].
  rewrite sub_digits_int; auto.
Qed.

(** [Case 2]: a floating token reads its integer part and then spells
    the period and the remaining digits one by one. *)
Lemma run_read_token_float sg ds fs n :
  forallb (one_of "+-") sg = true -> ds <> [] -> forallb dig ds = true ->
  forallb dig fs = true ->
  int_digits decimal ds = Some n ->
  no_backslash (number_word sv n) = true ->
  run sv (read_token decimal (sg ++ ds ++ 46%Z :: fs))
  = Some (flat_map float_char (sg ++ number_word sv n ++ 46%Z :: fs)).
Proof.
  intros Hsg Hne Hds Hfs Hn Hw. unfold read_token.
  change (lit ".") with (Cls (Z.eqb 46)).
  destruct (search (Cls (Z.eqb 46)) (sg ++ ds ++ 46%Z :: fs)) eqn:Es.
  - pose proof (@sign_digit_free sg Hsg) as Hsg'.
    unfold search_group.
    change (Seq (plus (Cls dig)) (Ahead (Cls (Z.eqb 46)))) with (int_part dig).
    rewrite (@search_int_part sg ds fs Hsg' Hne Hds).
    cbn [option_map of_option bind]. rewrite group_token.
    unfold py_int. rewrite Hn. destruct ds as [|c ds]; [contradiction|].
    cbn [of_option bind run].
    rewrite sub_template_plain by exact Hw. cbn [bind run].
    rewrite sub_int_part by (auto; discriminate).
    rewrite read_float_digits_map. reflexivity.
  - apply search_cls_none in Es. rewrite !existsb_app in Es.
    cbn [existsb Z.eqb Pos.eqb] in Es.
    rewrite orb_true_l, !orb_true_r in Es. discriminate.
Qed.






Hypothesis reader_plain :
  forall n, forallb (nots dig) (number_word sv n) = true
            /\ no_backslash (number_word sv n) = true.

Lemma app_inj_length (x x' y y' : str) :
  length x = length x' -> x ++ y = x' ++ y' -> x = x' /\ y = y'.
Proof.
  revert x'. induction x as [|c x IH]; intros [|c' x'] Hl E;
    try discriminate; [auto|].
  simpl in Hl, E. injection E as -> E. injection Hl as Hl.
  destruct (IH x' Hl E) as [-> ->]. auto.
Qed.

Lemma digit_free_ascii s : forallb (nots dig) s = true -> ascii_digits dig s.
Proof.
  intros H c Hc Hd. apply (proj1 (forallb_forall _ s) H) in Hc.
  unfold nots in Hc. rewrite Hd in Hc. discriminate.
Qed.




Lemma miss_not_digit b c a :
  rx_len num_re false b (c :: a) = None -> dig c = false.
Proof.
  rewrite rx_len_number. intros H. destruct (dig c) eqn:Ec; [|reflexivity].
  exfalso. cbn [token_end number_end] in H. rewrite Ec in H.
  destruct (one_of "+-" c); [destruct (number_end dig a)|]; discriminate.
Qed.



(** *** Lines with digits outside ASCII *)

Local Notation "'cnt' a" := (length (iter_scan num_re 0 0%Z [] a))
  (at level 10, a at level 9, only parsing).

Lemma cnt_any a pos b : length (iter_scan num_re 0 pos b a) = cnt a.
Proof. apply iter_scan_number_length. Qed.

Ltac norm_cnt :=
  repeat match goal with
         | |- context [length (iter_scan ?r 0 ?pos ?b ?a)] =>
           lazymatch pos with
           | 0%Z => lazymatch b with
                    | [] => fail
                    | _ => rewrite (iter_scan_number_length a 0 pos b 0%Z [])
                    end
           | _ => rewrite (iter_scan_number_length a 0 pos b 0%Z [])
           end
         end.

Lemma cnt_nil : cnt [] = 0%nat.
Proof.
  rewrite iter_scan_miss_end by (rewrite rx_len_number; reflexivity). reflexivity.
Qed.

Lemma cnt_miss c a : token_end dig (c :: a) = None -> cnt (c :: a) = cnt a.
Proof.
  intros H. rewrite iter_scan_miss by (rewrite rx_len_number, H; reflexivity).
  apply cnt_any.
Qed.

Lemma cnt_hit a e : token_end dig a = Some e -> cnt a = S (cnt e).
Proof.
  intros H.
  destruct (token_end_inv _ H) as (sg & ds & dt & Ea & _ & _ & Hne & _).
  pose proof (token_end_shorter _ H) as Hsh.
  assert (Et : exists c x, a = c :: x ++ e).
  { destruct (sg ++ ds ++ dt) as [|c x] eqn:E.
    - apply (f_equal (@length Z)) in E. rewrite !length_app in E.
      destruct ds; [contradiction|simpl in E; lia].
    - exists c, x. rewrite Ea, !app_assoc, <- (app_assoc sg), E. reflexivity. }
  destruct Et as (c & x & ->).
  rewrite iter_scan_hit.
  - cbn [length]. f_equal. apply cnt_any.
  - rewrite rx_len_number, H. cbn [option_map length]. f_equal.
    rewrite length_app. lia.
Qed.

Lemma digit_not_sign c : dig c = true -> one_of "+-" c = false.
Proof.
  intros H. destruct (one_of "+-" c) eqn:E; [|reflexivity].
  rewrite (sign_not_digit _ E) in H. discriminate.
Qed.

Lemma token_end_digit_head c d y :
  dig c = true -> dig d = true ->
  token_end dig (c :: d :: y) = token_end dig (d :: y).
Proof.
  intros Hc Hd. cbn [token_end number_end after].
  rewrite (digit_not_sign _ Hc), (digit_not_sign _ Hd), Hc, Hd. reflexivity.
Qed.

(** A digit run in front of a text that does not start with a digit. *)
Lemma token_end_run D y :
  D <> [] -> forallb dig D = true -> no_digit_head dig y ->
  token_end dig (D ++ y)
  = Some match y with
         | c2 :: t2 => if (c2 =? 46)%Z then after dig t2 else y
         | [] => []
         end.
Proof.
  intros Hne HD Hy. destruct D as [|c D]; [contradiction|].
  simpl in HD. apply andb_true_iff in HD. destruct HD as [Hc HD].
  cbn [app token_end number_end]. rewrite (digit_not_sign _ Hc), Hc.
  destruct (@while_app_stop dig D y HD Hy) as [_ ->]. reflexivity.
Qed.

Lemma cnt_dot y : cnt (46%Z :: y) = cnt y.
Proof.
  apply cnt_miss. cbn [token_end number_end]. rewrite dot_not_digit. reflexivity.
Qed.

(** Putting digits in front of a text never lowers its number of tokens. *)
Lemma cnt_run_le :
  forall n y,
    (length y <= n)%nat -> no_digit_head dig y ->
    forall D, D <> [] -> forallb dig D = true ->
              (cnt y <= cnt (D ++ y))%nat.
Proof.
  induction n as [|n IH]; intros y Hn Hy D Hne HD.
  - destruct y; [rewrite cnt_nil; lia|simpl in Hn; lia].
  - assert (HB : forall z, (length z <= n)%nat -> (cnt (after dig z) <= cnt z)%nat).
    { intros z Hz. destruct (while dig z) as [|c run] eqn:E.
      - pose proof (while_after dig z) as Ez. rewrite E in Ez. cbn [app] in Ez.
        rewrite Ez. lia.
      - rewrite <- (while_after dig z) at 2.
        apply IH.
        + pose proof (after_length dig z). lia.
        + exact (after_head dig z).
        + rewrite E. discriminate.
        + apply while_all. }
    rewrite (@cnt_hit (D ++ y) _ (@token_end_run D y Hne HD Hy)).
    destruct y as [|x y']; [rewrite cnt_nil; lia|].
    destruct (Z.eqb_spec x 46) as [->|Hx]; [|lia].
    rewrite cnt_dot. simpl in Hn.
    (* the text after the period: a digit run [D'] and a rest *)
    destruct (while dig y') as [|c run] eqn:E.
    + pose proof (while_after dig y') as Ez. rewrite E in Ez. cbn [app] in Ez.
      rewrite Ez. lia.
    + rewrite <- (while_after dig y') at 1.
      assert (Hrun : forallb dig (while dig y') = true) by apply while_all.
      rewrite (cnt_hit _ (@token_end_run (while dig y') (after dig y')
                            ltac:(rewrite E; discriminate) Hrun (after_head dig y'))).
      apply le_n_S.
      pose proof (after_length dig y') as L3.
      destruct (after dig y') as [|x3 y4]; [lia|].
      destruct (Z.eqb_spec x3 46) as [->|Hx3]; [|lia].
      rewrite cnt_dot. apply HB. simpl in L3. lia.
Qed.

(** Characters that are digits or can neither start nor continue a token. *)
Definition digit_or_inert (c : Z) : bool := dig c || negb (one_of "+-" c).

Lemma cnt_mixed_le F :
  forallb digit_or_inert F = true ->
  forall y, no_digit_head dig y -> (cnt y <= cnt (F ++ y))%nat.
Proof.
  induction F as [|c F IH]; intros HF y Hy; [cbn [app]; lia|].
  simpl in HF. apply andb_true_iff in HF. destruct HF as [Hc HF].
  specialize (IH HF y Hy). cbn [app].
  destruct (dig c) eqn:Ec.
  - destruct (F ++ y) as [|d z] eqn:E.
    + rewrite cnt_nil in *. lia.
    + destruct (dig d) eqn:Ed.
      * assert (Hsome : exists e, token_end dig (d :: z) = Some e).
        { cbn [token_end number_end]. rewrite (digit_not_sign _ Ed), Ed. eauto. }
        destruct Hsome as [e He].
        rewrite (cnt_hit _ He) in IH.
        rewrite (@cnt_hit (c :: d :: z) e)
          by (rewrite token_end_digit_head by assumption; exact He).
        exact IH.
      * etransitivity; [exact IH|].
        apply (@cnt_run_le (length (d :: z)) (d :: z) (le_n _) Ed [c]).
        -- discriminate.
        -- simpl. rewrite Ec. reflexivity.
  - unfold digit_or_inert in Hc. rewrite Ec in Hc. cbn [orb] in Hc.
    rewrite cnt_miss; [exact IH|].
    cbn [token_end number_end]. rewrite Ec.
    destruct (one_of "+-" c); [discriminate|reflexivity].
Qed.

(** No token starts in a digit-free text whose last character is not a
    sign, whatever follows. *)
Lemma iter_scan_inert p :
  forallb (nots dig) p = true ->
  forall pos b y,
    no_digit_head dig y \/ one_of "+-" (last p 0%Z) = false ->
    iter_scan num_re 0 pos b (p ++ y)
    = iter_scan num_re 0 (pos + Z.of_nat (length p)) (rev p ++ b) y.
Proof.
  induction p as [|c p IH]; intros Hp pos b y Hy.
  - cbn [app length rev]. rewrite Z.add_0_r. reflexivity.
  - simpl in Hp. apply andb_true_iff in Hp. destruct Hp as [Hc Hp].
    unfold nots in Hc. destruct (dig c) eqn:Ec; [discriminate|].
    cbn [app]. rewrite iter_scan_miss.
    + rewrite IH; [|exact Hp|].
      * cbn [rev length]. rewrite <- app_assoc. f_equal. lia.
      * destruct Hy as [Hy|Hy]; [left; exact Hy|].
        destruct p as [|d p]; [right; reflexivity|right; exact Hy].
    + rewrite rx_len_number. cbn [token_end number_end]. rewrite Ec.
      destruct p as [|d p].
      * cbn [app]. destruct Hy as [Hy|Hy].
        -- destruct y as [|d y]; [destruct (one_of "+-" c); reflexivity|].
           cbn [number_end]. simpl in Hy. rewrite Hy.
           destruct (one_of "+-" c); reflexivity.
        -- cbn [last] in Hy. rewrite Hy. reflexivity.
      * simpl in Hp. apply andb_true_iff in Hp. destruct Hp as [Hd _].
        unfold nots in Hd. cbn [app number_end].
        destruct (dig d); [discriminate|].
        destruct (one_of "+-" c); reflexivity.
Qed.

Lemma float_char_mixed c : dig c = true -> forallb digit_or_inert (float_char c) = true.
Proof.
  intros Hc. unfold float_char.
  repeat match goal with
         | |- context [(c =? chr ?l)%Z] =>
           let k := eval cbv in (chr l) in
           change (chr l) with k;
           destruct (Z.eqb_spec c k) as [->|?];
           [cbn; unfold digit_or_inert; rewrite hangul_not_digit by reflexivity;
            reflexivity|]
         end.
  cbn. unfold digit_or_inert. rewrite Hc. reflexivity.
Qed.

Lemma float_mixed fs :
  forallb dig fs = true -> forallb digit_or_inert (flat_map float_char fs) = true.
Proof.
  induction fs as [|c fs IH]; intros H; [reflexivity|].
  simpl in H. apply andb_true_iff in H. destruct H as [Hc H].
  cbn [flat_map]. rewrite forallb_app, float_char_mixed, IH; auto.
Qed.

Lemma float_char_free c : dig c = false -> forallb (nots dig) (float_char c) = true.
Proof.
  intros H. apply float_char_digit_free. rewrite H. discriminate.
Qed.

Lemma float_free s :
  forallb (nots dig) s = true -> forallb (nots dig) (flat_map float_char s) = true.
Proof.
  intros H. apply float_digit_free. apply digit_free_ascii. exact H.
Qed.

(** One iteration on any line: the first token is rewritten and at most
    one token is lost. *)
Lemma take_first_number_any line prev :
  finditer num_re line <> [] ->
  exists line' tok,
    run sv (take_first num_re (line, prev) (read_token decimal))
    = Some (line', Some tok)
    /\ (length (finditer num_re line) <= S (length (finditer num_re line')))%nat.
Proof.
  intros Hsome. unfold finditer in *.
  destruct (@iter_scan_first num_re number_re_proper line 0%Z [])
    as [[E0 _]|(p & t & rest & Ea & Ht & Hmiss & Hhit & Es)];
    [contradiction|].
  rewrite app_nil_r in Hhit.
  pose proof Hhit as He. rewrite rx_len_number in He.
  destruct (token_end dig (t ++ rest)) as [e|] eqn:Ee; [|discriminate].
  destruct (token_end_inv _ Ee)
    as (sg & ds & dt & Ea' & Hsg & _ & Hne & Hds & Hdt & Hrest).
  pose proof (token_end_shorter _ Ee) as Hsh.
  cbn [option_map] in He. injection He as He.
  assert (E2 : t = sg ++ ds ++ dt /\ rest = e).
  { apply app_inj_length; [|rewrite Ea', <- !app_assoc; reflexivity].
    apply (f_equal (@length Z)) in Ea'. rewrite !length_app in *. lia. }
  destruct E2 as [Et <-].
  assert (Hp : forallb (nots dig) p = true).
  { apply forallb_forall. intros c Hc. apply in_split in Hc.
    destruct Hc as (x & y & Ep). unfold nots.
    rewrite (@miss_not_digit (rev x ++ []) c (y ++ t ++ rest)); [reflexivity|].
    apply (Hmiss x (c :: y)); [exact Ep|discriminate]. }
  destruct (int_digits_some _ Hds) as [n Hn].
  destruct (reader_plain n) as [Hw1 Hw2].
  pose proof (@sign_digit_free sg Hsg) as Hsg'.
  assert (Hstep : forall new,
             run sv (read_token decimal t) = Some new ->
             run sv (take_first num_re (p ++ t ++ rest, prev) (read_token decimal))
             = Some (p ++ new ++ rest, Some new)).
  { intros new Hrun. unfold take_first, finditer. rewrite <- Ea, Es. cbn [map].
    rewrite !Z.add_0_l, Ea, group_token.
    cbn [of_option bind]. rewrite run_bind, Hrun.
    rewrite replaceSubstring_token. reflexivity. }
  subst line. rewrite Es. cbn [length].
  destruct Hdt as [[-> _]|[fs [-> Hfs]]].
  - rewrite app_nil_r in Et. subst t.
    exists (p ++ (sg ++ number_word sv n) ++ rest), (sg ++ number_word sv n).
    split.
    + apply Hstep. apply run_read_token_int; assumption.
    + apply le_n_S.
      replace (p ++ (sg ++ number_word sv n) ++ rest)
        with ((p ++ sg ++ number_word sv n) ++ rest)
        by (rewrite <- !app_assoc; reflexivity).
      rewrite (@iter_scan_inert (p ++ sg ++ number_word sv n)).
      * norm_cnt. lia.
      * rewrite !forallb_app, Hp, Hsg', Hw1. reflexivity.
      * left. exact Hrest.
  - subst t.
    set (new := flat_map float_char (sg ++ number_word sv n ++ 46%Z :: fs)).
    exists (p ++ new ++ rest), new. split.
    + apply Hstep. apply run_read_token_float; assumption.
    + apply le_n_S.
      assert (En : new = (flat_map float_char (sg ++ number_word sv n) ++ [51216%Z])
                           ++ flat_map float_char fs).
      { unfold new. rewrite app_assoc, flat_map_app. cbn [flat_map].
        change (float_char 46) with [51216%Z]. rewrite <- !app_assoc. reflexivity. }
      rewrite En.
      replace (p ++ ((flat_map float_char (sg ++ number_word sv n) ++ [51216%Z])
                       ++ flat_map float_char fs) ++ rest)
        with ((p ++ flat_map float_char (sg ++ number_word sv n) ++ [51216%Z])
                ++ flat_map float_char fs ++ rest)
        by (rewrite <- !app_assoc; reflexivity).
      rewrite (@iter_scan_inert
                 (p ++ flat_map float_char (sg ++ number_word sv n) ++ [51216%Z])).
      * norm_cnt. apply cnt_mixed_le; [apply float_mixed; exact Hfs|exact Hrest].
      * rewrite !forallb_app, Hp. cbn [andb].
        rewrite float_free by (rewrite forallb_app, Hsg', Hw1; reflexivity).
        cbn [forallb]. unfold nots. rewrite hangul_not_digit by reflexivity.
        reflexivity.
      * right. rewrite !app_assoc. rewrite last_last. reflexivity.
Qed.

Lemma for_range_number_any :
  forall k line prev,
    (k <= length (finditer num_re line))%nat ->
    exists line' prev',
      run sv (for_range k (fun st => take_first num_re st (read_token decimal))
                        (line, prev))
      = Some (line', prev')
      /\ (length (finditer num_re line) <= length (finditer num_re line') + k)%nat.
Proof.
  induction k as [|k IH]; intros line prev Hk.
  - exists line, prev. cbn [for_range run]. split; [reflexivity|lia].
  - assert (Hsome : finditer num_re line <> []).
    { destruct (finditer num_re line); [simpl in Hk; lia|discriminate]. }
    destruct (@take_first_number_any line prev Hsome) as (l1 & tok & Hrun & Hc).
    destruct (IH l1 (Some tok)) as (l2 & prev' & Hrun2 & Hc2); [lia|].
    exists l2, prev'. cbn [for_range]. rewrite run_bind, Hrun, Hrun2.
    split; [reflexivity|lia].
Qed.

End NumberFacts.

Lemma readNumber_unfold decimal line :
  readNumber decimal line =
  if (0 <? tokens decimal line)%nat then
    st <- for_range (tokens decimal line) (readNumber_body decimal) (line, None) ;;
    Ret (fst st)
  else Ret line.
Proof.
  unfold readNumber, rescan_loop, tokens. rewrite length_map. reflexivity.
Qed.

Lemma toy_digits_hangul n : forallb hangul (toy_digits n) = true.
Proof.
  unfold toy_digits. generalize (Z.to_nat n). intros k.
  do 10 (destruct k as [|k]; [reflexivity|]). destruct k; reflexivity.
Qed.

Lemma toy_digits_plain decimal :
  (forall c, hangul c = true -> decimal c = None) ->
  forall n, forallb (nots (digit decimal)) (toy_digits n) = true
            /\ no_backslash (toy_digits n) = true.
Proof.
  intros Hh n. pose proof (toy_digits_hangul n) as H. split.
  - apply forallb_forall. intros c Hc.
    pose proof (proj1 (forallb_forall _ _) H c Hc) as Hc'.
    unfold nots, digit. rewrite (Hh c Hc'). reflexivity.
  - unfold no_backslash.
    destruct (existsb (Z.eqb 92) (toy_digits n)) eqn:E; [|reflexivity].
    apply existsb_exists in E. destruct E as [c [Hc Hb]].
    apply Z.eqb_eq in Hb. subst c.
    pose proof (proj1 (forallb_forall _ _) H _ Hc). discriminate.
Qed.

Lemma wide_decimal_ascii c : (0 <= c < 128)%Z -> wide_decimal c = ascii_decimal c.
Proof.
  intros H. unfold wide_decimal, ascii_decimal.
  destruct (in_range 48 57 c); [reflexivity|].
  unfold in_range. destruct (Z.leb_spec 65296 c); [lia|reflexivity].
Qed.

Lemma wide_decimal_hangul c : hangul c = true -> wide_decimal c = None.
Proof.
  intros H. apply CharFacts.hangul_spec in H. unfold wide_decimal, in_range.
  destruct (Z.leb_spec 48 c), (Z.leb_spec c 57), (Z.leb_spec 65296 c),
    (Z.leb_spec c 65305); simpl; try reflexivity; lia.
Qed.



Module SegmentFacts.
Import ReFacts SubFacts SearchFacts ScanFacts.

Lemma sub_scan_squash c :
  forall a b,
    sub_scan (plus (Cls (Z.eqb c))) [c] (length (while (Z.eqb c) a)) b a
    = squash c true a
    /\ sub_scan (plus (Cls (Z.eqb c))) [c] 0 b a = squash c false a.
Proof.
  induction a as [|x a IH]; intros b.
  - cbn [while length sub_scan squash]. rewrite rx_len_plus_cls. auto.
  - cbn [while squash]. rewrite (Z.eqb_sym x c).
    destruct (Z.eqb_spec c x) as [<-|Hne].
    + split.
      * cbn [length sub_scan]. apply IH.
      * cbn [sub_scan]. rewrite rx_len_plus_cls. cbn [while].
        rewrite Z.eqb_refl. cbn [length app]. f_equal. apply IH.
    + assert (E : sub_scan (plus (Cls (Z.eqb c))) [c] 0 b (x :: a)
                  = x :: squash c false a).
      { cbn [sub_scan]. rewrite rx_len_plus_cls. cbn [while].
        rewrite (proj2 (Z.eqb_neq c x) Hne). f_equal. apply IH. }
      split; [cbn [length]|]; exact E.
Qed.

(** The two context-sensitive replacements of the segmenter. *)
Lemma rx_len_break_after b a :
  rx_len break_after_re false b a
  = match a with
    | c :: _ => if sentence_end (hd 0%Z b) && one_of " ," c
                then Some 1%nat else None
    | [] => None
    end.
Proof.
  unfold rx_len, break_after_re. rewrite rx_seq, rx_behind. cbn [rev app behind].
  destruct b as [|u b]; cbn [hd].
  - destruct a; reflexivity.
  - rewrite andb_true_r. destruct (sentence_end u); [|destruct a; reflexivity].
    cbn [andb]. apply (rx_len_cls (one_of " ,") false (u :: b) a).
Qed.

Lemma sub_scan_break_after :
  forall a b, sub_scan break_after_re [10%Z] 0 b a = break_after (hd 0%Z b) a.
Proof.
  induction a as [|c a IH]; intros b; cbn [sub_scan break_after];
    rewrite !rx_len_break_after; [reflexivity|].
  destruct (sentence_end (hd 0%Z b) && one_of " ," c);
    cbn [app]; rewrite IH; reflexivity.
Qed.

Lemma rx_len_run_on b a :
  rx_len run_on_re false b a
  = match a with
    | c :: a' =>
      if hangul (hd 0%Z b) && sentence_end c
         && match a' with d :: _ => hangul d | [] => false end
      then Some 1%nat else None
    | [] => None
    end.
Proof.
  unfold rx_len, run_on_re. cbn [seqs]. rewrite rx_seq, rx_behind.
  cbn [rev app behind].
  destruct b as [|u b]; cbn [hd].
  - destruct a; reflexivity.
  - rewrite andb_true_r. destruct (hangul u); [|destruct a; reflexivity].
    cbn [andb]. rewrite rx_seq, rx_cls. destruct a as [|c a']; [reflexivity|].
    destruct (sentence_end c); [|reflexivity]. cbn [andb].
    rewrite rx_ahead, rx_cls. destruct a' as [|d a'']; [reflexivity|].
    destruct (hangul d); [|reflexivity].
    unfold accept. cbn [length].
    replace (S (S (length a'')) - S (length a''))%nat with 1%nat by lia.
    reflexivity.
Qed.

Lemma sub_scan_run_on :
  forall a b, sub_scan run_on_re [46%Z; 10%Z] 0 b a = run_on (hd 0%Z b) a.
Proof.
  induction a as [|c a IH]; intros b; cbn [sub_scan run_on];
    rewrite !rx_len_run_on; [reflexivity|].
  destruct (hangul (hd 0%Z b) && sentence_end c
            && match a with d :: _ => hangul d | [] => false end);
    cbn [app]; rewrite IH; reflexivity.
Qed.

Lemma adjacent_cons p q u s :
  adjacent p q (u :: s) = (p u && q_hd q s) || adjacent p q s.
Proof. reflexivity. Qed.

Lemma adjacent_tail p q u s :
  adjacent p q s = true -> adjacent p q (u :: s) = true.
Proof. intros H. rewrite adjacent_cons, H. apply orb_true_r. Qed.

Lemma adjacent_cons_false p q u s :
  adjacent p q (u :: s) = false ->
  p u && q_hd q s = false /\ adjacent p q s = false.
Proof. rewrite adjacent_cons. apply orb_false_iff. Qed.

(** *** Collapsing runs *)

Lemma squash_hd c q a : q_hd q (squash c false a) = q_hd q a.
Proof.
  destruct a as [|x a]; [reflexivity|]. cbn [squash].
  destruct (Z.eqb_spec x c) as [->|]; reflexivity.
Qed.

Lemma squash_adjacent p q c :
  forall a,
    (adjacent p q (squash c false a) = true -> adjacent p q a = true)
    /\ (adjacent p q (c :: squash c true a) = true ->
        adjacent p q (c :: a) = true).
Proof.
  induction a as [|x a [IH1 IH2]]; [split; auto|].
  assert (Hx : x <> c -> adjacent p q (x :: squash c false a) = true ->
               adjacent p q (x :: a) = true).
  { intros Hne H. rewrite adjacent_cons in *.
    rewrite (squash_hd c q a) in H.
    apply orb_true_iff in H. destruct H as [H|H].
    - rewrite H. reflexivity.
    - rewrite (IH1 H). apply orb_true_r. }
  cbn [squash]. destruct (Z.eqb_spec x c) as [->|Hne]; split.
  - exact IH2.
  - intros H. apply adjacent_tail. apply IH2. exact H.
  - apply Hx. exact Hne.
  - intros H. rewrite adjacent_cons in H. apply orb_true_iff in H.
    destruct H as [H|H].
    + rewrite adjacent_cons. cbn [q_hd] in *. rewrite H. reflexivity.
    + apply adjacent_tail. apply Hx; assumption.
Qed.

Lemma squash_done c :
  forall a,
    adjacent (Z.eqb c) (Z.eqb c) (squash c false a) = false
    /\ adjacent (Z.eqb c) (Z.eqb c) (c :: squash c true a) = false.
Proof.
  induction a as [|x a [IH1 IH2]]; [split; cbn; try rewrite andb_false_r; reflexivity|].
  cbn [squash]. destruct (Z.eqb_spec x c) as [->|Hne]; split.
  - exact IH2.
  - exact IH2.
  - rewrite adjacent_cons, IH1. rewrite (proj2 (Z.eqb_neq c x)) by auto. reflexivity.
  - rewrite adjacent_cons. cbn [q_hd]. rewrite (proj2 (Z.eqb_neq c x)) by auto.
    rewrite andb_false_r. cbn [orb].
    rewrite adjacent_cons, IH1. rewrite (proj2 (Z.eqb_neq c x)) by auto. reflexivity.
Qed.

Lemma squash_id c :
  forall a,
    (adjacent (Z.eqb c) (Z.eqb c) a = false -> squash c false a = a)
    /\ (adjacent (Z.eqb c) (Z.eqb c) (c :: a) = false -> squash c true a = a).
Proof.
  induction a as [|x a [IH1 IH2]]; [split; auto|].
  cbn [squash]. destruct (Z.eqb_spec x c) as [->|Hne]; split; intros H.
  - rewrite IH2; auto.
  - apply adjacent_cons_false in H. destruct H as [H _]. cbn [q_hd] in H.
    rewrite Z.eqb_refl in H. discriminate.
  - apply adjacent_cons_false in H. destruct H as [_ H]. rewrite IH1; auto.
  - apply adjacent_cons_false in H. destruct H as [_ H].
    apply adjacent_cons_false in H. destruct H as [_ H]. rewrite IH1; auto.
Qed.

Lemma squash_In c x : forall a f, In x (squash c f a) -> In x a.
Proof.
  induction a as [|y a IH]; intros f H; [exact H|].
  cbn [squash] in H. destruct (Z.eqb_spec y c) as [->|Hne].
  - destruct f.
    + right. apply (IH true H).
    + destruct H as [H|H]; [left; exact H | right; apply (IH true H)].
  - destruct H as [H|H]; [left; exact H | right; apply (IH false H)].
Qed.

(** *** Line feeds after sentence-final marks *)

Section Pairs.
Variables p q : Z -> bool.
Hypothesis p_lf : p 10%Z = false.
Hypothesis q_lf : q 10%Z = false.

Lemma break_after_adjacent :
  forall a prev u,
    adjacent p q (u :: break_after prev a) = true ->
    adjacent p q (u :: a) = true.
Proof.
  induction a as [|c a IH]; intros prev u H; [exact H|].
  cbn [break_after] in H. rewrite adjacent_cons in *. cbn [q_hd] in *.
  destruct (sentence_end prev && one_of " ," c).
  - rewrite q_lf, andb_false_r in H. cbn [orb] in H.
    rewrite adjacent_cons, p_lf in H. cbn [andb orb] in H.
    rewrite (IH c c); [apply orb_true_r|]. apply adjacent_tail. exact H.
  - apply orb_true_iff in H. destruct H as [H|H]; [rewrite H; reflexivity|].
    rewrite (IH c c H). apply orb_true_r.
Qed.

Hypothesis p_hangul : forall h, hangul h = true -> p h = false.

Lemma run_on_adjacent :
  forall a prev,
    adjacent p q (prev :: run_on prev a) = true ->
    adjacent p q (prev :: a) = true.
Proof.
  induction a as [|c a IH]; intros prev H; [exact H|].
  cbn [run_on] in H.
  destruct (hangul prev) eqn:Eh; cbn [andb] in H.
  - destruct (sentence_end c && q_hd hangul a) eqn:Ehit.
    + change (match a with d :: _ => hangul d | [] => false end)
        with (q_hd hangul a) in H. rewrite Ehit in H. cbn [app] in H.
      rewrite adjacent_cons, (p_hangul _ Eh) in H. cbn [andb orb] in H.
      rewrite adjacent_cons in H. cbn [q_hd] in H.
      rewrite q_lf, andb_false_r in H. cbn [orb] in H.
      rewrite adjacent_cons, p_lf in H. cbn [andb orb] in H.
      apply adjacent_tail, IH, adjacent_tail, H.
    + change (match a with d :: _ => hangul d | [] => false end)
        with (q_hd hangul a) in H. rewrite Ehit in H. cbn [app] in H.
      rewrite adjacent_cons in *. cbn [q_hd] in *.
      apply orb_true_iff in H. destruct H as [H|H]; [rewrite H; reflexivity|].
      rewrite (IH c H). apply orb_true_r.
  - cbn [app] in H. rewrite adjacent_cons in *. cbn [q_hd] in *.
    apply orb_true_iff in H. destruct H as [H|H]; [rewrite H; reflexivity|].
    rewrite (IH c H). apply orb_true_r.
Qed.

End Pairs.

Lemma sentence_end_lf : sentence_end 10%Z = false.
Proof. reflexivity. Qed.

Lemma break_after_done :
  forall a prev,
    adjacent sentence_end (one_of " ,") (prev :: break_after prev a) = false.
Proof.
  induction a as [|c a IH]; intros prev.
  - cbn [break_after]. rewrite adjacent_cons. cbn [q_hd adjacent].
    rewrite andb_false_r. reflexivity.
  - cbn [break_after]. rewrite adjacent_cons. cbn [q_hd].
    destruct (sentence_end prev && one_of " ," c) eqn:E.
    + change (one_of " ," 10%Z) with false. rewrite andb_false_r. cbn [orb].
      rewrite adjacent_cons. cbn [andb orb].
      specialize (IH c). apply adjacent_cons_false in IH. apply IH.
    + rewrite E. apply IH.
Qed.

Lemma break_after_id :
  forall a prev,
    adjacent sentence_end (one_of " ,") (prev :: a) = false ->
    break_after prev a = a.
Proof.
  induction a as [|c a IH]; intros prev H; [reflexivity|].
  apply adjacent_cons_false in H. destruct H as [H1 H2]. cbn [q_hd] in H1.
  cbn [break_after]. rewrite H1, IH; auto.
Qed.

Lemma break_after_In x : forall a prev, In x (break_after prev a) -> In x a \/ x = 10%Z.
Proof.
  induction a as [|c a IH]; intros prev H; [left; exact H|].
  cbn [break_after] in H. destruct H as [H|H].
  - destruct (sentence_end prev && one_of " ," c); [right|left; left]; auto.
  - destruct (IH c H); [left; right|right]; auto.
Qed.

(** *** Run-on sentences *)

Lemma triple_cons p q r u s :
  triple p q r (u :: s) = (p u && t2 q r s) || triple p q r s.
Proof. reflexivity. Qed.

Lemma t2_cons q r c s : t2 q r (c :: s) = q c && q_hd r s.
Proof. destruct s; [cbn; rewrite andb_false_r|]; reflexivity. Qed.

Lemma sentence_end_not_hangul c : sentence_end c = true -> hangul c = false.
Proof.
  intros H. destruct (hangul c) eqn:E; [|reflexivity].
  apply CharFacts.hangul_spec in E. unfold sentence_end, one_of in H.
  cbn in H. rewrite !orb_true_iff, !Z.eqb_eq in H. lia.
Qed.

Lemma run_on_hd c a :
  sentence_end c = true -> q_hd hangul (run_on c a) = q_hd hangul a.
Proof.
  intros H. destruct a as [|d a]; [reflexivity|]. cbn [run_on].
  rewrite (sentence_end_not_hangul _ H). reflexivity.
Qed.

Lemma run_on_done :
  forall a prev,
    triple hangul sentence_end hangul (prev :: run_on prev a) = false
    /\ triple hangul sentence_end hangul (10%Z :: run_on prev a) = false.
Proof.
  induction a as [|c a IH]; intros prev.
  - cbn. rewrite andb_false_r. auto.
  - destruct (IH c) as [IHa IHb]. cbn [run_on].
    change (match a with d :: _ => hangul d | [] => false end) with (q_hd hangul a).
    destruct (hangul prev && sentence_end c && q_hd hangul a) eqn:Ehit; cbn [app].
    + rewrite !triple_cons. cbn [t2].
      change (hangul 10%Z) with false. change (hangul 46%Z) with false.
      rewrite !andb_false_r. cbn [andb orb].
      rewrite triple_cons in IHb. cbn [andb orb] in IHb. auto.
    + split.
      * rewrite triple_cons, IHa, orb_false_r, t2_cons.
        destruct (sentence_end c) eqn:Es.
        -- rewrite run_on_hd by exact Es. rewrite andb_assoc. exact Ehit.
        -- apply andb_false_r.
      * rewrite triple_cons. cbn [andb orb]. exact IHa.
Qed.

Lemma run_on_id :
  forall a prev,
    triple hangul sentence_end hangul (prev :: a) = false -> run_on prev a = a.
Proof.
  induction a as [|c a IH]; intros prev H; [reflexivity|].
  rewrite triple_cons in H. apply orb_false_iff in H. destruct H as [H1 H2].
  rewrite t2_cons, andb_assoc in H1. cbn [run_on].
  change (match a with d :: _ => hangul d | [] => false end) with (q_hd hangul a).
  rewrite H1. cbn [app]. rewrite IH; auto.
Qed.

Lemma run_on_In x :
  forall a prev, In x (run_on prev a) -> In x a \/ x = 46%Z \/ x = 10%Z.
Proof.
  induction a as [|c a IH]; intros prev H; [left; exact H|].
  cbn [run_on] in H. apply in_app_or in H. destruct H as [H|H].
  - destruct (hangul prev && sentence_end c
              && match a with d :: _ => hangul d | [] => false end).
    + destruct H as [H|[H|[]]]; auto.
    + destruct H as [H|[]]. left. left. exact H.
  - destruct (IH c H) as [H'|H']; [left; right|right]; auto.
Qed.

(** *** Pieces of a line *)

Lemma no_break_rev s : no_break s = true -> no_break (rev s) = true.
Proof.
  unfold no_break. intros H. apply forallb_forall. intros c Hc.
  apply in_rev in Hc. exact (proj1 (forallb_forall _ s) H c Hc).
Qed.

Lemma splitlines_pieces :
  forall n s cur,
    (length s <= n)%nat -> no_break cur = true ->
    forall piece,
      In piece (splitlines_from cur s) ->
      no_break piece = true /\ exists x y, rev cur ++ s = x ++ piece ++ y.
Proof.
  induction n as [|n IH]; intros s cur Hn Hcur piece Hin.
  - destruct s; [|simpl in Hn; lia]. cbn [splitlines_from] in Hin.
    destruct cur as [|c cur]; [contradiction|]. destruct Hin as [<-|[]].
    split.
    + apply no_break_rev. exact Hcur.
    + exists [], []. rewrite !app_nil_r. reflexivity.
  - destruct s as [|c s].
    + cbn [splitlines_from] in Hin.
      destruct cur as [|d cur]; [contradiction|]. destruct Hin as [<-|[]].
      split.
      * apply no_break_rev. exact Hcur.
      * exists [], []. rewrite !app_nil_r. reflexivity.
    + cbn [splitlines_from] in Hin. simpl in Hn.
      destruct (is_linebreak c) eqn:Ec.
      * destruct Hin as [<-|Hin].
        -- split.
           ++ apply no_break_rev. exact Hcur.
           ++ exists [], (c :: s). reflexivity.
        -- destruct s as [|d s']; [contradiction|].
           destruct ((c =? 13)%Z && (d =? 10)%Z).
           ++ destruct (IH s' [] ltac:(simpl in Hn; lia) eq_refl piece Hin)
                as [Hp (x & y & E)].
              split; [exact Hp|]. exists (rev cur ++ c :: d :: x), y.
              cbn [rev app] in E. rewrite E, <- !app_assoc. reflexivity.
           ++ destruct (IH (d :: s') [] ltac:(simpl in *; lia) eq_refl piece Hin)
                as [Hp (x & y & E)].
              split; [exact Hp|]. exists (rev cur ++ c :: x), y.
              cbn [rev app] in E. rewrite E, <- !app_assoc. reflexivity.
      * destruct (IH s (c :: cur) ltac:(lia)) with (piece := piece)
          as [Hp (x & y & E)].
        -- unfold no_break, nots in *. cbn [forallb]. rewrite Ec, Hcur. reflexivity.
        -- exact Hin.
        -- split; [exact Hp|]. exists x, y. rewrite <- E. cbn [rev].
           rewrite <- app_assoc. reflexivity.
Qed.

Lemma splitlines_single_from :
  forall s cur,
    no_break s = true -> (cur <> [] \/ s <> []) ->
    splitlines_from cur s = [rev cur ++ s].
Proof.
  induction s as [|c s IH]; intros cur Hs Hne.
  - cbn [splitlines_from]. rewrite app_nil_r.
    destruct cur; [destruct Hne; contradiction|reflexivity].
  - cbn [splitlines_from]. unfold no_break, nots in Hs. cbn [forallb] in Hs.
    apply andb_true_iff in Hs. destruct Hs as [Hc Hs].
    destruct (is_linebreak c); [discriminate|].
    rewrite IH; [|exact Hs|left; discriminate].
    cbn [rev]. rewrite <- app_assoc. reflexivity.
Qed.

(** *** Properties inherited by parts of a line *)

Lemma q_hd_app q x y : q_hd q x = true -> q_hd q (x ++ y) = true.
Proof. destruct x; [discriminate|auto]. Qed.

Lemma adjacent_app_false p q x y :
  adjacent p q (x ++ y) = false ->
  adjacent p q x = false /\ adjacent p q y = false.
Proof.
  induction x as [|u x IH]; intros H; [auto|].
  cbn [app] in H. apply adjacent_cons_false in H. destruct H as [H1 H2].
  destruct (IH H2) as [Hx Hy]. split; [|exact Hy].
  rewrite adjacent_cons, Hx, orb_false_r.
  destruct (p u); [|reflexivity]. cbn [andb] in *.
  destruct (q_hd q x) eqn:E; [|reflexivity].
  rewrite (q_hd_app q x y E) in H1. discriminate.
Qed.

Lemma t2_app q r x y : t2 q r x = true -> t2 q r (x ++ y) = true.
Proof. destruct x as [|v [|w x]]; try discriminate; auto. Qed.

Lemma triple_app_false p q r x y :
  triple p q r (x ++ y) = false ->
  triple p q r x = false /\ triple p q r y = false.
Proof.
  induction x as [|u x IH]; intros H; [auto|].
  cbn [app] in H. rewrite triple_cons in H. apply orb_false_iff in H.
  destruct H as [H1 H2]. destruct (IH H2) as [Hx Hy]. split; [|exact Hy].
  rewrite triple_cons, Hx, orb_false_r.
  destruct (p u); [|reflexivity]. cbn [andb] in *.
  destruct (t2 q r x) eqn:E; [|reflexivity].
  rewrite (t2_app q r x y E) in H1. discriminate.
Qed.

(** *** The rewriting steps of one line *)

Lemma bySentence_line_eq line :
  bySentence_line line = filter kept (splitlines (rewrites line)).
Proof. reflexivity. Qed.





Lemma existsb_false_In p (s : str) :
  existsb p s = false <-> (forall x, In x s -> p x = false).
Proof.
  split.
  - intros H x Hx. destruct (p x) eqn:E; [|reflexivity].
    assert (existsb p s = true) by (apply existsb_exists; eauto). congruence.
  - intros H. destruct (existsb p s) eqn:E; [|reflexivity].
    apply existsb_exists in E. destruct E as [x [Hx Hp]].
    rewrite (H x Hx) in Hp. discriminate.
Qed.

Lemma ellipsis_In x s : In x (flat_map ellipsis s) -> (In x s /\ x <> 8230%Z) \/ x = 46%Z.
Proof.
  intros H. apply in_flat_map in H. destruct H as [y [Hy H]].
  unfold ellipsis in H. destruct (Z.eqb_spec 8230 y) as [<-|Hne].
  - destruct H as [<-|[]]. right. reflexivity.
  - destruct H as [<-|[]]. left. auto.
Qed.



Lemma flat_map_ellipsis_id s :
  existsb (Z.eqb 8230) s = false -> flat_map ellipsis s = s.
Proof.
  induction s as [|c s IH]; intros H; [reflexivity|].
  cbn [existsb] in H. apply orb_false_iff in H. destruct H as [Hc H].
  cbn [flat_map]. unfold ellipsis at 1. rewrite Hc, IH; auto.
Qed.


Lemma squash_keeps p q c a :
  adjacent p q a = false -> adjacent p q (squash c false a) = false.
Proof.
  intros H. destruct (adjacent p q (squash c false a)) eqn:E; [|reflexivity].
  apply (proj1 (squash_adjacent p q c a)) in E. congruence.
Qed.

Lemma break_after_keeps p q a prev :
  p 10%Z = false -> q 10%Z = false ->
  adjacent p q a = false -> adjacent p q (break_after prev a) = false.
Proof.
  intros Hp Hq H. destruct (adjacent p q (break_after prev a)) eqn:E; [|reflexivity].
  apply (adjacent_tail p q 10%Z) in E.
  apply (break_after_adjacent p q Hp Hq) in E.
  rewrite adjacent_cons, Hp, H in E. discriminate.
Qed.

Lemma run_on_keeps p q a :
  p 10%Z = false -> q 10%Z = false -> p 0%Z = false ->
  (forall h, hangul h = true -> p h = false) ->
  adjacent p q a = false -> adjacent p q (run_on 0 a) = false.
Proof.
  intros Hp Hq H0 Hh H. destruct (adjacent p q (run_on 0 a)) eqn:E; [|reflexivity].
  apply (adjacent_tail p q 0%Z) in E.
  apply (run_on_adjacent p q Hp Hq Hh) in E.
  rewrite adjacent_cons, H0, H in E. discriminate.
Qed.

Lemma hangul_not_char c h : (c < 44032)%Z -> hangul h = true -> (c =? h)%Z = false.
Proof.
  intros Hc Hh. apply CharFacts.hangul_spec in Hh. apply Z.eqb_neq. lia.
Qed.

Lemma hangul_not_sentence_end h : hangul h = true -> sentence_end h = false.
Proof.
  intros H. destruct (sentence_end h) eqn:E; [|reflexivity].
  rewrite (sentence_end_not_hangul _ E) in H. discriminate.
Qed.



Lemma kept_spec s : kept s = true -> s <> [] /\ isspace s = false.
Proof.
  unfold kept. intros H. apply andb_true_iff in H. destruct H as [H1 H2].
  split.
  - destruct s; [discriminate|discriminate].
  - destruct (isspace s); [discriminate|reflexivity].
Qed.



End SegmentFacts.

(** ** The rule for Latin annotations, in context *)

Module SpanFacts.
Import ReFacts SubFacts SearchFacts CharFacts HanjaFacts GluedFacts.

Lemma annotation_rest_length a :
  (length (annotation_rest a) <= length (after latin a))%nat.
Proof.
  unfold annotation_rest. destruct (after latin a) as [|c t]; [apply le_n|].
  destruct (32 =? c)%Z; [|apply le_n].
  pose proof (after_length latin t). cbn [length]. lia.
Qed.

(** The rule in closed form: a match starts where a Latin letter follows
    a Korean syllable, and ends where the annotation ends. *)
Lemma rx_len_glued adv b a :
  rx_len glued_latin_re adv b a
  = if q_hd hangul b && q_hd latin a
    then Some (length a - length (annotation_rest a))%nat
    else None.
Proof.
  unfold rx_len, glued_latin_re. cbn [seqs].
  rewrite rx_seq, rx_behind. cbn [rev app behind].
  destruct b as [|h b]; [reflexivity|]. cbn [q_hd].
  rewrite andb_true_r. destruct (hangul h); [|reflexivity]. cbn [andb].
  rewrite rx_seq, rx_plus_cls. destruct a as [|c a]; [reflexivity|].
  cbn [q_hd]. destruct (latin c) eqn:Ec; [|reflexivity].
  assert (Ea : after latin (c :: a) = after latin a)
    by (cbn [after]; rewrite Ec; reflexivity).
  pose proof (annotation_rest_length (c :: a)) as Hl. rewrite Ea in Hl.
  pose proof (after_length latin a) as Hl'.
  unfold annotation_rest in *. rewrite Ea.
  apply rx_star_cls_greedy.
  rewrite rx_seq. change (lit " ") with (Cls (Z.eqb 32)).
  rewrite rx_opt_cls.
  assert (Hacc : forall b' t, (length t <= length a)%nat ->
                   accept adv (c :: a) b' t
                   = Some (length (c :: a) - length t)%nat).
  { intros b' t Ht. unfold accept.
    replace (length (c :: a) - length t =? 0)%nat with false.
    - rewrite andb_false_r. reflexivity.
    - symmetry. apply Nat.eqb_neq. cbn [length]. lia. }
  destruct (after latin a) as [|d t] eqn:Et.
  - rewrite rx_star_cls. apply Hacc. cbn [length]. lia.
  - destruct (32 =? d)%Z eqn:Ed.
    + erewrite rx_star_cls_greedy; [reflexivity|]. apply Hacc.
      pose proof (after_length latin t). cbn [length] in Hl'. lia.
    + erewrite rx_star_cls_greedy; [reflexivity|].
      assert (Hd : latin d = false).
      { pose proof (after_head latin a) as H. rewrite Et in H. exact H. }
      cbn [while after]. rewrite Hd. apply Hacc. exact Hl'.
Qed.

(** Only the character before a position matters to the rule. *)
Lemma sub_scan_glued_behind repl a :
  forall skip b b',
    q_hd hangul b = q_hd hangul b' ->
    sub_scan glued_latin_re repl skip b a = sub_scan glued_latin_re repl skip b' a.
Proof.
  induction a as [|c a IH]; intros skip b b' H.
  - destruct skip; cbn [sub_scan]; [|reflexivity].
    rewrite !rx_len_glued, H. reflexivity.
  - destruct skip as [|n]; cbn [sub_scan].
    + rewrite !rx_len_glued, H.
      rewrite (IH 0%nat (c :: b) (c :: b') eq_refl).
      destruct (q_hd hangul b' && q_hd latin (c :: a)); [|reflexivity].
      destruct (length (c :: a) - length (annotation_rest (c :: a)))%nat
        as [|n].
      * reflexivity.
      * rewrite (IH n (c :: b) (c :: b') eq_refl). reflexivity.
    + apply IH. reflexivity.
Qed.

Lemma annotation_rest_plain w post :
  forallb latin w = true ->
  q_hd latin post = false -> q_hd (Z.eqb 32) post = false ->
  annotation_rest (w ++ post) = post.
Proof.
  intros Hw Hl Hs. unfold annotation_rest.
  assert (Hstop : match post with d :: _ => latin d = false | [] => True end)
    by (destruct post; [exact I|exact Hl]).
  destruct (while_app_stop latin w post Hw Hstop) as [_ ->].
  destruct post as [|d t]; [reflexivity|]. cbn [q_hd] in Hs. rewrite Hs.
  reflexivity.
Qed.

Lemma annotation_rest_spaced w w2 post :
  forallb latin w = true -> forallb latin w2 = true ->
  q_hd latin post = false ->
  annotation_rest (w ++ 32%Z :: w2 ++ post) = post.
Proof.
  intros Hw Hw2 Hl. unfold annotation_rest.
  destruct (while_app_stop latin w (32%Z :: w2 ++ post) Hw eq_refl) as [_ ->].
  cbn [Z.eqb Pos.eqb].
  assert (Hstop : match post with d :: _ => latin d = false | [] => True end)
    by (destruct post; [exact I|exact Hl]).
  destruct (while_app_stop latin w2 post Hw2 Hstop) as [_ ->]. reflexivity.
Qed.

Lemma not_hangul_last y b :
  y <> [] -> forallb (nots hangul) y = true -> q_hd hangul (rev y ++ b) = false.
Proof.
  intros Hne Hy. destruct (rev y) as [|u r] eqn:E.
  - apply (f_equal (@length Z)) in E. rewrite length_rev in E.
    destruct y; [contradiction|discriminate].
  - cbn [app q_hd].
    assert (Hu : In u y) by (apply in_rev; rewrite E; left; reflexivity).
    pose proof (proj1 (forallb_forall _ _) Hy u Hu) as H.
    unfold nots in H. destruct (hangul u); [discriminate|reflexivity].
Qed.

Lemma latin_not_hangul w :
  forallb latin w = true -> forallb (nots hangul) w = true.
Proof.
  intros H. apply forallb_forall. intros c Hc.
  pose proof (proj1 (forallb_forall _ _) H c Hc) as Hl. unfold nots.
  destruct (hangul c) eqn:E; [|reflexivity].
  rewrite (hangul_not_latin c E) in Hl. discriminate.
Qed.

(** The text before the first annotation is kept. *)
Lemma sub_scan_glued_before p t :
  adjacent hangul latin p = false ->
  sub_scan glued_latin_re [] 0 [] (p ++ t)
  = p ++ sub_scan glued_latin_re [] 0 (rev p) t.
Proof.
  intros H. rewrite sub_scan_prefix_miss; [rewrite app_nil_r; reflexivity|].
  intros x y E Hy. rewrite app_nil_r. apply rx_len_glued_miss.
  destruct (rev x) as [|u r] eqn:Er; [exact I|].
  destruct y as [|d y]; [contradiction|]. cbn [app].
  destruct (hangul u) eqn:Eu; [|reflexivity].
  destruct (latin d) eqn:Ed; [|reflexivity]. exfalso.
  assert (Ex : x = rev r ++ [u]).
  { rewrite <- (rev_involutive x), Er. reflexivity. }
  subst x p. rewrite <- app_assoc in H. cbn [app] in H.
  rewrite adjacent_app in H by assumption. discriminate.
Qed.

(** One annotation, in its context: the text before it is kept, the
    annotation [ann] is deleted, and the rule goes on with the text after
    it. *)
Lemma sub_glued_one pre h ann post :
  adjacent hangul latin (pre ++ [h]) = false -> hangul h = true ->
  q_hd latin ann = true -> forallb (nots hangul) ann = true ->
  annotation_rest (ann ++ post) = post ->
  sub glued_latin_re "" (pre ++ [h] ++ ann ++ post)
  = pre ++ [h] ++ sub glued_latin_re "" post.
Proof.
  intros Hpre Hh Hc Hann Hrest. unfold sub, sub_str.
  change (utf8 "") with (@nil Z).
  rewrite !(app_assoc pre [h]).
  rewrite sub_scan_glued_before by exact Hpre. f_equal.
  destruct ann as [|c x]; [discriminate|].
  rewrite rev_app_distr. cbn [rev app].
  rewrite sub_scan_hit.
  - cbn [app]. apply sub_scan_glued_behind.
    apply (@not_hangul_last (c :: x) (h :: rev pre)); [discriminate|exact Hann].
  - rewrite rx_len_glued. cbn [q_hd]. cbn [q_hd] in Hc. rewrite Hh, Hc.
    cbn [andb]. change (c :: x ++ post) with ((c :: x) ++ post).
    rewrite Hrest. rewrite length_app. cbn [length]. f_equal. lia.
Qed.

End SpanFacts.

(** * Further properties of the passes *)

Unset Implicit Arguments.

Module LoopFacts.
Import ReFacts SubFacts SearchFacts ScanFacts.


(** One iteration of a rescanning loop on a line with a match: the
    first token [t] is rewritten where it stands. *)
Lemma take_first_split r (Hr : proper r) line :
  finditer r line <> [] ->
  exists p t rest,
    line = p ++ t ++ rest /\ t <> [] /\
    (forall x y, p = x ++ y -> y <> [] ->
                 rx_len r false (rev x) (y ++ t ++ rest) = None) /\
    rx_len r false (rev p) (t ++ rest) = Some (length t) /\
    length (finditer r line)
    = S (length (iter_scan r 0 (Z.of_nat (length p + length t))
                           (rev t ++ rev p) rest)) /\
    (forall tok f,
        take_first r (line, tok) (fun t => Ret (f t))
        = Ret (p ++ f t ++ rest, Some (f t))) /\
    (forall sv tok rw,
        run sv (take_first r (line, tok) rw)
        = match run sv (rw t) with
          | Some new => Some (p ++ new ++ rest, Some new)
          | None => None
          end).
Proof.
  intros Hne. unfold finditer in *.
  destruct (iter_scan_first Hr line 0 [])
    as [[E0 _]|(p & t & rest & Ea & Ht & Hmiss & Hhit & Es)];
    [congruence|].
  exists p, t, rest.
  assert (Hmiss' : forall x y, p = x ++ y -> y <> [] ->
                               rx_len r false (rev x) (y ++ t ++ rest) = None).
  { intros x y E Hy. rewrite <- (app_nil_r (rev x)). apply Hmiss; assumption. }
  rewrite app_nil_r in Hhit. rewrite app_nil_r in Es. cbn [Z.add] in Es.
  repeat split; auto.
  - rewrite Es. reflexivity.
  - intros tok f. unfold take_first, finditer. rewrite Es. cbn [map].
    rewrite Ea, group_token. cbn [of_option bind].
    rewrite replaceSubstring_token. reflexivity.
  - intros sv tok rw. unfold take_first, finditer. rewrite Es. cbn [map].
    rewrite Ea, group_token. cbn [of_option bind].
    rewrite run_bind. destruct (run sv (rw t)) as [new|]; [|reflexivity].
    cbn [run]. rewrite replaceSubstring_token. reflexivity.
Qed.

Lemma rescan_loop_unfold r rw line :
  rescan_loop r rw line =
  if (0 <? length (finditer r line))%nat then
    st <- for_range (length (finditer r line))
                    (fun st => take_first r st rw) (line, None) ;;
    Ret (fst st)
  else Ret line.
Proof. unfold rescan_loop. rewrite length_map. reflexivity. Qed.

End LoopFacts.

Module AbcFacts.
Import ReFacts SubFacts SearchFacts ScanFacts CharFacts LoopFacts.

Lemma rx_len_ABC adv b a :
  rx_len ABC_re adv b a =
  match a with
  | c :: a' => if ABC_hit c a' then Some 1%nat else None
  | [] => None
  end.
Proof.
  unfold rx_len, ABC_re, ABC_hit. rewrite rx_seq, rx_cls.
  destruct a as [|c a]; [reflexivity|].
  destruct (upper c); [|reflexivity]. rewrite rx_ahead, rx_cls.
  cbn [andb]. destruct a as [|d a]; [reflexivity|]. cbn [q_hd].
  destruct (nots lower d); [|reflexivity].
  unfold accept. cbn [length].
  replace (S (S (length a)) - S (length a))%nat with 1%nat by lia.
  rewrite andb_false_r. reflexivity.
Qed.

Lemma ABC_re_proper : proper ABC_re.
Proof.
  intros adv b a n H. rewrite rx_len_ABC in H.
  destruct a as [|c a]; [discriminate|].
  destruct (ABC_hit c a); [|discriminate].
  injection H as <-. simpl. lia.
Qed.

Lemma iter_scan_ABC :
  forall a pos b, length (iter_scan ABC_re 0 pos b a) = caps a.
Proof.
  induction a as [|c a IH]; intros pos b.
  - rewrite iter_scan_miss_end; [reflexivity|]. apply rx_len_ABC.
  - cbn [caps]. destruct (ABC_hit c a) eqn:E.
    + pose proof (@iter_scan_hit ABC_re pos b c [] a) as H.
      cbn [app length rev] in H. rewrite H by (rewrite rx_len_ABC, E; reflexivity).
      cbn [length]. rewrite IH. reflexivity.
    + rewrite iter_scan_miss by (rewrite rx_len_ABC, E; reflexivity).
      rewrite IH. reflexivity.
Qed.

(** The spelling of each capital is a non-empty run of Korean syllables. *)
Lemma upper_In c : upper c = true -> In c (utf8 "ABCDEFGHIJKLMNOPQRSTUVWXYZ").
Proof.
  intros H. unfold upper, rng, in_range in H.
  apply andb_true_iff in H. destruct H as [H1 H2].
  apply Z.leb_le in H1. apply Z.leb_le in H2.
  change (chr "A") with 65%Z in H1. change (chr "Z") with 90%Z in H2.
  assert (E : c = (65 + Z.of_nat (Z.to_nat (c - 65)))%Z) by lia.
  assert (L : (Z.to_nat (c - 65) < 26)%nat) by lia.
  revert E L. generalize (Z.to_nat (c - 65)). intros k E L. subst c.
  do 26 (destruct k as [|k]; [vm_compute; tauto|]). lia.
Qed.

Lemma ABC_table_hangul c :
  upper c = true ->
  ABC_table [c] <> [] /\ forallb hangul (ABC_table [c]) = true.
Proof.
  intros H. apply upper_In in H.
  assert (G : forallb (fun c => negb (length (ABC_table [c]) =? 0)%nat
                                && forallb hangul (ABC_table [c]))
                      (utf8 "ABCDEFGHIJKLMNOPQRSTUVWXYZ") = true)
    by (vm_compute; reflexivity).
  pose proof (proj1 (forallb_forall _ _) G c H) as Hc.
  apply andb_true_iff in Hc. destruct Hc as [H1 H2]. split; [|exact H2].
  intros E. rewrite E in H1. discriminate.
Qed.

Lemma hangul_not_upper c : hangul c = true -> upper c = false.
Proof.
  intros H. pose proof (hangul_not_latin c H) as L.
  unfold latin in L. apply orb_false_iff in L. tauto.
Qed.

Lemma hangul_not_lower c : hangul c = true -> lower c = false.
Proof.
  intros H. pose proof (hangul_not_latin c H) as L.
  unfold latin in L. apply orb_false_iff in L. tauto.
Qed.

(** Korean syllables are passed over, whatever follows. *)
Lemma korean_passed k :
  forallb hangul k = true ->
  forall s, spell_caps (k ++ s) = k ++ spell_caps s /\ caps (k ++ s) = caps s.
Proof.
  induction k as [|h k IH]; intros Hk s; [split; reflexivity|].
  cbn [forallb] in Hk. apply andb_true_iff in Hk. destruct Hk as [Hh Hk].
  cbn [app spell_caps caps]. unfold ABC_hit.
  rewrite (hangul_not_upper h Hh). cbn [andb app Nat.add].
  destruct (IH Hk s) as [-> ->]. split; reflexivity.
Qed.

(** A prefix in which nothing is read in front of [s] is passed over
    in front of any text that starts, like [s], with a character other
    than a lowercase letter. *)
Lemma quiet_prefix p :
  forall s s',
    q_hd (nots lower) s = true -> q_hd (nots lower) s' = true ->
    (forall x c y, p = x ++ c :: y -> ABC_hit c (y ++ s) = false) ->
    spell_caps (p ++ s') = p ++ spell_caps s' /\ caps (p ++ s') = caps s'.
Proof.
  induction p as [|c p IH]; intros s s' Hs Hs' Hq; [split; reflexivity|].
  cbn [app spell_caps caps].
  assert (Hc : ABC_hit c (p ++ s') = false).
  { pose proof (Hq [] c p eq_refl) as H0. unfold ABC_hit in *.
    destruct (upper c); [|reflexivity]. cbn [andb] in *.
    destruct p as [|d p]; [|exact H0].
    cbn [app] in *. congruence. }
  rewrite Hc. cbn [app Nat.add].
  destruct (IH s s' Hs Hs') as [-> ->]; [|split; reflexivity].
  intros x d y E. apply (Hq (c :: x) d y). rewrite E. reflexivity.
Qed.

Lemma caps_zero a : caps a = 0%nat -> spell_caps a = a.
Proof.
  induction a as [|c a IH]; [reflexivity|]. cbn [caps spell_caps].
  destruct (ABC_hit c a); [discriminate|]. cbn [Nat.add app].
  intros H. rewrite IH by exact H. reflexivity.
Qed.

(** One iteration spells the first capital that is read. *)
Lemma take_first_ABC line tok :
  caps line <> 0%nat ->
  exists line' tok',
    take_first ABC_re (line, tok) (fun ABC => Ret (ABC_table ABC))
    = Ret (line', tok')
    /\ S (caps line') = caps line
    /\ spell_caps line' = spell_caps line.
Proof.
  intros Hc.
  destruct (@take_first_split ABC_re ABC_re_proper line)
    as (p & t & rest & Ea & Ht & Hmiss & Hhit & _ & Hpure & _).
  { unfold finditer. intros E.
    pose proof (iter_scan_ABC line 0 []) as L. rewrite E in L.
    simpl in L. congruence. }
  rewrite rx_len_ABC in Hhit.
  destruct t as [|c t]; [contradiction|]. cbn [app] in Hhit.
  destruct (ABC_hit c (t ++ rest)) eqn:Ec; [|discriminate].
  injection Hhit as Hl. destruct t; [|discriminate]. cbn [app] in *.
  unfold ABC_hit in Ec. apply andb_true_iff in Ec. destruct Ec as [Hu Hrest].
  destruct (ABC_table_hangul c Hu) as [Hne Hk].
  exists (p ++ ABC_table [c] ++ rest), (Some (ABC_table [c])).
  split; [apply Hpure|].
  assert (Hq : forall x d y, p = x ++ d :: y -> ABC_hit d (y ++ c :: rest) = false).
  { intros x d y E. specialize (Hmiss x (d :: y) E ltac:(discriminate)).
    rewrite rx_len_ABC in Hmiss. cbn [app] in Hmiss.
    destruct (ABC_hit d (y ++ c :: rest)); [discriminate|reflexivity]. }
  assert (Hs : q_hd (nots lower) (c :: rest) = true).
  { cbn [q_hd]. unfold nots.
    unfold upper, lower, rng, in_range in *.
    apply andb_true_iff in Hu. destruct Hu as [H1 H2].
    apply Z.leb_le in H1. apply Z.leb_le in H2.
    change (chr "A") with 65%Z in H1. change (chr "Z") with 90%Z in H2.
    change (chr "a") with 97%Z. change (chr "z") with 122%Z.
    destruct (Z.leb_spec 97 c); [lia|reflexivity]. }
  assert (Hs' : q_hd (nots lower) (ABC_table [c] ++ rest) = true).
  { destruct (ABC_table [c]) as [|h T]; [contradiction|].
    cbn [forallb] in Hk. apply andb_true_iff in Hk. destruct Hk as [Hh _].
    cbn [app q_hd]. unfold nots. rewrite (hangul_not_lower h Hh). reflexivity. }
  destruct (@quiet_prefix p (c :: rest) (c :: rest) Hs Hs Hq) as [E1 E2].
  destruct (@quiet_prefix p (c :: rest) (ABC_table [c] ++ rest) Hs Hs' Hq)
    as [E3 E4].
  destruct (korean_passed (ABC_table [c]) Hk rest) as [E5 E6].
  rewrite Ea, E1, E2, E3, E4, E5, E6. cbn [spell_caps caps].
  unfold ABC_hit. rewrite Hu, Hrest. cbn [andb]. split; reflexivity.
Qed.

Lemma for_range_ABC :
  forall n line tok,
    caps line = n ->
    exists tok',
      for_range n (fun st => take_first ABC_re st (fun ABC => Ret (ABC_table ABC)))
                (line, tok)
      = Ret (spell_caps line, tok').
Proof.
  induction n as [|n IH]; intros line tok Hn.
  - exists tok. cbn [for_range]. rewrite caps_zero by exact Hn. reflexivity.
  - destruct (@take_first_ABC line tok ltac:(lia)) as (l' & t' & E & Hc & Hs).
    destruct (IH l' t' ltac:(lia)) as [tok' E'].
    exists tok'. cbn [for_range]. rewrite E. cbn [bind]. rewrite E', Hs.
    reflexivity.
Qed.

Lemma readABC_spell line : readABC line = Ret (spell_caps line).
Proof.
  unfold readABC. rewrite rescan_loop_unfold. unfold finditer.
  rewrite iter_scan_ABC.
  destruct (Nat.ltb_spec 0 (caps line)).
  - destruct (@for_range_ABC (caps line) line None eq_refl) as [tok' E].
    rewrite E. reflexivity.
  - rewrite caps_zero by lia. reflexivity.
Qed.

Lemma spell_caps_hd a :
  q_hd (nots lower) (spell_caps a) = q_hd (nots lower) a.
Proof.
  destruct a as [|c a]; [reflexivity|]. cbn [spell_caps].
  destruct (ABC_hit c a) eqn:E; [|reflexivity].
  unfold ABC_hit in E. apply andb_true_iff in E. destruct E as [Hu _].
  destruct (ABC_table_hangul c Hu) as [Hne Hk].
  destruct (ABC_table [c]) as [|h T]; [contradiction|].
  cbn [forallb] in Hk. apply andb_true_iff in Hk. destruct Hk as [Hh _].
  cbn [app q_hd]. unfold nots. rewrite (hangul_not_lower h Hh).
  unfold upper, lower, rng, in_range in *.
  apply andb_true_iff in Hu. destruct Hu as [H1 H2].
  apply Z.leb_le in H1. apply Z.leb_le in H2.
  change (chr "A") with 65%Z in H1. change (chr "Z") with 90%Z in H2.
  change (chr "a") with 97%Z. change (chr "z") with 122%Z.
  destruct (Z.leb_spec 97 c); [lia|reflexivity].
Qed.

Lemma caps_spell a : caps (spell_caps a) = 0%nat.
Proof.
  induction a as [|c a IH]; [reflexivity|]. cbn [spell_caps].
  destruct (ABC_hit c a) eqn:E.
  - unfold ABC_hit in E. apply andb_true_iff in E. destruct E as [Hu _].
    destruct (ABC_table_hangul c Hu) as [_ Hk].
    destruct (korean_passed _ Hk (spell_caps a)) as [_ ->]. exact IH.
  - cbn [app caps]. unfold ABC_hit in *. rewrite spell_caps_hd, E, IH.
    reflexivity.
Qed.

End AbcFacts.

Module AlphaFacts.
Import ReFacts SubFacts SearchFacts ScanFacts CharFacts LoopFacts.

Local Notation "'word_re'" := (plus (Cls latin)) (only parsing).

Lemma word_re_proper : proper word_re.
Proof.
  intros adv b a n H. rewrite rx_len_plus_cls in H.
  pose proof (length_while_after latin a) as L.
  destruct (while latin a) as [|c w]; [discriminate|].
  injection H as <-. simpl in *. lia.
Qed.

Lemma runs_inside a : latin_runs true a = latin_runs false (after latin a).
Proof.
  induction a as [|c a IH]; [reflexivity|]. cbn [latin_runs after].
  destruct (latin c) eqn:E; [exact IH|]. cbn [latin_runs]. rewrite E. reflexivity.
Qed.

Lemma iter_scan_runs :
  forall n a pos b,
    (length a <= n)%nat ->
    length (iter_scan word_re 0 pos b a) = latin_runs false a.
Proof.
  induction n as [|n IH]; intros a pos b Hn.
  - destruct a; [|simpl in Hn; lia].
    rewrite iter_scan_miss_end; [reflexivity|]. apply rx_len_plus_cls.
  - destruct a as [|c a].
    + rewrite iter_scan_miss_end; [reflexivity|]. apply rx_len_plus_cls.
    + cbn [latin_runs]. destruct (latin c) eqn:E.
      * pose proof (@iter_scan_hit word_re pos b c (while latin a) (after latin a)) as H.
        rewrite while_after in H. rewrite H.
        -- cbn [length]. rewrite IH, runs_inside; [reflexivity|].
           pose proof (after_length latin a). simpl in Hn. lia.
        -- rewrite rx_len_plus_cls. cbn [while]. rewrite E. reflexivity.
      * rewrite iter_scan_miss
          by (rewrite rx_len_plus_cls; cbn [while]; rewrite E; reflexivity).
        apply IH. simpl in Hn. lia.
Qed.

Lemma finditer_runs a : length (finditer word_re a) = latin_runs false a.
Proof. apply (@iter_scan_runs (length a)). lia. Qed.

Lemma runs_plain p :
  forallb (nots latin) p = true ->
  forall f s, latin_runs f (p ++ s) = latin_runs (match p with [] => f | _ => false end) s.
Proof.
  induction p as [|c p IH]; intros Hp f s; [reflexivity|].
  cbn [forallb] in Hp. apply andb_true_iff in Hp. destruct Hp as [Hc Hp].
  unfold nots in Hc. cbn [app latin_runs].
  destruct (latin c); [discriminate|]. rewrite (IH Hp).
  destruct p; reflexivity.
Qed.

Lemma runs_plain_false p s :
  forallb (nots latin) p = true -> latin_runs false (p ++ s) = latin_runs false s.
Proof. intros Hp. rewrite runs_plain by exact Hp. destruct p; reflexivity. Qed.

Lemma runs_letters t :
  forallb latin t = true -> forall s, latin_runs true (t ++ s) = latin_runs true s.
Proof.
  induction t as [|c t IH]; intros Ht s; [reflexivity|].
  cbn [forallb] in Ht. apply andb_true_iff in Ht. destruct Ht as [Hc Ht].
  cbn [app latin_runs]. rewrite Hc. cbn [Nat.add]. apply IH. exact Ht.
Qed.

Lemma runs_boundary s f :
  q_hd latin s = false -> latin_runs f s = latin_runs false s.
Proof.
  destruct s as [|d s]; [reflexivity|]. cbn [q_hd latin_runs].
  intros ->. reflexivity.
Qed.

Lemma runs_word t s :
  t <> [] -> forallb latin t = true -> q_hd latin s = false ->
  latin_runs false (t ++ s) = S (latin_runs false s).
Proof.
  intros Hne Ht Hs. destruct t as [|c t]; [contradiction|].
  cbn [forallb] in Ht. apply andb_true_iff in Ht. destruct Ht as [Hc Ht].
  cbn [app latin_runs]. rewrite Hc. cbn [Nat.add].
  rewrite runs_letters by exact Ht. rewrite (@runs_boundary s true Hs). reflexivity.
Qed.

Lemma runs_after new :
  forall s f, q_hd latin s = false ->
              (latin_runs false s <= latin_runs f (new ++ s))%nat.
Proof.
  induction new as [|c new IH]; intros s f Hs.
  - cbn [app]. rewrite (@runs_boundary s f Hs). lia.
  - cbn [app latin_runs]. destruct (latin c).
    + specialize (IH s true Hs). lia.
    + apply IH. exact Hs.
Qed.

Lemma runs_zero a : latin_runs false a = 0%nat -> forallb (nots latin) a = true.
Proof.
  induction a as [|c a IH]; [reflexivity|]. cbn [latin_runs forallb]. unfold nots at 1.
  destruct (latin c); [discriminate|]. exact IH.
Qed.

(** The first token of a line with Latin letters: a maximal run. *)
Lemma while_whole p (t s : str) :
  length (while p (t ++ s)) = length t ->
  forallb p t = true /\ q_hd p s = false.
Proof.
  revert s. induction t as [|c t IH]; intros s H.
  - split; [reflexivity|]. cbn [app length] in H.
    destruct s as [|d s]; [reflexivity|]. cbn [while q_hd] in *.
    destruct (p d); [discriminate|reflexivity].
  - cbn [app while length forallb] in *. destruct (p c); [|discriminate].
    cbn [length] in H. injection H as H. apply IH in H. exact H.
Qed.

Lemma first_word line :
  latin_runs false line <> 0%nat ->
  exists p t rest,
    line = p ++ t ++ rest /\ t <> [] /\
    forallb (nots latin) p = true /\ forallb latin t = true /\
    q_hd latin rest = false /\
    (forall sv tok rw,
        run sv (take_first word_re (line, tok) rw)
        = match run sv (rw t) with
          | Some new => Some (p ++ new ++ rest, Some new)
          | None => None
          end).
Proof.
  intros Hn.
  destruct (@take_first_split word_re word_re_proper line)
    as (p & t & rest & Ea & Ht & Hmiss & Hhit & _ & _ & Hrun).
  { intros E. pose proof (finditer_runs line) as L. rewrite E in L.
    simpl in L. congruence. }
  exists p, t, rest. rewrite rx_len_plus_cls in Hhit.
  assert (Hw : length (while latin (t ++ rest)) = length t).
  { destruct (while latin (t ++ rest)) as [|c w] eqn:E; [discriminate|].
    injection Hhit as Hl. exact Hl. }
  destruct (@while_whole latin t rest Hw) as [Hl Hr].
  repeat split; auto.
  apply forallb_forall. intros d Hd. apply in_split in Hd.
  destruct Hd as (x & y & E).
  specialize (Hmiss x (d :: y) E ltac:(discriminate)).
  rewrite rx_len_plus_cls in Hmiss. cbn [app while] in Hmiss.
  unfold nots. destruct (latin d); [discriminate|reflexivity].
Qed.

Lemma run_loanword sv t lang :
  run sv (Loanword_read t lang (fun alpha => Ret alpha)) = Some (loanword sv t lang).
Proof. reflexivity. Qed.

(** The loop never runs out of tokens, whatever the reader returns. *)
Lemma for_range_words sv lang :
  forall k line tok,
    (k <= latin_runs false line)%nat ->
    exists line' tok',
      run sv (for_range k
                (fun st => take_first word_re st
                   (fun alpha => Loanword_read alpha lang (fun alpha => Ret alpha)))
                (line, tok))
      = Some (line', tok').
Proof.
  induction k as [|k IH]; intros line tok Hk.
  - exists line, tok. reflexivity.
  - destruct (@first_word line ltac:(lia))
      as (p & t & rest & Ea & Hne & Hp & Ht & Hr & Hrun).
    cbn [for_range]. rewrite run_bind, Hrun, run_loanword.
    apply IH. pose proof (@runs_word t rest Hne Ht Hr) as E1.
    rewrite Ea, (@runs_plain_false p _ Hp), E1 in Hk.
    rewrite (@runs_plain_false p _ Hp).
    pose proof (@runs_after (loanword sv t lang) rest false Hr). lia.
Qed.

(** Reading runs, piece by piece. *)
Lemma read_runs_plain f p :
  forallb (nots latin) p = true ->
  forall s, read_runs f [] (p ++ s) = p ++ read_runs f [] s.
Proof.
  induction p as [|c p IH]; intros Hp s; [reflexivity|].
  cbn [forallb] in Hp. apply andb_true_iff in Hp. destruct Hp as [Hc Hp].
  unfold nots in Hc. cbn [app read_runs].
  destruct (latin c); [discriminate|]. cbn [flush app]. rewrite (IH Hp).
  reflexivity.
Qed.

Lemma read_runs_letters f t :
  forallb latin t = true ->
  forall cur s, read_runs f cur (t ++ s) = read_runs f (rev t ++ cur) s.
Proof.
  induction t as [|c t IH]; intros Ht cur s; [reflexivity|].
  cbn [forallb] in Ht. apply andb_true_iff in Ht. destruct Ht as [Hc Ht].
  cbn [app read_runs rev]. rewrite Hc, (IH Ht), <- app_assoc. reflexivity.
Qed.

Lemma read_runs_boundary f cur s :
  q_hd latin s = false ->
  read_runs f cur s = flush f cur ++ read_runs f [] s.
Proof.
  destruct s as [|d s]; cbn [q_hd read_runs flush].
  - intros _. rewrite app_nil_r. reflexivity.
  - intros ->. reflexivity.
Qed.

Lemma read_runs_word f p t rest :
  forallb (nots latin) p = true -> t <> [] -> forallb latin t = true ->
  q_hd latin rest = false ->
  read_runs f [] (p ++ t ++ rest) = p ++ f t ++ read_runs f [] rest.
Proof.
  intros Hp Hne Ht Hr. rewrite (@read_runs_plain f p Hp).
  rewrite (@read_runs_letters f t Ht), app_nil_r.
  rewrite (@read_runs_boundary f _ _ Hr). unfold flush.
  destruct (rev t) eqn:E.
  - apply (f_equal (@rev Z)) in E. rewrite rev_involutive in E. contradiction.
  - rewrite <- E, rev_involutive. reflexivity.
Qed.

Lemma for_range_words_read sv lang :
  (forall w, w <> [] -> forallb latin w = true ->
             forallb (nots latin) (loanword sv w lang) = true) ->
  forall n line tok,
    latin_runs false line = n ->
    exists tok',
      run sv (for_range n
                (fun st => take_first word_re st
                   (fun alpha => Loanword_read alpha lang (fun alpha => Ret alpha)))
                (line, tok))
      = Some (read_runs (fun w => loanword sv w lang) [] line, tok').
Proof.
  intros Hreader. induction n as [|n IH]; intros line tok Hn.
  - exists tok. cbn [for_range run]. apply runs_zero in Hn.
    pose proof (@read_runs_plain (fun w => loanword sv w lang) line Hn []) as E.
    rewrite app_nil_r in E. rewrite E. cbn [read_runs flush].
    rewrite app_nil_r. reflexivity.
  - destruct (@first_word line ltac:(lia))
      as (p & t & rest & Ea & Hne & Hp & Ht & Hr & Hrun).
    cbn [for_range]. rewrite run_bind, Hrun, run_loanword.
    pose proof (Hreader t Hne Ht) as Hnew.
    destruct (IH (p ++ loanword sv t lang ++ rest) (Some (loanword sv t lang)))
      as [tok' E].
    + rewrite (@runs_plain_false p _ Hp), (@runs_plain_false _ _ Hnew).
      pose proof (@runs_word t rest Hne Ht Hr) as E1.
      rewrite Ea, (@runs_plain_false p _ Hp), E1 in Hn. lia.
    + exists tok'. etransitivity; [exact E|]. do 2 f_equal.
      symmetry. rewrite Ea, (@read_runs_word _ p t rest Hp Hne Ht Hr).
      rewrite (@read_runs_plain _ p Hp), (@read_runs_plain _ _ Hnew). reflexivity.
Qed.

Lemma readAlphabet_unfold line lang :
  readAlphabet line lang =
  if (0 <? latin_runs false line)%nat then
    st <- for_range (latin_runs false line)
            (fun st => take_first word_re st
               (fun alpha => Loanword_read alpha lang (fun alpha => Ret alpha)))
            (line, None) ;;
    Ret (fst st)
  else Ret line.
Proof.
  unfold readAlphabet. rewrite rescan_loop_unfold, finditer_runs. reflexivity.
Qed.

Lemma readAlphabet_plain line lang :
  existsb latin line = false -> readAlphabet line lang = Ret line.
Proof.
  intros H. rewrite readAlphabet_unfold.
  assert (E : latin_runs false line = 0%nat).
  { induction line as [|c l IH]; [reflexivity|]. cbn [existsb latin_runs] in *.
    destruct (latin c); [discriminate|]. apply IH. exact H. }
  rewrite E. reflexivity.
Qed.

Lemma readAlphabet_returns sv line lang :
  exists out, run sv (readAlphabet line lang) = Some out.
Proof.
  rewrite readAlphabet_unfold.
  destruct (Nat.ltb_spec 0 (latin_runs false line)); [|eexists; reflexivity].
  destruct (@for_range_words sv lang (latin_runs false line) line None (le_n _))
    as (out & tok & E).
  exists out. rewrite run_bind, E. reflexivity.
Qed.

Lemma read_runs_clean f :
  (forall w, w <> [] -> forallb latin w = true -> forallb (nots latin) (f w) = true) ->
  forall a cur, forallb latin cur = true ->
                forallb (nots latin) (read_runs f cur a) = true.
Proof.
  intros Hf.
  assert (Hflush : forall cur, forallb latin cur = true ->
                               forallb (nots latin) (flush f cur) = true).
  { intros cur Hc. unfold flush. destruct cur as [|c cur]; [reflexivity|].
    apply Hf.
    - intros E. apply (f_equal (@rev Z)) in E. rewrite rev_involutive in E.
      discriminate.
    - rewrite forallb_forall in *. intros x Hx. apply Hc. apply in_rev. exact Hx. }
  induction a as [|c a IH]; intros cur Hc; cbn [read_runs].
  - apply Hflush. exact Hc.
  - destruct (latin c) eqn:E.
    + apply IH. cbn [forallb]. rewrite E, Hc. reflexivity.
    + rewrite forallb_app. rewrite (Hflush cur Hc). cbn [forallb andb].
      unfold nots at 1. rewrite E. cbn [negb andb]. apply IH. reflexivity.
Qed.

End AlphaFacts.

Module JamoFacts.
Import ReFacts SubFacts SearchFacts ScanFacts CharFacts.

Ltac subs_as_maps :=
  repeat match goal with
         | |- context [sub (lit ?l) ?r ?x] =>
           change (sub (lit l) r x) with (sub (Cls (Z.eqb (chr l))) r x);
           rewrite (sub_cls (Z.eqb (chr l)) r x)
         end.

Lemma readHangulLetter_char c : readHangulLetter [c] = jamo_name c.
Proof.
  unfold readHangulLetter, jamo_name. subs_as_maps.
  repeat match goal with
         | |- context [(c =? chr ?l)%Z] =>
           let k := eval cbv in (chr l) in
           change (chr l) with k;
           destruct (Z.eqb_spec c k) as [->|?]; [vm_compute; reflexivity|]
         end.
  cbn [flat_map app].
  repeat match goal with
         | H : c <> ?k |- context [(?k =? c)%Z] =>
           rewrite (proj2 (Z.eqb_neq k c)) by lia;
           cbn [flat_map app]
         end.
  reflexivity.
Qed.

Lemma readHangulLetter_app x y :
  readHangulLetter (x ++ y) = readHangulLetter x ++ readHangulLetter y.
Proof.
  unfold readHangulLetter. subs_as_maps. rewrite !flat_map_app. reflexivity.
Qed.

Lemma readHangulLetter_map s : readHangulLetter s = flat_map jamo_name s.
Proof.
  induction s as [|c s IH]; [reflexivity|].
  change (c :: s) with ([c] ++ s). rewrite readHangulLetter_app, IH.
  rewrite readHangulLetter_char. reflexivity.
Qed.

Lemma jamo_name_cases c :
  (jamo_read c = false /\ jamo_name c = [c]) \/
  (jamo_read c = true /\ jamo_name c <> [] /\ forallb hangul (jamo_name c) = true).
Proof.
  unfold jamo_name, jamo_read, one_of.
  repeat match goal with
         | |- context [(c =? chr ?l)%Z] =>
           let k := eval cbv in (chr l) in
           change (chr l) with k;
           destruct (Z.eqb_spec c k) as [->|?];
           [right; vm_compute; repeat split; discriminate|]
         end.
  left. split; [|reflexivity].
  let l := eval cbv in (utf8 "ㄱㄴㄷㄹㅁㅂㅅㅇㅈㅊㅎㄲㄸㅃㅆㅉ") in
  change (utf8 "ㄱㄴㄷㄹㅁㅂㅅㅇㅈㅊㅎㄲㄸㅃㅆㅉ") with l.
  cbn [existsb].
  repeat match goal with
         | H : c <> ?k |- context [(c =? ?k)%Z] =>
           rewrite (proj2 (Z.eqb_neq c k)) by lia
         end.
  reflexivity.
Qed.

Lemma hangul_not_jamo c : hangul c = true -> jamo_read c = false.
Proof.
  intros H. apply hangul_spec in H. unfold jamo_read, one_of.
  let l := eval cbv in (utf8 "ㄱㄴㄷㄹㅁㅂㅅㅇㅈㅊㅎㄲㄸㅃㅆㅉ") in
  change (utf8 "ㄱㄴㄷㄹㅁㅂㅅㅇㅈㅊㅎㄲㄸㅃㅆㅉ") with l.
  cbn [existsb].
  repeat match goal with
         | |- context [(c =? ?k)%Z] =>
           rewrite (proj2 (Z.eqb_neq c k)) by lia
         end.
  reflexivity.
Qed.

Lemma jamo_name_plain c : jamo_read c = false -> jamo_name c = [c].
Proof.
  intros H. destruct (jamo_name_cases c) as [[_ E]|[E _]]; [exact E|congruence].
Qed.

Lemma jamo_name_clean c : existsb jamo_read (jamo_name c) = false.
Proof.
  destruct (jamo_name_cases c) as [[E1 E2]|(_ & _ & E)].
  - rewrite E2. cbn [existsb]. rewrite E1. reflexivity.
  - induction (jamo_name c) as [|h k IH]; [reflexivity|].
    cbn [forallb existsb] in *. apply andb_true_iff in E. destruct E as [Hh Hk].
    rewrite (hangul_not_jamo h Hh), (IH Hk). reflexivity.
Qed.

Lemma flat_map_id (f : Z -> str) s :
  (forall c, In c s -> f c = [c]) -> flat_map f s = s.
Proof.
  induction s as [|c s IH]; intros H; [reflexivity|].
  cbn [flat_map]. rewrite (H c (or_introl eq_refl)). cbn [app]. f_equal.
  apply IH. intros d Hd. apply H. right. exact Hd.
Qed.

Lemma readHangulLetter_plain s :
  existsb jamo_read s = false -> readHangulLetter s = s.
Proof.
  intros H. rewrite readHangulLetter_map.
  apply flat_map_id. intros c Hc. apply jamo_name_plain.
  destruct (jamo_read c) eqn:E; [|reflexivity].
  assert (existsb jamo_read s = true)
    by (apply existsb_exists; exists c; auto).
  congruence.
Qed.

End JamoFacts.

Module SliceFacts.

Lemma clip_nonneg (line : str) i :
  (0 <= i)%Z ->
  clip (Z.of_nat (length line)) i = Z.min (Z.of_nat (length line)) i.
Proof.
  intros H. unfold clip. destruct (Z.ltb_spec i 0); lia.
Qed.

End SliceFacts.

Section IntegerFacts.
Import ReFacts SubFacts SearchFacts ScanFacts LoopFacts.

Variable decimal : Z -> option Z.
Hypothesis decimal_ascii :
  forall c, (0 <= c < 128)%Z -> decimal c = ascii_decimal c.

Local Notation "'dig'" := (digit decimal) (only parsing).
Local Notation "'num_re'" := (number_re decimal) (only parsing).






End IntegerFacts.

Module NeedFacts.
Import ReFacts SubFacts SearchFacts ScanFacts.

Section Guard.
Variable R : Type.
Variable G : str -> bool.
Hypothesis G_tail : forall c a, G (c :: a) = true -> G a = true.

Lemma rep_loop_guard (body : cont R -> cont R) :
  (forall k1 k2, (forall b a, k1 b a = k2 b a) ->
                 forall b a, body k1 b a = body k2 b a) ->
  (forall k b a, G a = true -> body k b a = body (guard G k) b a) ->
  forall fuel lo hi g k b a,
    G a = true ->
    rep_loop body fuel lo hi g k b a = rep_loop body fuel lo hi g (guard G k) b a.
Proof.
  intros Hext Hbody fuel.
  induction fuel as [|fuel IH]; intros lo hi g k b a Ha; cbn [rep_loop];
    [reflexivity|].
  change (guard G k b a) with (if G a then k b a else None). rewrite Ha.
  match goal with |- context [body ?K b a] => set (K1 := K) end.
  match goal with |- context [body ?K b a] =>
    lazymatch K with K1 => fail | _ => set (K2 := K) end end.
  assert (E : body K1 b a = body K2 b a).
  { rewrite (Hbody K1 b a Ha), (Hbody K2 b a Ha). apply Hext.
    intros b' a'.
    change (guard G K1 b' a') with (if G a' then K1 b' a' else None).
    change (guard G K2 b' a') with (if G a' then K2 b' a' else None).
    destruct (G a') eqn:Ea'; [|reflexivity].
    subst K1 K2. cbv beta.
    destruct (length a' <? length a)%nat; [|reflexivity].
    apply IH. exact Ea'. }
  rewrite E. reflexivity.
Qed.

(** The rest of a pattern is only ever tried on a suffix of the text:
    a property of the text that its suffixes inherit may be assumed by
    the continuation. *)
Lemma rx_guard (r : regex) :
  forall (k : cont R) b a, G a = true -> rx r k b a = rx r (guard G k) b a.
Proof.
  induction r as [|p|r1 IH1 r2 IH2|r1 IH1 r2 IH2|r IH lo hi g| |r IH|ps];
    intros k b a Ha.
  - rewrite !rx_eps. unfold guard. rewrite Ha. reflexivity.
  - rewrite !rx_cls. destruct a as [|c a']; [reflexivity|].
    destruct (p c); [|reflexivity]. unfold guard. rewrite (G_tail c a' Ha). reflexivity.
  - rewrite !rx_seq. rewrite (IH1 (rx r2 k) b a Ha).
    rewrite (IH1 (rx r2 (guard G k)) b a Ha). apply rx_ext.
    intros b' a'.
    change (guard G (rx r2 k) b' a') with (if G a' then rx r2 k b' a' else None).
    change (guard G (rx r2 (guard G k)) b' a')
      with (if G a' then rx r2 (guard G k) b' a' else None).
    destruct (G a') eqn:Ea'; [|reflexivity]. apply IH2. exact Ea'.
  - rewrite !rx_alt. rewrite (IH1 k b a Ha), (IH2 k b a Ha). reflexivity.
  - change (rx (Rep r lo hi g) k b a)
      with (rep_loop (fun k' => rx r k') (S (length a)) lo hi g k b a).
    change (rx (Rep r lo hi g) (guard G k) b a)
      with (rep_loop (fun k' => rx r k') (S (length a)) lo hi g (guard G k) b a).
    apply rep_loop_guard; [| |exact Ha].
    + intros k1 k2 Hk b' a'. apply rx_ext. exact Hk.
    + intros k' b' a' Ha'. apply IH. exact Ha'.
  - rewrite !rx_bol. unfold guard. rewrite Ha. reflexivity.
  - rewrite !rx_ahead. unfold guard. rewrite Ha. reflexivity.
  - rewrite !rx_behind. unfold guard. rewrite Ha. reflexivity.
Qed.

Lemma rep_loop_fail (body : cont R -> cont R) :
  (forall k1 k2, (forall b a, k1 b a = k2 b a) ->
                 forall b a, body k1 b a = body k2 b a) ->
  (forall b a, body (fun _ _ => None) b a = None) ->
  forall fuel lo hi g b a,
    rep_loop body fuel lo hi g (fun _ _ => None) b a = None.
Proof.
  intros Hext Hbody fuel.
  induction fuel as [|fuel IH]; intros lo hi g b a; cbn [rep_loop];
    [reflexivity|].
  match goal with |- context [body ?K b a] => set (K1 := K) end.
  assert (E : body K1 b a = None).
  { transitivity (body (fun _ _ => None) b a); [|apply Hbody].
    apply Hext. intros b' a'. subst K1. cbv beta.
    destruct (length a' <? length a)%nat; [apply IH|reflexivity]. }
  rewrite E. destruct lo; [|reflexivity].
  destruct (hi_open hi); [|reflexivity]. destruct g; reflexivity.
Qed.

(** A pattern whose rest fails everywhere fails. *)
Lemma rx_fail (r : regex) : forall b a, rx r (fun _ _ => @None R) b a = None.
Proof.
  induction r as [|p|r1 IH1 r2 IH2|r1 IH1 r2 IH2|r IH lo hi g| |r IH|ps];
    intros b a.
  - reflexivity.
  - rewrite rx_cls. destruct a as [|c a']; [reflexivity|]. destruct (p c); reflexivity.
  - rewrite rx_seq. transitivity (rx r1 (fun _ _ => @None R) b a);
      [apply rx_ext; exact IH2|apply IH1].
  - rewrite rx_alt, IH1, IH2. reflexivity.
  - change (rx (Rep r lo hi g) (fun _ _ => None) b a)
      with (rep_loop (fun k' => rx r k') (S (length a)) lo hi g
                     (fun _ _ => @None R) b a).
    apply rep_loop_fail; [|exact IH].
    intros k1 k2 Hk b' a'. apply rx_ext. exact Hk.
  - rewrite rx_bol. destruct b; reflexivity.
  - rewrite rx_ahead. destruct (rx r (fun _ _ => Some tt) b a); reflexivity.
  - rewrite rx_behind. destruct (behind (rev ps) b); reflexivity.
Qed.

End Guard.

Section Needs.
Variable P : Z -> bool.

Lemma existsb_tail (c : Z) (a : str) :
  negb (existsb P (c :: a)) = true -> negb (existsb P a) = true.
Proof.
  cbn [existsb]. destruct (P c); [discriminate|]. exact (fun H => H).
Qed.

Lemma needs_cls (p : Z -> bool) :
  (forall c, p c = true -> P c = true) -> needs P (Cls p).
Proof.
  intros H R k b a Ha. rewrite rx_cls. destruct a as [|c a]; [reflexivity|].
  destruct (p c) eqn:Ec; [|reflexivity].
  cbn [existsb] in Ha. rewrite (H c Ec) in Ha. discriminate.
Qed.

Lemma needs_seq_l r1 r2 : needs P r1 -> needs P (Seq r1 r2).
Proof. intros H R k b a Ha. rewrite rx_seq. apply H. exact Ha. Qed.

Lemma needs_seq_r r1 r2 : needs P r2 -> needs P (Seq r1 r2).
Proof.
  intros H R k b a Ha. rewrite rx_seq.
  rewrite (@rx_guard R (fun a => negb (existsb P a)) existsb_tail r1 (rx r2 k) b a)
    by (rewrite Ha; reflexivity).
  transitivity (rx r1 (fun _ _ => @None R) b a); [|apply rx_fail].
  apply rx_ext. intros b' a'. unfold guard.
  destruct (existsb P a') eqn:E; [reflexivity|]. cbn [negb]. apply H. exact E.
Qed.

Lemma needs_alt r1 r2 : needs P r1 -> needs P r2 -> needs P (Alt r1 r2).
Proof.
  intros H1 H2 R k b a Ha. rewrite rx_alt, (H1 R k b a Ha), (H2 R k b a Ha).
  reflexivity.
Qed.

Lemma needs_rep r lo hi g : needs P r -> needs P (Rep r (S lo) hi g).
Proof. intros H R k b a Ha. rewrite rx_rep. cbv zeta. apply H. exact Ha. Qed.

(** A pass whose pattern needs an absent character leaves the line as
    it is. *)
Lemma sub_needs r repl s :
  needs P r -> existsb P s = false -> sub r repl s = s.
Proof.
  intros Hr Hs. apply sub_scan_no_match. intros x y E. apply Hr.
  subst s. rewrite existsb_app in Hs. apply orb_false_iff in Hs. apply Hs.
Qed.

Lemma search_needs r s : needs P r -> existsb P s = false -> search r s = None.
Proof.
  intros Hr Hs. apply search_none_iff. intros x y E. apply Hr.
  subst s. rewrite existsb_app in Hs. apply orb_false_iff in Hs. apply Hs.
Qed.

Lemma finditer_needs r s :
  needs P r -> existsb P s = false -> finditer r s = [].
Proof.
  intros Hr Hs. unfold finditer.
  assert (G : forall a pos b, existsb P a = false -> iter_scan r 0 pos b a = []).
  { induction a as [|c a IH]; intros pos b Ha.
    - apply iter_scan_miss_end. apply Hr. exact Ha.
    - rewrite iter_scan_miss by (apply Hr; exact Ha). apply IH.
      cbn [existsb] in Ha. apply orb_false_iff in Ha. apply Ha. }
  apply G. exact Hs.
Qed.

End Needs.

(** Deleting matches adds no character. *)
Lemma sub_scan_In r x :
  forall a skip b, In x (sub_scan r [] skip b a) -> In x a.
Proof.
  induction a as [|c a IH]; intros skip b H.
  - destruct skip as [|n]; cbn [sub_scan] in H; [|exact H].
    destruct (rx_len r false b []) as [[|n]|]; cbn [app] in H; try exact H.
    destruct (rx_len r true b []) as [[|n]|]; exact H.
  - destruct skip as [|n]; cbn [sub_scan] in H.
    + destruct (rx_len r false b (c :: a)) as [[|n]|]; cbn [app] in H.
      * destruct (rx_len r true b (c :: a)) as [[|n]|]; cbn [app] in H.
        -- destruct H as [H|H]; [left; exact H|right; apply (IH _ _ H)].
        -- right. apply (IH _ _ H).
        -- destruct H as [H|H]; [left; exact H|right; apply (IH _ _ H)].
      * right. apply (IH _ _ H).
      * destruct H as [H|H]; [left; exact H|right; apply (IH _ _ H)].
    + right. apply (IH _ _ H).
Qed.

Lemma sub_In r x s : In x (sub r "" s) -> In x s.
Proof. apply sub_scan_In. Qed.

End NeedFacts.

Module SplitFacts.
Import ReFacts SubFacts SearchFacts ScanFacts SegmentFacts NeedFacts.

(** The eight substitutions, for every line. *)
Lemma rewrites_undotted line :
  rewrites line
  = run_on 0 (break_after 0
      (squash 33 false (squash 63 false (squash 46 false (undotted line))))).
Proof.
  unfold rewrites, undotted. cbv zeta.
  assert (E1 : sub (lit "…") "." line = flat_map ellipsis line)
    by exact (sub_cls (Z.eqb 8230) "." line).
  rewrite E1.
  set (L := sub inner_dot_re "" (sub initial_dot_re "" (flat_map ellipsis line))).
  change (lit ".") with (Cls (Z.eqb 46)).
  change (lit "?") with (Cls (Z.eqb 63)).
  change (lit "!") with (Cls (Z.eqb 33)).
  unfold sub at 1 2 3 4 5, sub_str.
  change (utf8 ".") with [46%Z]. change (utf8 "?") with [63%Z].
  change (utf8 "!") with [33%Z]. change (utf8 LF) with [10%Z].
  change (utf8 ("." ++ LF)) with [46%Z; 10%Z].
  rewrite (proj2 (sub_scan_squash 46 _ [])).
  rewrite (proj2 (sub_scan_squash 63 _ [])).
  rewrite (proj2 (sub_scan_squash 33 _ [])).
  rewrite sub_scan_break_after, sub_scan_run_on. reflexivity.
Qed.

Lemma undotted_In x line :
  In x (undotted line) -> (In x line /\ x <> 8230%Z) \/ x = 46%Z.
Proof.
  unfold undotted. intros H. do 2 apply sub_In in H.
  apply ellipsis_In in H. exact H.
Qed.

Lemma rewrites_In x line :
  In x (rewrites line) -> (In x line /\ x <> 8230%Z) \/ x = 46%Z \/ x = 10%Z.
Proof.
  rewrite rewrites_undotted. intros H.
  apply run_on_In in H. destruct H as [H|H]; [|auto].
  apply break_after_In in H. destruct H as [H|H]; [|auto].
  do 3 apply squash_In in H.
  apply undotted_In in H. tauto.
Qed.

(** After its rewriting steps every line is free of ellipses, doubled
    marks, separators after a mark and marks between syllables. *)
Lemma rewrites_tidy line :
  existsb (Z.eqb 8230) (rewrites line) = false /\
  adjacent (Z.eqb 46) (Z.eqb 46) (rewrites line) = false /\
  adjacent (Z.eqb 63) (Z.eqb 63) (rewrites line) = false /\
  adjacent (Z.eqb 33) (Z.eqb 33) (rewrites line) = false /\
  adjacent sentence_end (one_of " ,") (rewrites line) = false /\
  triple hangul sentence_end hangul (rewrites line) = false.
Proof.
  assert (Hin : forall x, In x (rewrites line) -> (8230 =? x)%Z = false).
  { intros x Hx. apply rewrites_In in Hx. destruct Hx as [[Hx Hne]|[->| ->]].
    - apply Z.eqb_neq. auto.
    - reflexivity.
    - reflexivity. }
  rewrite rewrites_undotted in *.
  set (L1 := undotted line) in *.
  pose proof (proj1 (squash_done 46 L1)) as D4.
  set (L4 := squash 46 false L1) in *.
  pose proof (proj1 (squash_done 63 L4)) as Q5.
  pose proof (squash_keeps _ _ 63 L4 D4) as D5.
  set (L5 := squash 63 false L4) in *.
  pose proof (proj1 (squash_done 33 L5)) as B6.
  pose proof (squash_keeps _ _ 33 L5 D5) as D6.
  pose proof (squash_keeps _ _ 33 L5 Q5) as Q6.
  set (L6 := squash 33 false L5) in *.
  pose proof (break_after_keeps (Z.eqb 46) (Z.eqb 46) L6 0 eq_refl eq_refl D6) as D7.
  pose proof (break_after_keeps (Z.eqb 63) (Z.eqb 63) L6 0 eq_refl eq_refl Q6) as Q7.
  pose proof (break_after_keeps (Z.eqb 33) (Z.eqb 33) L6 0 eq_refl eq_refl B6) as B7.
  pose proof (break_after_done L6 0) as S7.
  apply adjacent_cons_false in S7. destruct S7 as [_ S7].
  set (L7 := break_after 0 L6) in *.
  split; [apply existsb_false_In; intros x Hx; apply (Hin x Hx)|].
  split; [apply run_on_keeps; auto; intros h; apply hangul_not_char; lia|].
  split; [apply run_on_keeps; auto; intros h; apply hangul_not_char; lia|].
  split; [apply run_on_keeps; auto; intros h; apply hangul_not_char; lia|].
  split; [apply run_on_keeps; auto; exact hangul_not_sentence_end|].
  pose proof (proj1 (run_on_done L7 0)) as T.
  rewrite triple_cons in T. apply orb_false_iff in T. apply T.
Qed.

Lemma tidy_part x s y :
  no_break s = true ->
  existsb (Z.eqb 8230) (x ++ s ++ y) = false /\
  adjacent (Z.eqb 46) (Z.eqb 46) (x ++ s ++ y) = false /\
  adjacent (Z.eqb 63) (Z.eqb 63) (x ++ s ++ y) = false /\
  adjacent (Z.eqb 33) (Z.eqb 33) (x ++ s ++ y) = false /\
  adjacent sentence_end (one_of " ,") (x ++ s ++ y) = false /\
  triple hangul sentence_end hangul (x ++ s ++ y) = false ->
  tidy s.
Proof.
  intros Hb (H2 & H3 & H4 & H5 & H6 & H7).
  rewrite !existsb_app in H2.
  apply orb_false_iff in H2. destruct H2 as [_ H2].
  apply orb_false_iff in H2. destruct H2 as [H2 _].
  constructor; auto;
    repeat match goal with
           | H : adjacent _ _ (_ ++ _) = false |- _ =>
             apply adjacent_app_false in H; destruct H
           | H : triple _ _ _ (_ ++ _) = false |- _ =>
             apply triple_app_false in H; destruct H
           end; assumption.
Qed.

(** The pieces of a line that are emitted. *)
Lemma bySentence_line_piece line s :
  In s (bySentence_line line) ->
  kept s = true /\ no_break s = true /\
  exists x y, rewrites line = x ++ s ++ y.
Proof.
  intros Hin. rewrite bySentence_line_eq in Hin.
  apply filter_In in Hin. destruct Hin as [Hin Hk].
  destruct (@splitlines_pieces (length (rewrites line)) (rewrites line) []
                               (le_n _) eq_refl s Hin) as [Hb (x & y & E)].
  cbn [rev app] in E. split; [exact Hk|]. split; [exact Hb|].
  exists x, y. exact E.
Qed.

End SplitFacts.

Module DotFacts.
Import ReFacts SubFacts SearchFacts ScanFacts SegmentFacts NeedFacts SplitFacts.

(** Where the two patterns for the periods of initials can match. *)
Lemma rx_len_initial_dot_eq adv b a :
  rx_len initial_dot_re adv b a =
  match a with
  | c :: _ =>
    if behind [upper; is_char "."] b && (46 =? c)%Z then Some 1%nat else None
  | [] => None
  end.
Proof.
  unfold rx_len, initial_dot_re. rewrite rx_seq, rx_behind.
  change (rev [is_char "."; upper]) with [upper; is_char "."].
  change (lit ".") with (Cls (Z.eqb 46)).
  destruct (behind [upper; is_char "."] b); cbn [andb].
  - apply (rx_len_cls (Z.eqb 46) adv b a).
  - destruct a; reflexivity.
Qed.

Lemma rx_len_inner_dot_eq adv b a :
  rx_len inner_dot_re adv b a =
  match a with
  | c :: a' =>
    if q_hd upper b && (46 =? c)%Z && q_hd upper a' then Some 1%nat else None
  | [] => None
  end.
Proof.
  unfold rx_len, inner_dot_re. cbn [seqs]. rewrite rx_seq, rx_behind.
  cbn [rev app behind].
  change (lit ".") with (Cls (Z.eqb 46)).
  destruct b as [|u b]; cbn [q_hd andb]; [destruct a; reflexivity|].
  rewrite andb_true_r. destruct (upper u); cbn [andb]; [|destruct a; reflexivity].
  rewrite rx_seq, rx_cls. destruct a as [|c a']; [reflexivity|].
  destruct (46 =? c)%Z; cbn [andb]; [|reflexivity].
  rewrite rx_ahead, rx_cls. destruct a' as [|d a'']; [reflexivity|]. cbn [q_hd].
  destruct (upper d); [|reflexivity].
  unfold accept. cbn [length].
  replace (S (S (length a'')) - S (length a''))%nat with 1%nat by lia.
  rewrite andb_false_r. reflexivity.
Qed.

Lemma triple_mid p q r d u c :
  p d = true -> q u = true -> r c = true ->
  forall x y, triple p q r (x ++ d :: u :: c :: y) = true.
Proof.
  intros Hd Hu Hc. induction x as [|e x IH]; intros y.
  - cbn [app triple]. rewrite Hd, Hu, Hc. reflexivity.
  - cbn [app]. rewrite triple_cons, IH. apply orb_true_r.
Qed.

Lemma adjacent_mid p q d u :
  p d = true -> q u = true ->
  forall x y, adjacent p q (x ++ d :: u :: y) = true.
Proof.
  intros Hd Hu. induction x as [|e x IH]; intros y.
  - cbn [app adjacent]. rewrite Hd, Hu. reflexivity.
  - cbn [app]. rewrite adjacent_cons, IH. apply orb_true_r.
Qed.

Lemma rev_two (x : str) u d bb :
  rev x = u :: d :: bb -> x = rev bb ++ [d; u].
Proof.
  intros E. apply (f_equal (@rev Z)) in E. rewrite rev_involutive in E.
  rewrite E. cbn [rev]. rewrite <- !app_assoc. reflexivity.
Qed.

Lemma rev_one (x : str) u bb : rev x = u :: bb -> x = rev bb ++ [u].
Proof.
  intros E. apply (f_equal (@rev Z)) in E. rewrite rev_involutive in E.
  rewrite E. reflexivity.
Qed.

(** Without a period between a period-capital pair and a capital
    (".U.") or between two capitals ("U.U") nothing is deleted. *)
Lemma sub_dots_quiet s :
  triple (Z.eqb 46) upper (Z.eqb 46) s = false ->
  triple upper (Z.eqb 46) upper s = false ->
  sub initial_dot_re "" s = s /\ sub inner_dot_re "" s = s.
Proof.
  intros T1 T2. split; apply sub_scan_no_match; intros x y E;
    rewrite app_nil_r.
  - rewrite rx_len_initial_dot_eq. destruct y as [|c y]; [reflexivity|].
    destruct (46 =? c)%Z eqn:Ec; [|rewrite andb_false_r; reflexivity].
    destruct (rev x) as [|u [|d bb]] eqn:Er; cbn [behind andb];
      try rewrite andb_false_r; try reflexivity.
    destruct (upper u) eqn:Eu; [|reflexivity].
    unfold is_char. change (chr ".") with 46%Z.
    destruct (d =? 46)%Z eqn:Ed; [|reflexivity].
    exfalso. apply rev_two in Er. subst x s. rewrite <- app_assoc in T1.
    cbn [app] in T1.
    assert (Hd : (46 =? d)%Z = true) by (rewrite Z.eqb_sym; exact Ed).
    rewrite (@triple_mid (Z.eqb 46) upper (Z.eqb 46) d u c Hd Eu Ec) in T1.
    discriminate.
  - rewrite rx_len_inner_dot_eq. destruct y as [|c y]; [reflexivity|].
    destruct (46 =? c)%Z eqn:Ec; [|rewrite andb_false_r; reflexivity].
    destruct (q_hd upper y) eqn:Ey; [|rewrite andb_false_r; reflexivity].
    destruct (rev x) as [|u bb] eqn:Er; [reflexivity|]. cbn [q_hd].
    destruct (upper u) eqn:Eu; [|reflexivity].
    exfalso. apply rev_one in Er. subst x s. rewrite <- app_assoc in T2.
    cbn [app] in T2. destruct y as [|w y]; [discriminate|]. cbn [q_hd] in Ey.
    rewrite (@triple_mid upper (Z.eqb 46) upper u c w Eu Ec Ey) in T2.
    discriminate.
Qed.

Lemma rewrites_quiet line :
  triple (Z.eqb 46) upper (Z.eqb 46) (flat_map ellipsis line) = false ->
  triple upper (Z.eqb 46) upper (flat_map ellipsis line) = false ->
  rewrites line = direct line.
Proof.
  intros T1 T2. rewrite rewrites_undotted. unfold undotted, direct.
  destruct (sub_dots_quiet _ T1 T2) as [-> ->]. reflexivity.
Qed.

(** Classes. *)
Lemma sentence_end_spec c :
  sentence_end c = true <-> c = 46%Z \/ c = 63%Z \/ c = 33%Z.
Proof.
  unfold sentence_end, one_of. change (utf8 ".?!") with [46%Z; 63%Z; 33%Z].
  cbn [existsb]. rewrite !orb_true_iff, !Z.eqb_eq. intuition discriminate.
Qed.

Lemma mark_false c :
  mark c = false ->
  sentence_end c = false /\ c <> 46%Z /\ c <> 63%Z /\ c <> 33%Z /\ c <> 8230%Z.
Proof.
  unfold mark. intros H. apply orb_false_iff in H. destruct H as [H1 H2].
  apply Z.eqb_neq in H2. split; [exact H1|].
  repeat split; try exact H2; intros ->; discriminate.
Qed.

Lemma existsb_weaken (p q : Z -> bool) (s : str) :
  (forall c, p c = true -> q c = true) ->
  existsb q s = false -> existsb p s = false.
Proof.
  intros H Hq. apply existsb_false_In. intros x Hx.
  pose proof (proj1 (existsb_false_In q s) Hq x Hx) as E.
  destruct (p x) eqn:Ep; [|reflexivity]. rewrite (H x Ep) in E. discriminate.
Qed.

Lemma calm_char k s :
  mark k = true -> existsb mark s = false -> existsb (Z.eqb k) s = false.
Proof.
  intros Hk. apply existsb_weaken. intros c Hc. apply Z.eqb_eq in Hc.
  subst c. exact Hk.
Qed.

Lemma calm_sentence_end s :
  existsb mark s = false -> existsb sentence_end s = false.
Proof.
  apply existsb_weaken. intros c Hc. unfold mark. rewrite Hc. reflexivity.
Qed.

(** Pairs and triples in a text whose first part holds no character of
    the class that a pair or triple starts with, or runs through. *)
Lemma adjacent_none p q (s : str) : existsb p s = false -> adjacent p q s = false.
Proof.
  induction s as [|c s IH]; intros H; [reflexivity|].
  cbn [existsb] in H. apply orb_false_iff in H. destruct H as [Hc H].
  rewrite adjacent_cons, Hc, (IH H). reflexivity.
Qed.

Lemma adjacent_skip p q (a s : str) :
  existsb p a = false -> adjacent p q (a ++ s) = adjacent p q s.
Proof.
  induction a as [|c a IH]; intros H; [reflexivity|].
  cbn [existsb] in H. apply orb_false_iff in H. destruct H as [Hc H].
  cbn [app]. rewrite adjacent_cons, Hc, (IH H). reflexivity.
Qed.

Lemma triple_none_p p q r (s : str) :
  existsb p s = false -> triple p q r s = false.
Proof.
  induction s as [|c s IH]; intros H; [reflexivity|].
  cbn [existsb] in H. apply orb_false_iff in H. destruct H as [Hc H].
  rewrite triple_cons, Hc, (IH H). reflexivity.
Qed.

Lemma triple_none_q p q r (s : str) :
  existsb q s = false -> triple p q r s = false.
Proof.
  induction s as [|c s IH]; intros H; [reflexivity|].
  cbn [existsb] in H. apply orb_false_iff in H. destruct H as [Hc H].
  rewrite triple_cons, (IH H), orb_false_r.
  destruct s as [|v s]; [apply andb_false_r|].
  cbn [existsb] in H. apply orb_false_iff in H. destruct H as [Hv _].
  rewrite t2_cons, Hv. apply andb_false_r.
Qed.

Lemma triple_skip_p p q r (a s : str) :
  existsb p a = false -> triple p q r (a ++ s) = triple p q r s.
Proof.
  induction a as [|c a IH]; intros H; [reflexivity|].
  cbn [existsb] in H. apply orb_false_iff in H. destruct H as [Hc H].
  cbn [app]. rewrite triple_cons, Hc, (IH H). reflexivity.
Qed.

Lemma triple_skip_q p q r (a s : str) :
  existsb q a = false -> t2 q r s = false ->
  triple p q r (a ++ s) = triple p q r s.
Proof.
  intros Ha Hs. induction a as [|c a IH]; [reflexivity|].
  cbn [existsb] in Ha. apply orb_false_iff in Ha. destruct Ha as [Hc Ha].
  cbn [app]. rewrite triple_cons, (IH Ha).
  replace (t2 q r (a ++ s)) with false; [rewrite andb_false_r; reflexivity|].
  destruct a as [|v a]; [symmetry; exact Hs|].
  cbn [existsb] in Ha. apply orb_false_iff in Ha. destruct Ha as [Hv _].
  cbn [app]. rewrite t2_cons, Hv. reflexivity.
Qed.

(** The two splitting steps pass over text without marks. *)
Lemma break_after_none :
  forall a prev,
    existsb sentence_end a = false -> sentence_end prev = false ->
    break_after prev a = a.
Proof.
  intros a prev Ha Hp. apply break_after_id.
  rewrite adjacent_cons, Hp. apply adjacent_none. exact Ha.
Qed.

Lemma break_after_skip :
  forall a prev s,
    existsb sentence_end a = false -> sentence_end prev = false ->
    exists prev', sentence_end prev' = false /\
                  break_after prev (a ++ s) = a ++ break_after prev' s.
Proof.
  induction a as [|c a IH]; intros prev s Ha Hp.
  - exists prev. auto.
  - cbn [existsb] in Ha. apply orb_false_iff in Ha. destruct Ha as [Hc Ha].
    destruct (IH c s Ha Hc) as (prev' & Hp' & E).
    exists prev'. split; [exact Hp'|].
    cbn [app break_after]. rewrite Hp, E. reflexivity.
Qed.

Lemma run_on_none :
  forall a prev, existsb sentence_end a = false -> run_on prev a = a.
Proof.
  induction a as [|c a IH]; intros prev Ha; [reflexivity|].
  cbn [existsb] in Ha. apply orb_false_iff in Ha. destruct Ha as [Hc Ha].
  cbn [run_on]. rewrite Hc, andb_false_r. cbn [andb app].
  rewrite (IH c Ha). reflexivity.
Qed.

Lemma run_on_skip :
  forall a prev s,
    existsb sentence_end a = false ->
    exists prev', run_on prev (a ++ s) = a ++ run_on prev' s.
Proof.
  induction a as [|c a IH]; intros prev s Ha.
  - exists prev. reflexivity.
  - cbn [existsb] in Ha. apply orb_false_iff in Ha. destruct Ha as [Hc Ha].
    destruct (IH c s Ha) as (prev' & E). exists prev'.
    cbn [app run_on]. rewrite Hc, andb_false_r. cbn [andb app].
    rewrite E. reflexivity.
Qed.

(** A line without mark is left as it is by the eight substitutions. *)
Lemma rewrites_calm line : existsb mark line = false -> rewrites line = line.
Proof.
  intros H.
  assert (He : flat_map ellipsis line = line).
  { apply flat_map_ellipsis_id. apply (calm_char 8230 line eq_refl H). }
  pose proof (calm_char 46 line eq_refl H) as H46.
  pose proof (calm_char 63 line eq_refl H) as H63.
  pose proof (calm_char 33 line eq_refl H) as H33.
  pose proof (calm_sentence_end line H) as Hs.
  rewrite rewrites_quiet; rewrite ?He.
  - unfold direct. rewrite He.
    rewrite (proj1 (squash_id 46 line)) by (apply adjacent_none; exact H46).
    rewrite (proj1 (squash_id 63 line)) by (apply adjacent_none; exact H63).
    rewrite (proj1 (squash_id 33 line)) by (apply adjacent_none; exact H33).
    rewrite break_after_none by (exact Hs || reflexivity).
    apply run_on_none. exact Hs.
  - apply triple_none_p. exact H46.
  - apply triple_none_q. exact H46.
Qed.

(** Splitting at one line feed. *)
Lemma no_break_app x y :
  no_break (x ++ y) = no_break x && no_break y.
Proof. unfold no_break. apply forallb_app. Qed.

Lemma splitlines_two :
  forall u cur v,
    no_break u = true -> no_break v = true -> v <> [] ->
    splitlines_from cur (u ++ 10%Z :: v) = [rev cur ++ u; v].
Proof.
  induction u as [|c u IH]; intros cur v Hu Hv Hne.
  - cbn [app splitlines_from]. change (is_linebreak 10) with true. cbv iota.
    rewrite app_nil_r. destruct v as [|d v]; [contradiction|].
    change ((10 =? 13)%Z && (d =? 10)%Z) with false. cbv iota.
    rewrite (@splitlines_single_from (d :: v) [] Hv (or_intror Hne)).
    reflexivity.
  - cbn [app splitlines_from]. unfold no_break, nots in Hu. cbn [forallb] in Hu.
    apply andb_true_iff in Hu. destruct Hu as [Hc Hu].
    destruct (is_linebreak c); [discriminate|].
    rewrite IH by assumption. cbn [rev]. rewrite <- app_assoc. reflexivity.
Qed.

Lemma kept_with c (s : str) : In c s -> is_space c = false -> kept s = true.
Proof.
  intros Hin Hc. unfold kept. destruct s as [|d s]; [contradiction|].
  rewrite andb_true_r. unfold isspace.
  destruct (forallb is_space (d :: s)) eqn:E; [|reflexivity].
  rewrite (proj1 (forallb_forall _ _) E c Hin) in Hc. discriminate.
Qed.

Lemma hangul_not_space h : hangul h = true -> is_space h = false.
Proof.
  intros H. apply CharFacts.hangul_spec in H.
  unfold is_space, in_range.
  repeat match goal with
         | |- context [(?a <=? ?b)%Z] => destruct (Z.leb_spec a b); try lia
         | |- context [(?a =? ?b)%Z] => destruct (Z.eqb_spec a b); try lia
         end; reflexivity.
Qed.

Lemma sentence_end_not_space m : sentence_end m = true -> is_space m = false.
Proof.
  intros H. apply sentence_end_spec in H. destruct H as [->|[->| ->]]; reflexivity.
Qed.

Lemma sentence_end_no_break m : sentence_end m = true -> is_linebreak m = false.
Proof.
  intros H. apply sentence_end_spec in H. destruct H as [->|[->| ->]]; reflexivity.
Qed.

Lemma hangul_no_break h : hangul h = true -> is_linebreak h = false.
Proof.
  intros H. apply CharFacts.hangul_spec in H.
  unfold is_linebreak, in_range.
  repeat match goal with
         | |- context [(?a <=? ?b)%Z] => destruct (Z.leb_spec a b); try lia
         | |- context [(?a =? ?b)%Z] => destruct (Z.eqb_spec a b); try lia
         end; reflexivity.
Qed.

Lemma hangul_not_mark h : hangul h = true -> mark h = false.
Proof.
  intros H. unfold mark. rewrite (hangul_not_sentence_end h H).
  apply CharFacts.hangul_spec in H. cbn [orb]. apply Z.eqb_neq. lia.
Qed.

Lemma sep_spec c : one_of " ," c = true <-> c = 32%Z \/ c = 44%Z.
Proof.
  unfold one_of. change (utf8 " ,") with [32%Z; 44%Z]. cbn [existsb].
  rewrite !orb_true_iff, !Z.eqb_eq. intuition discriminate.
Qed.

Lemma hangul_not_sep h : hangul h = true -> one_of " ," h = false.
Proof.
  intros H. destruct (one_of " ," h) eqn:E; [|reflexivity].
  apply sep_spec in E. apply CharFacts.hangul_spec in H. lia.
Qed.

End DotFacts.

Module CutFacts.
Import ReFacts SubFacts SearchFacts ScanFacts SegmentFacts NeedFacts SplitFacts.
Import DotFacts AbcFacts.

Lemma sentence_end_not_upper m : sentence_end m = true -> upper m = false.
Proof.
  intros H. apply sentence_end_spec in H. destruct H as [->|[->| ->]]; reflexivity.
Qed.

Lemma sentence_end_not_sep m : sentence_end m = true -> one_of " ," m = false.
Proof.
  intros H. apply sentence_end_spec in H. destruct H as [->|[->| ->]]; reflexivity.
Qed.

Lemma sep_not_mark c : one_of " ," c = true -> mark c = false.
Proof. intros H. apply sep_spec in H. destruct H as [->| ->]; reflexivity. Qed.

Lemma sep_not_upper c : one_of " ," c = true -> upper c = false.
Proof. intros H. apply sep_spec in H. destruct H as [->| ->]; reflexivity. Qed.

Lemma not_mark_char k c : mark k = true -> mark c = false -> (k =? c)%Z = false.
Proof.
  intros Hk Hc. apply Z.eqb_neq. intros ->. congruence.
Qed.

Lemma splitlines_trailing :
  forall u cur,
    no_break u = true -> (cur <> [] \/ u <> []) ->
    splitlines_from cur (u ++ [10%Z]) = [rev cur ++ u].
Proof.
  induction u as [|c u IH]; intros cur Hu Hne.
  - cbn [app splitlines_from]. change (is_linebreak 10) with true. cbv iota.
    rewrite app_nil_r. reflexivity.
  - cbn [app splitlines_from]. unfold no_break, nots in Hu. cbn [forallb] in Hu.
    apply andb_true_iff in Hu. destruct Hu as [Hc Hu].
    destruct (is_linebreak c); [discriminate|].
    rewrite IH; [|exact Hu|left; discriminate].
    cbn [rev]. rewrite <- app_assoc. reflexivity.
Qed.

(** A line cut in two by one line feed. *)
Lemma pieces_of_two (u v : str) c :
  no_break u = true -> no_break v = true -> In c u -> is_space c = false ->
  filter kept (splitlines (u ++ 10%Z :: v)) = u :: (if kept v then [v] else []).
Proof.
  intros Hu Hv Hc Hs. unfold splitlines.
  pose proof (@kept_with c u Hc Hs) as Hk.
  destruct v as [|d v].
  - rewrite splitlines_trailing; [|exact Hu|right; intros ->; contradiction].
    cbn [rev app filter]. rewrite Hk. reflexivity.
  - rewrite splitlines_two; [|exact Hu|exact Hv|discriminate].
    cbn [rev app filter]. rewrite Hk. reflexivity.
Qed.

Lemma bySentence_one line : bySentence [line] = bySentence_line line.
Proof. unfold bySentence. cbn [flat_map]. apply app_nil_r. Qed.

(** The line of a run-on sentence. *)
Section RunOn.
Variables a b : str.
Variables h m h' : Z.
Hypothesis calm_a : existsb mark a = false.
Hypothesis calm_b : existsb mark b = false.
Hypothesis Hh : hangul h = true.
Hypothesis Hm : sentence_end m = true.
Hypothesis Hh' : hangul h' = true.

Lemma run_on_chars k :
  mark k = true ->
  (k =? h)%Z = false /\ (k =? h')%Z = false /\
  existsb (Z.eqb k) a = false /\ existsb (Z.eqb k) b = false.
Proof.
  intros Hk. repeat split.
  - apply not_mark_char; [exact Hk|apply hangul_not_mark; exact Hh].
  - apply not_mark_char; [exact Hk|apply hangul_not_mark; exact Hh'].
  - apply calm_char; assumption.
  - apply calm_char; assumption.
Qed.

Lemma run_on_no_double k :
  mark k = true ->
  adjacent (Z.eqb k) (Z.eqb k) (a ++ h :: m :: h' :: b) = false.
Proof.
  intros Hk. destruct (run_on_chars k Hk) as (E1 & E2 & E3 & E4).
  rewrite adjacent_skip by exact E3.
  rewrite !adjacent_cons. cbn [q_hd]. rewrite E1, E2.
  rewrite (adjacent_none _ _ _ E4), andb_false_r. reflexivity.
Qed.

Lemma run_on_rewrites :
  rewrites (a ++ h :: m :: h' :: b) = a ++ h :: 46%Z :: 10%Z :: h' :: b.
Proof.
  set (X := a ++ h :: m :: h' :: b).
  destruct (run_on_chars 46 eq_refl) as (D1 & D2 & D3 & D4).
  pose proof (hangul_not_upper h Hh) as Uh.
  pose proof (hangul_not_upper h' Hh') as Uh'.
  pose proof (sentence_end_not_upper m Hm) as Um.
  pose proof (hangul_not_sentence_end h Hh) as Sh.
  pose proof (hangul_not_sentence_end h' Hh') as Sh'.
  pose proof (calm_sentence_end a calm_a) as Sa.
  pose proof (calm_sentence_end b calm_b) as Sb.
  assert (He : flat_map ellipsis X = X).
  { apply flat_map_ellipsis_id. unfold X.
    destruct (run_on_chars 8230 eq_refl) as (E1 & E2 & E3 & E4).
    rewrite existsb_app, E3. cbn [existsb orb]. rewrite E1, E2, E4.
    cbn [orb]. rewrite orb_false_r.
    apply sentence_end_spec in Hm. destruct Hm as [->|[->| ->]]; reflexivity. }
  rewrite rewrites_quiet; rewrite ?He.
  - unfold direct. rewrite He.
    rewrite (proj1 (squash_id 46 X)) by (apply run_on_no_double; reflexivity).
    rewrite (proj1 (squash_id 63 X)) by (apply run_on_no_double; reflexivity).
    rewrite (proj1 (squash_id 33 X)) by (apply run_on_no_double; reflexivity).
    rewrite break_after_id.
    + unfold X.
      destruct (@run_on_skip a 0%Z (h :: m :: h' :: b) Sa) as (prev' & ->).
      f_equal. cbn [run_on]. rewrite Sh, Sh', Hh, Hm, Hh'.
      rewrite !andb_false_r. cbn [andb app].
      rewrite (run_on_none b h' Sb). reflexivity.
    + rewrite adjacent_cons. change (sentence_end 0) with false. cbn [andb orb].
      unfold X. rewrite adjacent_skip by exact Sa.
      rewrite !adjacent_cons. cbn [q_hd].
      rewrite Sh, Sh', (hangul_not_sep h' Hh'), (adjacent_none _ _ _ Sb).
      rewrite andb_false_r. reflexivity.
  - unfold X. rewrite triple_skip_p by exact D3.
    rewrite !triple_cons, !t2_cons. cbn [q_hd].
    rewrite D1, D2, Uh', (triple_none_p _ _ _ _ D4).
    rewrite !andb_false_r. reflexivity.
  - unfold X. rewrite triple_skip_q; [|exact D3|rewrite t2_cons, D1; reflexivity].
    rewrite !triple_cons. rewrite Uh, Um, Uh', (triple_none_q _ _ _ _ D4).
    reflexivity.
Qed.

End RunOn.

(** The line of a sentence followed by a space or a comma. *)
Section BreakAfter.
Variables a b : str.
Variables m c : Z.
Hypothesis calm_a : existsb mark a = false.
Hypothesis calm_b : existsb mark b = false.
Hypothesis Hm : sentence_end m = true.
Hypothesis Hc : one_of " ," c = true.

Lemma break_chars k :
  mark k = true ->
  (k =? c)%Z = false /\
  existsb (Z.eqb k) a = false /\ existsb (Z.eqb k) b = false.
Proof.
  intros Hk. repeat split.
  - apply not_mark_char; [exact Hk|apply sep_not_mark; exact Hc].
  - apply calm_char; assumption.
  - apply calm_char; assumption.
Qed.

Lemma break_no_double k :
  mark k = true ->
  adjacent (Z.eqb k) (Z.eqb k) (a ++ m :: c :: b) = false.
Proof.
  intros Hk. destruct (break_chars k Hk) as (E1 & E2 & E3).
  rewrite adjacent_skip by exact E2.
  rewrite !adjacent_cons. cbn [q_hd]. rewrite E1.
  rewrite (adjacent_none _ _ _ E3), andb_false_r. reflexivity.
Qed.

Lemma break_rewrites :
  rewrites (a ++ m :: c :: b) = a ++ m :: 10%Z :: b.
Proof.
  set (X := a ++ m :: c :: b).
  destruct (break_chars 46 eq_refl) as (D1 & D2 & D3).
  pose proof (sep_not_upper c Hc) as Uc.
  pose proof (sentence_end_not_upper m Hm) as Um.
  pose proof (calm_sentence_end a calm_a) as Sa.
  pose proof (calm_sentence_end b calm_b) as Sb.
  assert (Sc : sentence_end c = false).
  { pose proof (sep_not_mark c Hc) as E. unfold mark in E.
    apply orb_false_iff in E. apply E. }
  assert (He : flat_map ellipsis X = X).
  { apply flat_map_ellipsis_id. unfold X.
    destruct (break_chars 8230 eq_refl) as (E1 & E2 & E3).
    rewrite existsb_app, E2. cbn [existsb orb]. rewrite E1, E3.
    rewrite orb_false_r.
    apply sentence_end_spec in Hm. destruct Hm as [->|[->| ->]]; reflexivity. }
  rewrite rewrites_quiet; rewrite ?He.
  - unfold direct. rewrite He.
    rewrite (proj1 (squash_id 46 X)) by (apply break_no_double; reflexivity).
    rewrite (proj1 (squash_id 63 X)) by (apply break_no_double; reflexivity).
    rewrite (proj1 (squash_id 33 X)) by (apply break_no_double; reflexivity).
    unfold X.
    destruct (@break_after_skip a 0%Z (m :: c :: b) Sa eq_refl)
      as (prev' & Hp' & ->).
    cbn [break_after]. rewrite Hp', Hm, Hc. cbn [andb].
    rewrite (break_after_none b c Sb Sc).
    destruct (@run_on_skip a 0%Z (m :: 10%Z :: b) Sa) as (prev'' & ->).
    f_equal. cbn [run_on]. change (hangul 10) with false.
    change (sentence_end 10) with false.
    rewrite !andb_false_r. cbn [andb app].
    rewrite (run_on_none b 10%Z Sb). reflexivity.
  - unfold X. rewrite triple_skip_p by exact D2.
    rewrite !triple_cons, !t2_cons. cbn [q_hd].
    rewrite D1, Uc, (triple_none_p _ _ _ _ D3).
    rewrite !andb_false_r. reflexivity.
  - unfold X. rewrite triple_skip_q;
      [|exact D2|rewrite t2_cons; cbn [q_hd]; rewrite Uc; apply andb_false_r].
    rewrite !triple_cons. rewrite Um, Uc, (triple_none_q _ _ _ _ D3).
    reflexivity.
Qed.

End BreakAfter.

(** Capitals and periods. *)
Lemma ellipsis_adjacent s :
  adjacent upper (Z.eqb 46) (flat_map ellipsis s) = adjacent upper dotlike s.
Proof.
  assert (Hq : forall t, q_hd (Z.eqb 46) (flat_map ellipsis t) = q_hd dotlike t).
  { intros [|d t]; [reflexivity|]. cbn [flat_map q_hd]. unfold ellipsis, dotlike.
    destruct (Z.eqb_spec 8230 d) as [<-|Hne]; [reflexivity|].
    cbn [app q_hd]. rewrite (Z.eqb_sym d 46).
    rewrite (proj2 (Z.eqb_neq d 8230)) by auto. rewrite orb_false_r. reflexivity. }
  induction s as [|c s IH]; [reflexivity|].
  cbn [flat_map]. unfold ellipsis at 1.
  destruct (Z.eqb_spec 8230 c) as [<-|Hne]; cbn [app];
    rewrite !adjacent_cons, Hq, IH; reflexivity.
Qed.

Lemma triple_adjacent_l p q r (s : str) :
  triple p q r s = true -> adjacent p q s = true.
Proof.
  induction s as [|u s IH]; [discriminate|].
  rewrite triple_cons, adjacent_cons. intros H.
  apply orb_true_iff in H. destruct H as [H|H].
  - apply andb_true_iff in H. destruct H as [Hu H].
    destruct s as [|v [|w s]]; try discriminate. cbn [t2] in H.
    apply andb_true_iff in H. destruct H as [Hv _].
    cbn [q_hd]. rewrite Hu, Hv. reflexivity.
  - rewrite (IH H). apply orb_true_r.
Qed.

Lemma triple_adjacent_r p q r (s : str) :
  triple p q r s = true -> adjacent q r s = true.
Proof.
  induction s as [|u s IH]; [discriminate|].
  rewrite triple_cons. intros H.
  apply orb_true_iff in H. destruct H as [H|H].
  - apply andb_true_iff in H. destruct H as [_ H].
    destruct s as [|v [|w s]]; try discriminate. cbn [t2] in H.
    apply andb_true_iff in H. destruct H as [Hv Hw].
    apply adjacent_tail. rewrite adjacent_cons. cbn [q_hd].
    rewrite Hv, Hw. reflexivity.
  - apply adjacent_tail. apply IH. exact H.
Qed.

Lemma rewrites_no_initials line :
  adjacent upper dotlike line = false -> rewrites line = direct line.
Proof.
  intros H. rewrite <- ellipsis_adjacent in H.
  apply rewrites_quiet.
  - destruct (triple _ _ _ _) eqn:E; [|reflexivity].
    apply triple_adjacent_r in E. congruence.
  - destruct (triple _ _ _ _) eqn:E; [|reflexivity].
    apply triple_adjacent_l in E. congruence.
Qed.

Lemma direct_no_initials line :
  adjacent upper dotlike line = false ->
  adjacent upper (Z.eqb 46) (direct line) = false.
Proof.
  intros H. rewrite <- ellipsis_adjacent in H. unfold direct.
  apply run_on_keeps; auto; [exact hangul_not_upper|].
  apply break_after_keeps; auto.
  do 3 apply squash_keeps. exact H.
Qed.

Lemma dotlike_plain s :
  existsb (Z.eqb 8230) s = false ->
  adjacent upper dotlike s = adjacent upper (Z.eqb 46) s.
Proof.
  intros H. rewrite <- ellipsis_adjacent.
  rewrite flat_map_ellipsis_id by exact H. reflexivity.
Qed.

(** A tidy line in which no period follows a capital is emitted as it
    is. *)
Lemma bySentence_line_tidy s :
  tidy s -> kept s = true -> adjacent upper (Z.eqb 46) s = false ->
  bySentence_line s = [s].
Proof.
  intros [H1 H2 H3 H4 H5 H6 H7] Hk Hu. rewrite bySentence_line_eq.
  rewrite rewrites_no_initials by (rewrite dotlike_plain; assumption).
  unfold direct. rewrite flat_map_ellipsis_id by exact H2.
  rewrite (proj1 (squash_id 46 s) H3).
  rewrite (proj1 (squash_id 63 s) H4).
  rewrite (proj1 (squash_id 33 s) H5).
  rewrite break_after_id by (rewrite adjacent_cons, H6; reflexivity).
  rewrite run_on_id by (rewrite triple_cons, H7; reflexivity).
  destruct (kept_spec _ Hk) as [Hne _].
  unfold splitlines. rewrite splitlines_single_from; [|exact H1|right; exact Hne].
  cbn [rev app filter]. rewrite Hk. reflexivity.
Qed.

End CutFacts.

Module CleanFacts.
Import ReFacts SubFacts SearchFacts ScanFacts CharFacts LoopFacts NeedFacts.

Lemma korean_or_space_spec c :
  korean_or_space c = true ->
  (44032 <= c <= 55203 \/ 9 <= c <= 13 \/ 28 <= c <= 32 \/ c = 133 \/ c = 160
   \/ c = 5760 \/ 8192 <= c <= 8202 \/ c = 8232 \/ c = 8233 \/ c = 8239
   \/ c = 8287 \/ c = 12288)%Z.
Proof.
  unfold korean_or_space. intros H. apply orb_true_iff in H.
  destruct H as [H|H]; [left; apply hangul_spec; exact H|right].
  unfold is_space, in_range in H.
  rewrite !orb_true_iff, !andb_true_iff, !Z.leb_le, !Z.eqb_eq in H. lia.
Qed.

Lemma korean_text_spec c :
  korean_text c = true ->
  (44032 <= c <= 55203 \/ 9 <= c <= 13 \/ 28 <= c <= 32 \/ c = 133 \/ c = 160
   \/ c = 5760 \/ 8192 <= c <= 8202 \/ c = 8232 \/ c = 8233 \/ c = 8239
   \/ c = 8287 \/ c = 12288 \/ c = 61 \/ c = 59)%Z.
Proof.
  unfold korean_text. intros H. rewrite !orb_true_iff, !Z.eqb_eq in H.
  destruct H as [[H|H]|H]; [apply korean_or_space_spec in H|..]; lia.
Qed.

(** Evaluation of the literals in a hypothesis about a class. *)
Ltac eval_lits H :=
  repeat match type of H with
         | context [chr ?s] =>
           let v := eval vm_compute in (chr s) in change (chr s) with v in H
         | context [utf8 ?s] =>
           let v := eval vm_compute in (utf8 s) in change (utf8 s) with v in H
         end.

Ltac class_facts H :=
  cbv beta delta [closing opening quote blank host_char tld_char hanja
                  is_char one_of latin upper lower rng in_range nots
                  sentence_end jamo_read] in H;
  eval_lits H; cbn [existsb] in H; rewrite ?orb_false_r in H;
  rewrite ?orb_true_iff, ?andb_true_iff, ?Z.leb_le, ?Z.eqb_eq in H.

Lemma sub_star_plain P p s :
  (forall c, p c = true -> P c = true) -> existsb P s = false ->
  sub (star (Cls p)) "" s = s.
Proof.
  intros H Hs. rewrite sub_star_cls.
  induction s as [|c s IH]; [reflexivity|].
  cbn [existsb] in Hs. apply orb_false_iff in Hs. destruct Hs as [Hc Hs].
  cbn [filter]. unfold nots at 1. destruct (p c) eqn:E.
  - rewrite (H c E) in Hc. discriminate.
  - cbn [negb]. rewrite (IH Hs). reflexivity.
Qed.

Lemma rescan_loop_needs P r rw s :
  needs P r -> existsb P s = false -> rescan_loop r rw s = Ret s.
Proof.
  intros Hr Hs. rewrite rescan_loop_unfold.
  rewrite (@finditer_needs P r s Hr Hs). reflexivity.
Qed.

Lemma existsb_nots (p : Z -> bool) (s : str) :
  forallb p s = true -> existsb (nots p) s = false.
Proof.
  intros H. apply SegmentFacts.existsb_false_In. intros x Hx. unfold nots.
  rewrite (proj1 (forallb_forall _ _) H x Hx). reflexivity.
Qed.

End CleanFacts.

Module PlainFacts.
Import ReFacts SubFacts SearchFacts ScanFacts CharFacts LoopFacts NeedFacts.
Import CleanFacts.

(** Unfolding a pattern down to classes, sequences, alternatives and
    repetitions. *)
Ltac open_re :=
  cbv beta delta [number_bullet_re number_re example_re letter_bullet_re
                  paren_re url_re reporter_re title_re email_re glued_latin_re
                  tilde_re ABC_re lit];
  repeat match goal with
         | |- context [utf8 ?s] =>
           let v := eval vm_compute in (utf8 s) in change (utf8 s) with v
         end;
  cbv beta iota delta [seqs alts map plus].

Ltac needs_by tac :=
  lazymatch goal with
  | |- needs _ (Cls _) => apply needs_cls; tac
  | |- needs _ (Rep _ (S _) _ _) => apply needs_rep; needs_by tac
  | |- needs _ (Alt _ _) => apply needs_alt; needs_by tac
  | |- needs _ (Seq _ _) =>
    first [ solve [apply needs_seq_l; needs_by tac]
          | solve [apply needs_seq_r; needs_by tac] ]
  end.

Section Plain.
Variable decimal : Z -> option Z.
Variable isalnum : Z -> bool.
Variable ok : Z -> bool.
Hypothesis ok_text : forall c, ok c = true -> korean_text c = true.
Hypothesis ok_dec : forall c, ok c = true -> decimal c = None.

Ltac ok_class :=
  let c := fresh "c" in let H := fresh "H" in let E := fresh "E" in
  intros c H; unfold nots; destruct (ok c) eqn:E; [exfalso|reflexivity];
  first [ solve [unfold digit in H; rewrite (ok_dec c E) in H; discriminate]
        | solve [apply ok_text in E; apply korean_text_spec in E;
                 class_facts H; lia] ].

Ltac ok_needs := open_re; needs_by ok_class.

Lemma needs_number_bullet : needs (nots ok) (number_bullet_re decimal).
Proof. ok_needs. Qed.

Lemma needs_number : needs (nots ok) (number_re decimal).
Proof. ok_needs. Qed.

Lemma needs_example : needs (nots ok) example_re.
Proof. ok_needs. Qed.

Lemma needs_letter_bullet : needs (nots ok) letter_bullet_re.
Proof. ok_needs. Qed.

Lemma needs_paren : needs (nots ok) paren_re.
Proof. ok_needs. Qed.

Lemma needs_url : needs (nots ok) url_re.
Proof. ok_needs. Qed.

Lemma needs_reporter : needs (nots ok) reporter_re.
Proof. ok_needs. Qed.

Lemma needs_title : needs (nots ok) title_re.
Proof. ok_needs. Qed.

Lemma needs_email : needs (nots ok) (email_re isalnum).
Proof. ok_needs. Qed.

Lemma needs_sharp : needs (nots ok) (lit "#").
Proof. ok_needs. Qed.

Lemma needs_glued : needs (nots ok) glued_latin_re.
Proof. ok_needs. Qed.

Lemma needs_middle_dot : needs (nots ok) (lit "·").
Proof. ok_needs. Qed.

Lemma needs_tilde : needs (nots ok) tilde_re.
Proof. ok_needs. Qed.

Lemma needs_arrow : needs (nots ok) (lit "→").
Proof. ok_needs. Qed.

Lemma needs_hanja : needs (nots ok) (plus (Cls hanja)).
Proof. ok_needs. Qed.

Lemma needs_ABC : needs (nots ok) ABC_re.
Proof. ok_needs. Qed.

Lemma needs_latin : needs (nots ok) (plus (Cls latin)).
Proof. ok_needs. Qed.

Lemma plain_dash c : one_of "ㅡ-" c = true -> nots ok c = true.
Proof. revert c. ok_class. Qed.

Lemma plain_quote c : quote c = true -> nots ok c = true.
Proof. revert c. ok_class. Qed.

Lemma plain_bracket c : one_of "[〈〉《》「」『』{}]" c = true -> nots ok c = true.
Proof. revert c. ok_class. Qed.

Lemma plain_jamo c : jamo_read c = true -> nots ok c = true.
Proof. revert c. ok_class. Qed.

End Plain.
End PlainFacts.

Module TextFacts.
Import ReFacts SubFacts SearchFacts ScanFacts CharFacts LoopFacts NeedFacts.
Import CleanFacts PlainFacts.

Lemma korean_or_space_text c : korean_or_space c = true -> korean_text c = true.
Proof. intros H. unfold korean_text. rewrite H. reflexivity. Qed.

Lemma to_line_feed_sub line :
  sub (Cls (one_of "=:;")) LF line = map to_line_feed line.
Proof.
  rewrite sub_cls. change (utf8 LF) with [10%Z].
  induction line as [|c l IH]; [reflexivity|].
  cbn [flat_map map]. rewrite IH. unfold to_line_feed.
  destruct (one_of "=:;" c); reflexivity.
Qed.

Lemma to_line_feed_korean c :
  korean_text c = true -> korean_or_space (to_line_feed c) = true.
Proof.
  intros H. unfold to_line_feed. destruct (one_of "=:;" c) eqn:E; [reflexivity|].
  unfold korean_text in H. rewrite !orb_true_iff in H.
  destruct H as [[H|H]|H]; [exact H| |];
    apply Z.eqb_eq in H; subst c; discriminate.
Qed.

Lemma to_line_feed_id c : korean_or_space c = true -> to_line_feed c = c.
Proof.
  intros H. unfold to_line_feed. destruct (one_of "=:;" c) eqn:E; [|reflexivity].
  apply korean_or_space_spec in H. class_facts E. lia.
Qed.

Lemma map_to_line_feed_id (s : str) :
  forallb korean_or_space s = true -> map to_line_feed s = s.
Proof.
  induction s as [|c s IH]; intros H; [reflexivity|].
  cbn [forallb] in H. apply andb_true_iff in H. destruct H as [Hc H].
  cbn [map]. rewrite (to_line_feed_id c Hc), (IH H). reflexivity.
Qed.

Lemma filter_all (p : Z -> bool) (s : str) :
  forallb p s = true -> filter p s = s.
Proof.
  induction s as [|c s IH]; intros H; [reflexivity|].
  cbn [forallb] in H. apply andb_true_iff in H. destruct H as [Hc H].
  cbn [filter]. rewrite Hc, (IH H). reflexivity.
Qed.

Section Text.
Variable decimal : Z -> option Z.
Variable isalnum : Z -> bool.
Variable ok : Z -> bool.
Hypothesis ok_text : forall c, ok c = true -> korean_text c = true.
Hypothesis ok_dec : forall c, ok c = true -> decimal c = None.

(** On a line of Korean text the deletions and the readers find
    nothing; only the separators are rewritten. *)
Lemma normalize_line_text line :
  forallb ok line = true ->
  normalize_line decimal isalnum line = Ret (map to_line_feed line).
Proof.
  intros H. pose proof (@existsb_nots ok line H) as H1.
  set (L := map to_line_feed line).
  assert (HL : forallb korean_or_space L = true).
  { unfold L. rewrite forallb_forall in *. intros x Hx.
    apply in_map_iff in Hx. destruct Hx as (c & <- & Hc).
    apply to_line_feed_korean, ok_text, H, Hc. }
  pose proof (@existsb_nots korean_or_space L HL) as H2.
  assert (T : forall c, korean_or_space c = true -> korean_text c = true)
    by exact korean_or_space_text.
  unfold normalize_line. cbv zeta.
  rewrite (@sub_needs (nots ok) (number_bullet_re decimal) "" line)
    by (try apply needs_number_bullet; auto).
  unfold readNumber.
  rewrite (@rescan_loop_needs (nots ok) (number_re decimal) _ line)
    by (try apply needs_number; auto).
  cbn [bind].
  rewrite (@sub_needs (nots ok) example_re "" line)
    by (try apply needs_example; auto).
  rewrite (@sub_needs (nots ok) letter_bullet_re "" line)
    by (try apply needs_letter_bullet; auto).
  rewrite (@sub_needs (nots ok) paren_re "" line)
    by (try apply needs_paren; auto).
  rewrite (@sub_needs (nots ok) url_re "" line)
    by (try apply needs_url; auto).
  unfold dash_re, quote_re, bracket_re.
  rewrite (@sub_star_plain (nots ok) _ line)
    by (try apply plain_dash; auto).
  rewrite (@sub_star_plain (nots ok) _ line)
    by (try apply plain_quote; auto).
  rewrite (@sub_needs (nots ok) reporter_re "" line)
    by (try apply needs_reporter; auto).
  rewrite (@sub_needs (nots ok) title_re "" line)
    by (try apply needs_title; auto).
  rewrite (@sub_star_plain (nots ok) _ line)
    by (try apply plain_bracket; auto).
  rewrite (@sub_needs (nots ok) (email_re isalnum) "" line)
    by (try apply needs_email; auto).
  rewrite (@sub_needs (nots ok) (lit "#") "" line)
    by (try apply needs_sharp; auto).
  rewrite (@sub_needs (nots ok) glued_latin_re "" line)
    by (try apply needs_glued; auto).
  rewrite to_line_feed_sub. fold L.
  rewrite (@sub_needs (nots korean_or_space) (lit "·") " " L)
    by (try apply needs_middle_dot; auto).
  rewrite (@sub_needs (nots korean_or_space) tilde_re " " L)
    by (try apply needs_tilde; auto).
  rewrite (@sub_needs (nots korean_or_space) (lit "→") " " L)
    by (try apply needs_arrow; auto).
  rewrite JamoFacts.readHangulLetter_plain
    by (apply (@DotFacts.existsb_weaken jamo_read (nots korean_or_space) L);
        [apply plain_jamo; auto|exact H2]).
  unfold readHanja.
  rewrite (@search_needs (nots korean_or_space) (plus (Cls hanja)) L)
    by (try apply needs_hanja; auto).
  cbn [bind]. unfold readABC.
  rewrite (@rescan_loop_needs (nots korean_or_space) ABC_re _ L)
    by (try apply needs_ABC; auto).
  cbn [bind]. unfold readAlphabet.
  rewrite (@rescan_loop_needs (nots korean_or_space) (plus (Cls latin)) _ L)
    by (try apply needs_latin; auto).
  cbn [bind]. rewrite removeNonHangul_filter, filter_all by exact HL.
  reflexivity.
Qed.

Lemma normalize_text corpus :
  Forall (fun line => forallb ok line = true) corpus ->
  normalize decimal isalnum corpus
  = Ret (filter kept (map (map to_line_feed) corpus)).
Proof.
  unfold normalize. induction corpus as [|line corpus IH]; intros H;
    [reflexivity|].
  inversion H as [|? ? Hl Hc]; subst. cbn [for_each map filter].
  rewrite (normalize_line_text line Hl). cbn [bind].
  rewrite (IH Hc). cbn [bind]. f_equal. unfold kept.
  destruct (map to_line_feed line) as [|c l] eqn:E.
  - rewrite andb_false_r. destruct (negb (isspace [])); reflexivity.
  - rewrite andb_true_r. destruct (negb (isspace (c :: l))); reflexivity.
Qed.

End Text.

Lemma ascii_decimal_text c : korean_text c = true -> ascii_decimal c = None.
Proof.
  intros H. apply korean_text_spec in H. unfold ascii_decimal, in_range.
  destruct (Z.leb_spec 48 c); [|reflexivity].
  destruct (Z.leb_spec c 57); [lia|reflexivity].
Qed.

(** The lines that [normalize] returns. *)
Lemma normalize_clean_lines decimal isalnum sv corpus body :
  run sv (normalize decimal isalnum corpus) = Some body ->
  Forall (fun l => forallb korean_or_space l = true /\ kept l = true) body.
Proof.
  apply normalize_kept. intros l H1 H2. split.
  - apply forallb_forall. intros c Hc.
    exact (proj1 (Forall_forall _ _) (removeNonHangul_clean l) c Hc).
  - unfold kept. rewrite H1. destruct (removeNonHangul l); [contradiction|].
    reflexivity.
Qed.

Lemma filter_kept_all (l : list str) :
  Forall (fun s => kept s = true) l -> filter kept l = l.
Proof.
  induction 1 as [|s l Hs _ IH]; [reflexivity|].
  cbn [filter]. rewrite Hs, IH. reflexivity.
Qed.

(** Every reader returning, every line is normalised. *)
Lemma run_readHanja sv line : exists out, run sv (readHanja line) = Some out.
Proof.
  unfold readHanja. destruct (search (plus (Cls hanja)) line);
    [|eexists; reflexivity].
  destruct (search (Seq (plus (Cls hangul)) (plus (Cls hanja))) line);
    eexists; reflexivity.
Qed.

Section Returns.
Variable decimal : Z -> option Z.
Variable isalnum : Z -> bool.
Variable sv : services.
Hypothesis decimal_ascii :
  forall c, (0 <= c < 128)%Z -> decimal c = ascii_decimal c.
Hypothesis decimal_hangul : forall c, hangul c = true -> decimal c = None.
Hypothesis reader_plain :
  forall n, forallb (nots (digit decimal)) (number_word sv n) = true
            /\ no_backslash (number_word sv n) = true.

Lemma run_readNumber line :
  exists out, run sv (readNumber decimal line) = Some out.
Proof.
  rewrite readNumber_unfold.
  destruct (Nat.ltb_spec 0 (tokens decimal line)); [|eexists; reflexivity].
  destruct (@for_range_number_any decimal decimal_ascii decimal_hangul sv
              reader_plain (tokens decimal line) line None (le_n _))
    as (out & tok & Hrun & _).
  exists out. rewrite run_bind. unfold readNumber_body. rewrite Hrun.
  reflexivity.
Qed.

Lemma run_normalize_line line :
  exists out, run sv (normalize_line decimal isalnum line) = Some out.
Proof.
  unfold normalize_line. cbv zeta.
  match goal with |- context [readNumber decimal ?l] =>
    destruct (run_readNumber l) as [l1 E1] end.
  rewrite run_bind, E1.
  match goal with |- context [readHanja ?l] =>
    destruct (run_readHanja sv l) as [l2 E2] end.
  rewrite run_bind, E2. rewrite AbcFacts.readABC_spell. cbn [bind].
  match goal with |- context [readAlphabet ?l ?g] =>
    destruct (AlphaFacts.readAlphabet_returns sv l g) as [l3 E3] end.
  rewrite run_bind, E3. eexists. reflexivity.
Qed.

Lemma run_normalize corpus :
  exists body, run sv (normalize decimal isalnum corpus) = Some body.
Proof.
  unfold normalize. induction corpus as [|line corpus [body IH]];
    [eexists; reflexivity|].
  cbn [for_each]. destruct (run_normalize_line line) as [out E].
  rewrite !run_bind, E. cbn [run]. rewrite run_bind, IH. eexists. reflexivity.
Qed.

End Returns.

Lemma run_normalize_length decimal isalnum sv :
  forall corpus body,
    run sv (normalize decimal isalnum corpus) = Some body ->
    (length body <= length corpus)%nat.
Proof.
  unfold normalize. induction corpus as [|line corpus IH]; intros body H.
  - cbn in H. injection H as <-. reflexivity.
  - cbn [for_each] in H. rewrite !run_bind in H.
    destruct (run sv (normalize_line decimal isalnum line)) as [out|];
      [|discriminate].
    cbn [run] in H. rewrite run_bind in H.
    destruct (run sv (for_each corpus _)) as [rest|] eqn:E; [|discriminate].
    cbn [run] in H. injection H as <-. specialize (IH rest eq_refl).
    rewrite length_app. cbn [length].
    destruct (negb (isspace out)); [destruct out|]; cbn [length]; lia.
Qed.

End TextFacts.

Module PipelineFacts.
Import SegmentFacts SplitFacts DotFacts CleanFacts TextFacts.

Lemma korean_no_mark (s : str) :
  forallb korean_or_space s = true -> existsb mark s = false.
Proof.
  intros H. apply existsb_false_In. intros c Hc.
  pose proof (proj1 (forallb_forall _ _) H c Hc) as E.
  apply korean_or_space_spec in E.
  destruct (mark c) eqn:Em; [|reflexivity]. exfalso.
  unfold mark in Em. class_facts Em. lia.
Qed.

Lemma bySentence_line_korean (l : str) :
  forallb korean_or_space l = true ->
  bySentence_line l = filter kept (splitlines l).
Proof.
  intros H. rewrite bySentence_line_eq, rewrites_calm; [reflexivity|].
  apply korean_no_mark. exact H.
Qed.

Lemma pieces_korean (l s : str) :
  forallb korean_or_space l = true -> In s (splitlines l) ->
  forallb korean_or_space s = true /\ no_break s = true.
Proof.
  intros H Hs.
  destruct (@splitlines_pieces (length l) l [] (le_n _) eq_refl s Hs)
    as [Hb (x & y & E)].
  split; [|exact Hb]. cbn [rev app] in E. rewrite E in H.
  rewrite !forallb_app in H. apply andb_true_iff in H. destruct H as [_ H].
  apply andb_true_iff in H. apply H.
Qed.

End PipelineFacts.

Module RuleFacts.
Import ReFacts SubFacts SearchFacts ScanFacts CharFacts LoopFacts NeedFacts.
Import CleanFacts.


Lemma rx_star_always R p (k : cont R) v :
  (forall b a, k b a = Some v) ->
  forall b a, rx (star (Cls p)) k b a = Some v.
Proof. intros H b a. apply rx_star_cls_greedy. apply H. Qed.









End RuleFacts.

Section BulletFacts.
Import ReFacts SubFacts SearchFacts ScanFacts CharFacts LoopFacts NeedFacts.
Import CleanFacts RuleFacts.

Variable decimal : Z -> option Z.
Hypothesis decimal_ascii :
  forall c, (0 <= c < 128)%Z -> decimal c = ascii_decimal c.

Local Notation "'dig'" := (digit decimal) (only parsing).

Lemma stops_app (p q : Z -> bool) (x t : str) :
  forallb q x = true -> (forall c, q c = true -> p c = false) ->
  stops p t -> stops p (x ++ t).
Proof.
  intros Hx Hq Ht. destruct x as [|c x]; [exact Ht|].
  cbn [forallb] in Hx. apply andb_true_iff in Hx. destruct Hx as [Hc _].
  cbn [app stops]. apply Hq. exact Hc.
Qed.

Lemma ascii_digit_plain c :
  in_range 48 57 c = true ->
  dig c = true /\ is_space c = false /\ opening c = false /\ bullet_end c = false.
Proof.
  intros H. pose proof H as H'. unfold in_range in H'.
  apply andb_true_iff in H'. rewrite !Z.leb_le in H'.
  split; [rewrite (@digit_ascii decimal decimal_ascii c) by lia; exact H|].
  repeat split.
  - destruct (is_space c) eqn:E; [|reflexivity]. exfalso.
    unfold is_space in E. class_facts E. lia.
  - destruct (opening c) eqn:E; [|reflexivity]. exfalso. class_facts E. lia.
  - destruct (bullet_end c) eqn:E; [|reflexivity]. exfalso.
    unfold bullet_end in E. class_facts E. lia.
Qed.

Lemma opening_not_space c : opening c = true -> is_space c = false.
Proof.
  intros H. destruct (is_space c) eqn:E; [|reflexivity]. exfalso.
  unfold is_space in E. class_facts E. class_facts H. lia.
Qed.

Lemma rx_len_bullet_inside adv b a :
  b <> [] -> rx_len (number_bullet_re decimal) adv b a = None.
Proof.
  intros H. unfold rx_len, number_bullet_re. cbn [seqs].
  rewrite rx_seq, rx_bol. destruct b; [contradiction|reflexivity].
Qed.

(** The match of a numbered bullet at the start of a line. *)
Lemma rx_len_bullet ws op ds c r0 rest :
  forallb is_space ws = true -> forallb opening op = true ->
  ds <> [] -> forallb (in_range 48 57) ds = true ->
  bullet_end c = true -> dig c = false -> dig r0 = false ->
  rx_len (number_bullet_re decimal) false []
         (ws ++ op ++ ds ++ c :: r0 :: rest)
  = Some (length (ws ++ op ++ ds ++ [c])).
Proof.
  intros Hws Hop Hne Hds Hc Dc Dr.
  assert (Dds : forallb dig ds = true).
  { apply forallb_forall. intros x Hx.
    apply (ascii_digit_plain x (proj1 (forallb_forall _ _) Hds x Hx)). }
  destruct ds as [|d ds]; [contradiction|].
  cbn [forallb] in Hds, Dds.
  apply andb_true_iff in Hds. destruct Hds as [Hd Hds].
  apply andb_true_iff in Dds. destruct Dds as [Dd Dds].
  destruct (ascii_digit_plain d Hd) as (_ & Sd & Od & _).
  set (a := ws ++ op ++ (d :: ds) ++ c :: r0 :: rest).
  unfold rx_len, number_bullet_re. cbn [seqs].
  rewrite rx_seq, rx_bol, rx_seq. apply rx_star_cls_greedy.
  assert (S1 : stops is_space (op ++ (d :: ds) ++ c :: r0 :: rest)).
  { apply (@stops_app is_space opening op _ Hop opening_not_space). exact Sd. }
  unfold a at 2 3.
  destruct (@while_app_stop is_space ws _ Hws S1) as [-> ->].
  rewrite rx_seq. apply rx_star_cls_greedy.
  destruct (@while_app_stop opening op ((d :: ds) ++ c :: r0 :: rest) Hop Od)
    as [-> ->].
  rewrite rx_seq. apply rx_star_cls_greedy. cbn [app while after]. rewrite Sd.
  cbn [rev app]. rewrite rx_seq, rx_plus_cls, Dd. apply rx_star_cls_greedy.
  destruct (@while_app_stop (digit decimal) ds (c :: r0 :: rest) Dds Dc)
    as [-> ->].
  rewrite rx_seq, rx_cls. fold (bullet_end c). rewrite Hc.
  rewrite rx_ahead, rx_plus_cls. unfold nots at 1. rewrite Dr. cbn [negb].
  rewrite (@rx_star_always unit (nots (digit decimal)) (fun _ _ => Some tt) tt)
    by reflexivity.
  unfold accept, a. cbn [andb]. f_equal.
  rewrite !length_app. cbn [length]. rewrite !length_app. cbn [length]. lia.
Qed.

(** A number and its closing character at the end of the line are not
    a bullet. *)
Lemma rx_len_bullet_end ds c :
  ds <> [] -> forallb (in_range 48 57) ds = true ->
  dig c = false ->
  rx_len (number_bullet_re decimal) false [] (ds ++ [c]) = None.
Proof.
  intros Hne Hds Dc.
  destruct ds as [|d ds]; [contradiction|].
  cbn [forallb] in Hds. apply andb_true_iff in Hds. destruct Hds as [Hd Hds].
  destruct (ascii_digit_plain d Hd) as (Dd & Sd & Od & _).
  unfold rx_len, number_bullet_re. cbn [seqs app].
  rewrite rx_seq, rx_bol, rx_seq, rx_star_cls, Sd.
  rewrite rx_seq, rx_star_cls, Od. rewrite rx_seq, rx_star_cls, Sd.
  rewrite rx_seq, rx_plus_cls, Dd.
  apply rx_star_cls_none. intros x y E Hx.
  rewrite rx_seq, rx_cls. destruct y as [|e y]; [reflexivity|].
  fold (bullet_end e). destruct (bullet_end e) eqn:Ee; [|reflexivity].
  destruct y as [|f y].
  - rewrite rx_ahead, rx_plus_cls. reflexivity.
  - exfalso. destruct (@exists_last _ (f :: y) ltac:(discriminate))
      as (y0 & l & Ey).
    rewrite Ey in E.
    replace (x ++ e :: y0 ++ [l]) with ((x ++ e :: y0) ++ [l]) in E
      by (rewrite <- app_assoc; reflexivity).
    apply app_inj_tail in E. destruct E as [E _].
    assert (He : In e ds) by (rewrite E; apply in_or_app; right; left; reflexivity).
    pose proof (proj1 (forallb_forall _ _) Hds e He) as Re.
    destruct (ascii_digit_plain e Re) as (_ & _ & _ & Be). congruence.
Qed.

End BulletFacts.

Set Implicit Arguments.

(** * The claims *)

(** C1: every string returned by [normalize] consists of Korean
    syllable blocks and whitespace only. *)
Theorem normalize_korean_or_space decimal isalnum sv corpus body :
  run sv (normalize decimal isalnum corpus) = Some body ->
  Forall (Forall (fun c => hangul c = true \/ is_space c = true)) body.
Proof.
  apply normalize_kept. intros l _ _.
  eapply Forall_impl; [|apply removeNonHangul_clean].
  intros c Hc. apply orb_true_iff. exact Hc.
Qed.

Lemma normalize_korean_or_space_witness :
  run toy (normalize ascii_decimal ascii_alnum sample_corpus)
  = Some [utf8 " 정부는 삼점일사 에이비씨를 "; utf8 " 수 "] /\
  Forall (Forall (fun c => hangul c = true \/ is_space c = true))
         [utf8 " 정부는 삼점일사 에이비씨를 "; utf8 " 수 "].
Proof.
  split.
  - vm_compute. reflexivity.
  - apply (@normalize_korean_or_space ascii_decimal ascii_alnum toy sample_corpus).
    vm_compute. reflexivity.
Defined.




(** C3: a capital at the end of the line has no following character for
    the look-ahead to accept, so the acronym pass leaves it alone. *)
Theorem readABC_skips_final_capital :
  readABC (utf8 "CEO") = Ret (utf8 "씨이O") /\
  readABC (utf8 "A") = Ret (utf8 "A") /\
  readABC (utf8 "A.") = Ret (utf8 "에이.").
Proof. repeat split; vm_compute; reflexivity. Qed.

(** C4, as stated, fails: with a space between the Korean word and the
    Latin run the rule matches nothing. *)
Lemma glued_latin_keeps_spaced_run :
  sub glued_latin_re "" (utf8 "정부 government") = utf8 "정부 government".
Proof. vm_compute. reflexivity. Qed.

(** C4 (amended): the rule deletes a Latin run that directly follows a
    Korean syllable, together with one space when it directly follows
    that run and the Latin letters directly after that space; the text
    before the run is kept, the deletion stops at the first character
    that is not part of this annotation, and the rule goes on in the
    same way with the text after it.  A line in which no Latin letter
    directly follows a Korean syllable is left unchanged. *)
Theorem glued_latin_rule :
  (forall pre h w post,
      adjacent hangul latin (pre ++ [h]) = false -> hangul h = true ->
      w <> [] -> forallb latin w = true ->
      q_hd latin post = false -> q_hd (Z.eqb 32) post = false ->
      sub glued_latin_re "" (pre ++ [h] ++ w ++ post)
      = pre ++ [h] ++ sub glued_latin_re "" post) /\
  (forall pre h w w2 post,
      adjacent hangul latin (pre ++ [h]) = false -> hangul h = true ->
      w <> [] -> forallb latin w = true -> forallb latin w2 = true ->
      q_hd latin post = false ->
      sub glued_latin_re "" (pre ++ [h] ++ w ++ utf8 " " ++ w2 ++ post)
      = pre ++ [h] ++ sub glued_latin_re "" post) /\
  (forall line,
      adjacent hangul latin line = false ->
      sub glued_latin_re "" line = line).
Proof.
  split; [|split].
  - intros pre h w post Hpre Hh Hne Hw Hl Hs.
    apply SpanFacts.sub_glued_one; auto.
    + destruct w as [|c w]; [contradiction|]. cbn [forallb] in Hw.
      apply andb_true_iff in Hw. apply Hw.
    + apply SpanFacts.latin_not_hangul. exact Hw.
    + apply SpanFacts.annotation_rest_plain; assumption.
  - intros pre h w w2 post Hpre Hh Hne Hw Hw2 Hl.
    change (utf8 " ") with [32%Z].
    replace (pre ++ [h] ++ w ++ [32%Z] ++ w2 ++ post)
      with (pre ++ [h] ++ (w ++ 32%Z :: w2) ++ post)
      by (rewrite <- !app_assoc; reflexivity).
    apply SpanFacts.sub_glued_one; auto.
    + destruct w as [|c w]; [contradiction|]. cbn [forallb] in Hw.
      apply andb_true_iff in Hw. apply Hw.
    + rewrite forallb_app. rewrite (SpanFacts.latin_not_hangul _ Hw).
      cbn [forallb andb]. rewrite (SpanFacts.latin_not_hangul _ Hw2).
      reflexivity.
    + rewrite <- app_assoc. cbn [app].
      apply SpanFacts.annotation_rest_spaced; assumption.
  - apply GluedFacts.sub_glued_unchanged.
Qed.

Lemma glued_latin_rule_witness :
  sub glued_latin_re "" (utf8 "정부government는 발표") = utf8 "정부는 발표" /\
  sub glued_latin_re "" (utf8 "정부New York") = utf8 "정부" /\
  sub glued_latin_re "" (utf8 "가ab   cd") = utf8 "가  cd" /\
  sub glued_latin_re "" (utf8 "가ab 나cd") = utf8 "가나" /\
  sub glued_latin_re "" (utf8 "정부 government") = utf8 "정부 government".
Proof.
  destruct glued_latin_rule as (H1 & H2 & H3).
  split; [|split; [|split; [|split]]].
  - apply (H1 [chr "정"] (chr "부") (utf8 "government") (utf8 "는 발표"));
      vm_compute; (reflexivity || discriminate).
  - apply (H2 [chr "정"] (chr "부") (utf8 "New") (utf8 "York") []);
      vm_compute; (reflexivity || discriminate).
  - apply (H2 [] (chr "가") (utf8 "ab") [] (utf8 "  cd"));
      vm_compute; (reflexivity || discriminate).
  - apply (H2 [] (chr "가") (utf8 "ab") [] (utf8 "나cd"));
      vm_compute; (reflexivity || discriminate).
  - apply (H3 (utf8 "정부 government")). vm_compute. reflexivity.
Defined.

(** C5: the table of [readHangulLetter] has no entry for three of the
    fourteen plain consonants, which pass through unchanged. *)
Theorem readHangulLetter_misses_three :
  readHangulLetter (utf8 "ㅋㅌㅍ") = utf8 "ㅋㅌㅍ" /\
  readHangulLetter (utf8 "ㄱㅋㄲ") = utf8 "기역ㅋ쌍기역".
Proof. split; vm_compute; reflexivity. Qed.




(** C7: a sentence without logographs is returned unchanged; when a
    Korean syllable is directly followed by a logograph every logograph
    is deleted without any call to the translator; otherwise the whole
    sentence goes to the translator in substitution mode. *)
Theorem readHanja_policy (line : str) :
  (existsb hanja line = false -> readHanja line = Ret line) /\
  (existsb hanja line = true -> adjacent hangul hanja line = true ->
   readHanja line = Ret (filter (fun c => negb (hanja c)) line)) /\
  (existsb hanja line = true -> adjacent hangul hanja line = false ->
   readHanja line = hanja_translate line "substitution" (fun r => Ret r)).
Proof.
  unfold readHanja.
  pose proof (SearchFacts.search_plus_cls_none hanja line) as H1.
  pose proof (HanjaFacts.search_pair_none hangul hanja line) as H2.
  repeat split; intros Ha.
  - rewrite (proj2 H1 Ha). reflexivity.
  - intros Hb. destruct (search (plus (Cls hanja)) line) eqn:E1.
    + destruct (search (Seq (plus (Cls hangul)) (plus (Cls hanja))) line) eqn:E2.
      * rewrite SearchFacts.sub_plus_cls. reflexivity.
      * rewrite (proj1 H2 eq_refl) in Hb. discriminate.
    + rewrite (proj1 H1 eq_refl) in Ha. discriminate.
  - intros Hb. destruct (search (plus (Cls hanja)) line) eqn:E1.
    + rewrite (proj2 H2 Hb). reflexivity.
    + rewrite (proj1 H1 eq_refl) in Ha. discriminate.
Qed.

Lemma readHanja_policy_witness :
  readHanja (utf8 "한글 ABC") = Ret (utf8 "한글 ABC") /\
  readHanja (utf8 "大韓 민국民國") = Ret (utf8 " 민국") /\
  readHanja (utf8 "大韓 民國")
  = hanja_translate (utf8 "大韓 民國") "substitution" (fun r => Ret r).
Proof.
  split; [|split].
  - apply (proj1 (readHanja_policy (utf8 "한글 ABC"))). vm_compute. reflexivity.
  - apply (proj1 (proj2 (readHanja_policy (utf8 "大韓 민국民國")))); vm_compute; reflexivity.
  - apply (proj2 (proj2 (readHanja_policy (utf8 "大韓 民國")))); vm_compute; reflexivity.
Defined.

(** C8: neither [bySentence] nor [normalize] emits an empty or
    whitespace-only line. *)
Theorem no_blank_line_emitted :
  (forall corpus, Forall nonblank (bySentence corpus)) /\
  (forall decimal isalnum sv corpus body,
      run sv (normalize decimal isalnum corpus) = Some body ->
      Forall nonblank body).
Proof.
  split.
  - intros corpus. unfold bySentence. apply Forall_forall. intros s Hs.
    apply in_flat_map in Hs. destruct Hs as [line [_ Hs]].
    unfold bySentence_line in Hs. cbv zeta in Hs.
    apply filter_In in Hs. destruct Hs as [_ Hs].
    apply andb_true_iff in Hs. destruct Hs as [H1 H2].
    apply not_isspace_nonblank.
    + destruct (isspace s); [discriminate|reflexivity].
    + destruct s; [discriminate|discriminate].
  - intros decimal isalnum sv corpus body. apply normalize_kept.
    intros l H1 H2. apply not_isspace_nonblank; assumption.
Qed.

Lemma no_blank_line_emitted_witness :
  Forall nonblank (bySentence [utf8 "가. 나?  "; utf8 "   "]) /\
  Forall nonblank [utf8 " 정부는 삼점일사 에이비씨를 "; utf8 " 수 "].
Proof.
  split.
  - apply (proj1 no_blank_line_emitted).
  - apply (proj2 no_blank_line_emitted ascii_decimal ascii_alnum toy sample_corpus).
    vm_compute. reflexivity.
Defined.

(** C9: within bounds, [replaceSubstring] is the prefix before [start],
    the replacement, and the suffix from [stop] on; the characters before
    [start] and from [stop] on keep their value and order. *)
Theorem replaceSubstring_frame (s r : str) (start stop : Z) :
  (0 <= start <= stop)%Z -> (stop <= Z.of_nat (length s))%Z ->
  replaceSubstring s r (start, stop)
  = firstn (Z.to_nat start) s ++ r ++ skipn (Z.to_nat stop) s
  /\ (forall i, (i < Z.to_nat start)%nat ->
                nth_error (replaceSubstring s r (start, stop)) i = nth_error s i)
  /\ (forall j, (Z.to_nat stop <= j)%nat ->
                nth_error (replaceSubstring s r (start, stop))
                          (Z.to_nat start + length r + (j - Z.to_nat stop))
                = nth_error s j).
Proof.
  intros H1 H2. rewrite replaceSubstring_in_range by assumption.
  assert (Hlen : length (firstn (Z.to_nat start) s) = Z.to_nat start).
  { apply firstn_length_le. lia. }
  split; [reflexivity|]. split.
  - intros i Hi. rewrite nth_error_app1 by lia.
    rewrite nth_error_firstn.
    destruct (Nat.ltb_spec i (Z.to_nat start)); [reflexivity | lia].
  - intros j Hj. rewrite nth_error_app2 by lia.
    rewrite nth_error_app2 by lia. rewrite Hlen.
    replace (Z.to_nat start + length r + (j - Z.to_nat stop)
             - Z.to_nat start - length r)%nat with (j - Z.to_nat stop)%nat by lia.
    rewrite nth_error_skipn. f_equal. lia.
Qed.

Lemma replaceSubstring_frame_witness :
  replaceSubstring (utf8 "abcdef") (utf8 "XYZ") (2, 4)%Z = utf8 "abXYZef".
Proof.
  destruct (@replaceSubstring_frame (utf8 "abcdef") (utf8 "XYZ") 2 4) as [E _].
  - lia.
  - simpl. lia.
  - exact E.
Defined.




(** * Further properties: the statements *)

Unset Implicit Arguments.

(** X1: putting back the text that a span covers gives the line back,
    for every span with non-negative offsets in order, whether or not it
    lies within the line. *)
Theorem replaceSubstring_same_text (line : str) (start stop : Z) :
  (0 <= start <= stop)%Z ->
  replaceSubstring line (group line (start, stop)) (start, stop) = line.
Proof.
  intros H. unfold replaceSubstring, group, slice, slice_from. cbn [fst snd].
  rewrite !SliceFacts.clip_nonneg by lia.
  set (len := Z.of_nat (length line)).
  replace (Z.min len 0) with 0%Z by lia.
  cbn [Z.to_nat skipn]. rewrite Nat.sub_0_r.
  set (i := Z.to_nat (Z.min len start)).
  set (j := Z.to_nat (Z.min len stop)).
  assert (Hij : (i <= j)%nat) by (unfold i, j; lia).
  replace (skipn j line) with (skipn (j - i) (skipn i line))
    by (rewrite skipn_skipn; f_equal; lia).
  rewrite firstn_skipn. apply firstn_skipn.
Qed.

Lemma replaceSubstring_same_text_witness :
  replaceSubstring (utf8 "abcdef") (group (utf8 "abcdef") (4, 9)%Z) (4, 9)%Z
  = utf8 "abcdef".
Proof. apply replaceSubstring_same_text. lia. Defined.

(** X2: [replaceSubstring] accepts any non-negative offsets: they are
    clipped to the line, so that a span at or past the end appends the
    new text, and offsets in the wrong order repeat the text between
    them. *)
Theorem replaceSubstring_clips (line newstr : str) (start stop : Z) :
  (0 <= start)%Z -> (0 <= stop)%Z ->
  replaceSubstring line newstr (start, stop)
  = firstn (Z.to_nat start) line ++ newstr ++ skipn (Z.to_nat stop) line
  /\ ((Z.of_nat (length line) <= start)%Z -> (Z.of_nat (length line) <= stop)%Z ->
      replaceSubstring line newstr (start, stop) = line ++ newstr)
  /\ ((stop <= start <= Z.of_nat (length line))%Z ->
      length (replaceSubstring line newstr (start, stop))
      = (length line + length newstr + Z.to_nat (start - stop))%nat).
Proof.
  intros H1 H2.
  assert (E : replaceSubstring line newstr (start, stop)
              = firstn (Z.to_nat start) line ++ newstr ++ skipn (Z.to_nat stop) line).
  { unfold replaceSubstring, slice, slice_from. cbn [fst snd].
    rewrite !SliceFacts.clip_nonneg by lia.
    set (len := Z.of_nat (length line)).
    replace (Z.min len 0) with 0%Z by lia.
    cbn [Z.to_nat skipn]. rewrite Nat.sub_0_r. f_equal; [|f_equal].
    - destruct (Z.le_gt_cases start len).
      + f_equal. lia.
      + rewrite !firstn_all2 by (unfold len in *; lia). reflexivity.
    - destruct (Z.le_gt_cases stop len).
      + f_equal. lia.
      + rewrite !skipn_all2 by (unfold len in *; lia). reflexivity. }
  split; [exact E|]. split.
  - intros H3 H4. rewrite E. rewrite firstn_all2 by lia.
    rewrite skipn_all2 by lia. rewrite app_nil_r. reflexivity.
  - intros H3. rewrite E. rewrite !length_app, length_firstn, length_skipn. lia.
Qed.

Lemma replaceSubstring_clips_witness :
  replaceSubstring (utf8 "abc") (utf8 "XY") (7, 9)%Z = utf8 "abcXY" /\
  replaceSubstring (utf8 "abc") (utf8 "XY") (2, 1)%Z = utf8 "abXYbc".
Proof.
  split.
  - apply (proj1 (proj2 (@replaceSubstring_clips (utf8 "abc") (utf8 "XY") 7 9
                           ltac:(lia) ltac:(lia)))); simpl; lia.
  - apply (proj1 (@replaceSubstring_clips (utf8 "abc") (utf8 "XY") 2 1
                    ltac:(lia) ltac:(lia))).
Defined.

(** X3: [removeNonHangul] keeps exactly the Korean syllable blocks and
    the whitespace characters of the line, in their order, and drops
    every other character. *)
Theorem removeNonHangul_keeps_korean (line : str) :
  removeNonHangul line = filter (fun c => hangul c || is_space c) line.
Proof. apply removeNonHangul_filter. Qed.

(** X4: [removeNonHangul] works piece by piece, leaves nothing for a
    second run, and leaves unchanged exactly the lines made of Korean
    syllables and whitespace. *)
Theorem removeNonHangul_stable (x y : str) :
  removeNonHangul (x ++ y) = removeNonHangul x ++ removeNonHangul y /\
  removeNonHangul (removeNonHangul x) = removeNonHangul x /\
  (removeNonHangul x = x <-> forallb korean_or_space x = true).
Proof.
  rewrite !removeNonHangul_filter. split; [apply filter_app|]. split.
  - induction x as [|c x IH]; [reflexivity|]. cbn [filter].
    destruct (korean_or_space c) eqn:E; [|exact IH].
    cbn [filter]. rewrite E, IH. reflexivity.
  - split.
    + intros E. rewrite <- E. apply forallb_forall. intros c Hc.
      apply filter_In in Hc. tauto.
    + intros H. induction x as [|c x IH]; [reflexivity|].
      cbn [forallb filter] in *. apply andb_true_iff in H. destruct H as [-> H].
      rewrite (IH H). reflexivity.
Qed.

(** X5: the sixteen substitutions of [readHangulLetter] amount to one
    sweep that replaces each letter of the table by its name and keeps
    every other character: no replacement text is rewritten by a later
    substitution, and the pass works piece by piece. *)
Theorem readHangulLetter_one_sweep (x y : str) :
  readHangulLetter x = flat_map jamo_name x /\
  readHangulLetter (x ++ y) = readHangulLetter x ++ readHangulLetter y /\
  map jamo_name (utf8 "ㄱㄴㄷㄹㅁㅂㅅㅇㅈㅊㅎㄲㄸㅃㅆㅉㅋ")
  = map utf8 ["기역"; "니은"; "디귿"; "리을"; "미음"; "비읍"; "시옷"; "이응";
              "지읒"; "치읓"; "히읗"; "쌍기역"; "쌍디귿"; "쌍비읍"; "쌍시옷";
              "쌍지읒"; "ㅋ"]%string.
Proof.
  split; [apply JamoFacts.readHangulLetter_map|].
  split; [apply JamoFacts.readHangulLetter_app|]. vm_compute. reflexivity.
Qed.

(** X6: the result of [readHangulLetter] holds none of the sixteen
    letters of the table and is left unchanged by a second run; a line
    without any of these letters is returned as it is. *)
Theorem readHangulLetter_stable (line : str) :
  existsb jamo_read (readHangulLetter line) = false /\
  readHangulLetter (readHangulLetter line) = readHangulLetter line /\
  (existsb jamo_read line = false -> readHangulLetter line = line).
Proof.
  pose proof JamoFacts.readHangulLetter_plain as Hfix.
  assert (Hclean : existsb jamo_read (readHangulLetter line) = false).
  { rewrite JamoFacts.readHangulLetter_map.
    induction line as [|c l IH]; [reflexivity|].
    cbn [flat_map]. rewrite existsb_app, IH, JamoFacts.jamo_name_clean.
    reflexivity. }
  split; [exact Hclean|]. split; [apply Hfix; exact Hclean|apply Hfix].
Qed.

(** X7: [readABC] never raises and calls no reader: it returns the line
    in which every capital letter directly followed by a character other
    than a lowercase letter is replaced by its spelling in the table,
    every other character staying as it is. *)
Theorem readABC_one_sweep (line : str) :
  readABC line = Ret (spell_caps line) /\
  map (fun c => ABC_table [c]) (utf8 "ABCDEFGHIJKLMNOPQRSTUVWXYZ")
  = map utf8 ["에이"; "비"; "씨"; "디"; "이"; "에프"; "지"; "에이치"; "아이";
              "제이"; "케이"; "엘"; "엠"; "엔"; "오"; "피"; "큐"; "알"; "에스";
              "티"; "유"; "브이"; "더블유"; "엑스"; "와이"; "지"]%string.
Proof.
  split; [apply AbcFacts.readABC_spell|]. vm_compute. reflexivity.
Qed.

(** X8: the acronym pass leaves nothing for a second run: its result
    holds no match of its pattern and is returned unchanged. *)
Theorem readABC_stable (line : str) :
  exists out,
    readABC line = Ret out /\ finditer ABC_re out = [] /\ readABC out = Ret out.
Proof.
  exists (spell_caps line). split; [apply AbcFacts.readABC_spell|].
  pose proof (AbcFacts.caps_spell line) as Hc. split.
  - pose proof (AbcFacts.iter_scan_ABC (spell_caps line) 0 []) as L.
    unfold finditer. destruct (iter_scan ABC_re 0 0 [] (spell_caps line));
      [reflexivity|]. simpl in L. lia.
  - rewrite AbcFacts.readABC_spell. rewrite (AbcFacts.caps_zero _ Hc).
    reflexivity.
Qed.

(** X9: [readAlphabet] finds a token in every iteration and returns,
    whatever the words the foreign-word reader gives back; on a line
    without Latin letter it returns the line without calling the
    reader. *)
Theorem readAlphabet_never_fails (line : str) (lang : string) :
  (forall sv, exists out, run sv (readAlphabet line lang) = Some out) /\
  (existsb latin line = false -> readAlphabet line lang = Ret line).
Proof.
  split.
  - intros sv. apply AlphaFacts.readAlphabet_returns.
  - apply AlphaFacts.readAlphabet_plain.
Qed.

(** X10: when the reader gives back no Latin letter, [readAlphabet]
    returns the line in which every maximal run of Latin letters is
    replaced by the reader's reading of that run, and no Latin letter is
    left. *)
Theorem readAlphabet_reads_every_run sv (line : str) (lang : string) :
  (forall w, w <> [] -> forallb latin w = true ->
             forallb (nots latin) (loanword sv w lang) = true) ->
  run sv (readAlphabet line lang)
  = Some (read_runs (fun w => loanword sv w lang) [] line)
  /\ existsb latin (read_runs (fun w => loanword sv w lang) [] line) = false.
Proof.
  intros Hreader. split.
  - rewrite AlphaFacts.readAlphabet_unfold.
    destruct (Nat.ltb_spec 0 (latin_runs false line)) as [Hpos|Hzero].
    + destruct (@AlphaFacts.for_range_words_read sv lang Hreader
                  (latin_runs false line) line None eq_refl) as [tok E].
      rewrite run_bind, E. reflexivity.
    + assert (Hn : latin_runs false line = 0%nat) by lia.
      apply AlphaFacts.runs_zero in Hn.
      pose proof (@AlphaFacts.read_runs_plain (fun w => loanword sv w lang) line Hn [])
        as E.
      rewrite app_nil_r in E. rewrite E. cbn [read_runs flush].
      rewrite app_nil_r. reflexivity.
  - pose proof (@AlphaFacts.read_runs_clean (fun w => loanword sv w lang) Hreader
                  line [] eq_refl) as H.
    destruct (existsb latin _) eqn:E; [|reflexivity].
    apply existsb_exists in E. destruct E as (c & Hin & Hc).
    pose proof (proj1 (forallb_forall _ _) H c Hin) as Hn.
    unfold nots in Hn. rewrite Hc in Hn. discriminate.
Qed.

Lemma readAlphabet_reads_every_run_witness :
  run toy (readAlphabet (utf8 "가 abc 나 de.") "ita") = Some (utf8 "가 외외외 나 외외.").
Proof.
  destruct (@readAlphabet_reads_every_run toy (utf8 "가 abc 나 de.") "ita") as [E _].
  - intros w _ _. cbn [loanword toy]. induction w; [reflexivity|exact IHw].
  - exact E.
Defined.



(** X12: a line without decimal digit holds no numeric token:
    [readNumber] returns it unchanged and calls no reader, whatever the
    signs and periods in it. *)
Theorem readNumber_without_digit decimal (line : str) :
  forallb (nots (digit decimal)) line = true ->
  finditer (number_re decimal) line = [] /\
  readNumber decimal line = Ret line.
Proof.
  intros H.
  assert (E : finditer (number_re decimal) line = []).
  { unfold finditer.
    pose proof (@iter_scan_digit_free decimal line H 0%Z [] [] I) as E.
    rewrite app_nil_r in E. rewrite E.
    apply SubFacts.iter_scan_miss_end. rewrite rx_len_number. reflexivity. }
  split; [exact E|].
  unfold readNumber. rewrite LoopFacts.rescan_loop_unfold, E. reflexivity.
Qed.

Lemma readNumber_without_digit_witness :
  readNumber wide_decimal (utf8 "가+나. -다") = Ret (utf8 "가+나. -다").
Proof.
  apply (@readNumber_without_digit wide_decimal (utf8 "가+나. -다")).
  vm_compute. reflexivity.
Defined.

(** X13: whatever the corpus, a line emitted by [bySentence] holds no
    line boundary, no ellipsis, no doubled period, question mark or
    exclamation mark, no space or comma directly after a sentence-final
    mark, and no sentence-final mark between two Korean syllables. *)
Theorem bySentence_lines_tidy (corpus : list str) :
  Forall tidy (bySentence corpus).
Proof.
  apply Forall_forall. intros s Hs. unfold bySentence in Hs.
  apply in_flat_map in Hs. destruct Hs as [line [_ Hs]].
  destruct (SplitFacts.bySentence_line_piece line s Hs) as (_ & Hb & x & y & E).
  apply (@SplitFacts.tidy_part x s y Hb). rewrite <- E.
  apply SplitFacts.rewrites_tidy.
Qed.

(** X14: [bySentence] invents no character but the period: every
    character of an emitted line occurs in the line of the corpus it
    comes from, or is a period. *)
Theorem bySentence_adds_only_periods (corpus : list str) (s : str) :
  In s (bySentence corpus) ->
  exists line, In line corpus /\ forall x, In x s -> In x line \/ x = 46%Z.
Proof.
  intros Hs. unfold bySentence in Hs.
  apply in_flat_map in Hs. destruct Hs as [line [Hline Hs]].
  exists line. split; [exact Hline|]. intros c Hc.
  destruct (SplitFacts.bySentence_line_piece line s Hs) as (_ & Hb & x & y & E).
  assert (Hin : In c (rewrites line)).
  { rewrite E. apply in_or_app. right. apply in_or_app. left. exact Hc. }
  apply SplitFacts.rewrites_In in Hin. destruct Hin as [[Hin _]|[->| ->]]; auto.
  exfalso. unfold no_break in Hb.
  pose proof (proj1 (forallb_forall _ _) Hb 10%Z Hc) as H. discriminate.
Qed.

Lemma bySentence_adds_only_periods_witness :
  exists line,
    In line [utf8 "가?나"] /\ forall x, In x (utf8 "가.") -> In x line \/ x = 46%Z.
Proof.
  apply (@bySentence_adds_only_periods [utf8 "가?나"] (utf8 "가.")).
  vm_compute. left. reflexivity.
Defined.

(** X15: a sentence-final mark between two Korean syllables ends a
    sentence: the line is cut after it, and the mark, whether a period,
    a question mark or an exclamation mark, is replaced by a period. *)
Theorem bySentence_run_on (a b : str) (h m h' : Z) :
  existsb mark a = false -> existsb mark b = false ->
  no_break a = true -> no_break b = true ->
  hangul h = true -> sentence_end m = true -> hangul h' = true ->
  bySentence [a ++ [h; m; h'] ++ b] = [a ++ [h; 46%Z]; h' :: b].
Proof.
  intros Ca Cb Ba Bb Hh Hm Hh'. rewrite CutFacts.bySentence_one.
  rewrite SegmentFacts.bySentence_line_eq. cbn [app].
  rewrite (@CutFacts.run_on_rewrites a b h m h' Ca Cb Hh Hm Hh').
  replace (a ++ h :: 46%Z :: 10%Z :: h' :: b)
    with ((a ++ [h; 46%Z]) ++ 10%Z :: h' :: b)
    by (rewrite <- app_assoc; reflexivity).
  rewrite (@CutFacts.pieces_of_two (a ++ [h; 46%Z]) (h' :: b) h).
  - rewrite (@DotFacts.kept_with h' (h' :: b)); [reflexivity|left; reflexivity|].
    apply DotFacts.hangul_not_space. exact Hh'.
  - rewrite DotFacts.no_break_app, Ba. unfold no_break, nots. cbn [forallb].
    rewrite (DotFacts.hangul_no_break h Hh). reflexivity.
  - unfold no_break, nots in *. cbn [forallb].
    rewrite (DotFacts.hangul_no_break h' Hh'), Bb. reflexivity.
  - apply in_or_app. right. left. reflexivity.
  - apply DotFacts.hangul_not_space. exact Hh.
Qed.

Lemma bySentence_run_on_witness :
  bySentence [utf8 "we 간다!너는 Kim"] = [utf8 "we 간다."; utf8 "너는 Kim"].
Proof.
  apply (@bySentence_run_on (utf8 "we 간") (utf8 "는 Kim")
                            (chr "다") (chr "!") (chr "너"));
    vm_compute; reflexivity.
Defined.

(** X16: a space or a comma directly after a sentence-final mark ends a
    sentence: the line is cut there, the mark stays and the space or
    comma is dropped; what follows is emitted unless it is blank. *)
Theorem bySentence_break_after (a b : str) (m c : Z) :
  existsb mark a = false -> existsb mark b = false ->
  no_break a = true -> no_break b = true ->
  sentence_end m = true -> one_of " ," c = true ->
  bySentence [a ++ [m; c] ++ b] = (a ++ [m]) :: (if kept b then [b] else []).
Proof.
  intros Ca Cb Ba Bb Hm Hc. rewrite CutFacts.bySentence_one.
  rewrite SegmentFacts.bySentence_line_eq. cbn [app].
  rewrite (@CutFacts.break_rewrites a b m c Ca Cb Hm Hc).
  replace (a ++ m :: 10%Z :: b) with ((a ++ [m]) ++ 10%Z :: b)
    by (rewrite <- app_assoc; reflexivity).
  apply (@CutFacts.pieces_of_two (a ++ [m]) b m).
  - rewrite DotFacts.no_break_app, Ba. unfold no_break, nots. cbn [forallb].
    rewrite (DotFacts.sentence_end_no_break m Hm). reflexivity.
  - exact Bb.
  - apply in_or_app. right. left. reflexivity.
  - apply DotFacts.sentence_end_not_space. exact Hm.
Qed.

Lemma bySentence_break_after_witness :
  bySentence [utf8 "IBM에 간다. 너는 온다"] = [utf8 "IBM에 간다."; utf8 "너는 온다"] /\
  bySentence [utf8 "간다?,"] = [utf8 "간다?"].
Proof.
  split.
  - apply (@bySentence_break_after (utf8 "IBM에 간다") (utf8 "너는 온다")
                                   (chr ".") (chr " "));
      vm_compute; reflexivity.
  - apply (@bySentence_break_after (utf8 "간다") [] (chr "?") (chr ","));
      vm_compute; reflexivity.
Defined.

(** X17: a line without sentence-final mark, ellipsis or line boundary
    is emitted unchanged as one line, capitals included, and is dropped
    when it is empty or made of whitespace only. *)
Theorem bySentence_plain_line (line : str) :
  existsb mark line = false -> no_break line = true ->
  bySentence [line] = if kept line then [line] else [].
Proof.
  intros Hc Hb. rewrite CutFacts.bySentence_one.
  rewrite SegmentFacts.bySentence_line_eq, DotFacts.rewrites_calm by exact Hc.
  destruct line as [|c line]; [reflexivity|].
  unfold splitlines.
  rewrite SegmentFacts.splitlines_single_from; [|exact Hb|right; discriminate].
  reflexivity.
Qed.

Lemma bySentence_plain_line_witness :
  bySentence [utf8 "Kim 은 간다"] = [utf8 "Kim 은 간다"] /\
  bySentence [utf8 "   "] = [].
Proof.
  split.
  - apply (@bySentence_plain_line (utf8 "Kim 은 간다")); vm_compute; reflexivity.
  - apply (@bySentence_plain_line (utf8 "   ")); vm_compute; reflexivity.
Defined.

(** X18: segmenting twice gives what segmenting once gives on every
    corpus in which no capital letter is directly followed by a period
    or an ellipsis, capitals elsewhere being allowed. *)
Theorem bySentence_idempotent_without_initials (corpus : list str) :
  Forall (fun line => adjacent upper dotlike line = false) corpus ->
  bySentence (bySentence corpus) = bySentence corpus.
Proof.
  intros Hcap. unfold bySentence at 1.
  assert (Hfix : forall s, In s (bySentence corpus) -> bySentence_line s = [s]).
  { intros s Hs. unfold bySentence in Hs. apply in_flat_map in Hs.
    destruct Hs as [line [Hline Hs]].
    pose proof (proj1 (Forall_forall _ corpus) Hcap line Hline) as Hl.
    destruct (SplitFacts.bySentence_line_piece line s Hs) as (Hk & Hb & x & y & E).
    apply CutFacts.bySentence_line_tidy; [|exact Hk|].
    - apply (@SplitFacts.tidy_part x s y Hb). rewrite <- E.
      apply SplitFacts.rewrites_tidy.
    - pose proof (CutFacts.direct_no_initials line Hl) as Hd.
      rewrite <- (CutFacts.rewrites_no_initials line Hl), E in Hd.
      apply SegmentFacts.adjacent_app_false in Hd. destruct Hd as [_ Hd].
      apply SegmentFacts.adjacent_app_false in Hd. apply Hd. }
  induction (bySentence corpus) as [|s l IH]; [reflexivity|].
  cbn [flat_map]. rewrite Hfix by (left; reflexivity).
  cbn [app]. f_equal. apply IH. intros s' Hs'. apply Hfix. right. exact Hs'.
Qed.

Lemma bySentence_idempotent_without_initials_witness :
  bySentence (bySentence [utf8 "IBM 에 간다!! Kim은…, 간다"])
  = bySentence [utf8 "IBM 에 간다!! Kim은…, 간다"].
Proof.
  apply bySentence_idempotent_without_initials.
  repeat constructor.
Defined.

(** X19: the first rule of [normalize] deletes a numbered bullet at the
    start of the line (whitespace, opening brackets, ASCII digits and a
    closing bracket or a period) when a character that is not a digit
    follows; a number and its closing character that end the line are
    not deleted. *)
Theorem number_bullet_rule decimal (ws op ds rest : str) (c r0 : Z) :
  (forall c, (0 <= c < 128)%Z -> decimal c = ascii_decimal c) ->
  forallb is_space ws = true -> forallb opening op = true ->
  ds <> [] -> forallb (in_range 48 57) ds = true ->
  bullet_end c = true -> digit decimal c = false -> digit decimal r0 = false ->
  sub (number_bullet_re decimal) "" (ws ++ op ++ ds ++ c :: r0 :: rest)
  = r0 :: rest /\
  sub (number_bullet_re decimal) "" (ds ++ [c]) = ds ++ [c].
Proof.
  intros Hascii Hws Hop Hne Hds Hc Dc Dr.
  unfold sub, sub_str. change (utf8 "") with (@nil Z). split.
  - pose proof (@rx_len_bullet decimal Hascii ws op ds c r0 rest
                  Hws Hop Hne Hds Hc Dc Dr) as E.
    replace (ws ++ op ++ ds ++ c :: r0 :: rest)
      with ((ws ++ op ++ ds ++ [c]) ++ r0 :: rest) in *
      by (rewrite <- !app_assoc; reflexivity).
    destruct (ws ++ op ++ ds ++ [c]) as [|c0 x] eqn:Ep.
    { apply (f_equal (@length Z)) in Ep. rewrite !length_app in Ep.
      cbn [length] in Ep. lia. }
    cbn [app] in *. rewrite SubFacts.sub_scan_hit by exact E.
    cbn [app]. apply SubFacts.sub_scan_no_match. intros u v _.
    apply rx_len_bullet_inside. rewrite app_nil_r.
    intros H. apply app_eq_nil in H. destruct H as [_ H].
    apply (f_equal (@length Z)) in H. rewrite length_rev in H. discriminate.
  - destruct ds as [|d ds]; [contradiction|]. cbn [app].
    rewrite SubFacts.sub_scan_miss
      by exact (@rx_len_bullet_end decimal Hascii (d :: ds) c Hne Hds Dc).
    f_equal. apply SubFacts.sub_scan_no_match. intros u v _.
    apply rx_len_bullet_inside. intros H. apply app_eq_nil in H.
    destruct H as [_ H]. discriminate.
Qed.

Lemma number_bullet_rule_witness :
  sub (number_bullet_re ascii_decimal) "" (utf8 " (12) 가") = utf8 " 가" /\
  sub (number_bullet_re ascii_decimal) "" (utf8 "12.") = utf8 "12.".
Proof.
  destruct (@number_bullet_rule ascii_decimal (utf8 " ") (utf8 "(") (utf8 "12")
              (utf8 "가") (chr ")") (chr " ") (fun c _ => eq_refl))
    as [E1 _]; try (vm_compute; reflexivity); try discriminate.
  destruct (@number_bullet_rule ascii_decimal [] [] (utf8 "12")
              [] (chr ".") (chr " ") (fun c _ => eq_refl))
    as [_ E2]; try (vm_compute; reflexivity); try discriminate.
  split; [exact E1|exact E2].
Defined.



(** X21: the patterns of [normalize] that are repetitions of one class
    delete exactly the characters of that class, the empty matches they
    have everywhere adding nothing; the rules for single characters
    act character by character. *)
Theorem normalize_character_rules (line : str) :
  sub dash_re "" line = filter (nots (one_of "ㅡ-")) line /\
  sub quote_re "" line = filter (nots quote) line /\
  sub bracket_re "" line = filter (nots (one_of "[〈〉《》「」『』{}]")) line /\
  sub (lit "#") "" line = filter (nots (is_char "#")) line /\
  sub (Cls (one_of "=:;")) LF line = map to_line_feed line /\
  sub (lit "→") " " (sub (lit "·") " " line) = map to_space line.
Proof.
  repeat split.
  - apply SubFacts.sub_star_cls.
  - apply SubFacts.sub_star_cls.
  - apply SubFacts.sub_star_cls.
  - change (lit "#") with (Cls (Z.eqb 35)). rewrite ScanFacts.sub_cls.
    induction line as [|c l IH]; [reflexivity|]. cbn [flat_map filter].
    unfold nots at 1, is_char at 1. change (chr "#") with 35%Z.
    rewrite (Z.eqb_sym c 35). destruct (35 =? c)%Z; cbn [negb app];
      rewrite IH; reflexivity.
  - apply TextFacts.to_line_feed_sub.
  - change (lit "·") with (Cls (Z.eqb 183)).
    change (lit "→") with (Cls (Z.eqb 8594)). rewrite !ScanFacts.sub_cls.
    change (utf8 " ") with [32%Z].
    induction line as [|c l IH]; [reflexivity|]. cbn [flat_map map].
    rewrite flat_map_app, IH. unfold to_space, is_char.
    change (chr "·") with 183%Z. change (chr "→") with 8594%Z.
    rewrite (Z.eqb_sym c 183), (Z.eqb_sym c 8594).
    destruct (Z.eqb_spec 183 c) as [<-|H1]; [reflexivity|].
    cbn [flat_map app orb]. destruct (8594 =? c)%Z; reflexivity.
Qed.

(** X22: [normalize] returns for every corpus, whatever the Hanja
    translator and the foreign-word reader give back, as soon as the
    number reader gives back neither a decimal digit nor a backslash:
    no loop of the reading passes runs out of tokens and no search
    fails. *)
Theorem normalize_returns decimal isalnum sv (corpus : list str) :
  (forall c, (0 <= c < 128)%Z -> decimal c = ascii_decimal c) ->
  (forall c, hangul c = true -> decimal c = None) ->
  (forall n, forallb (nots (digit decimal)) (number_word sv n) = true
             /\ no_backslash (number_word sv n) = true) ->
  exists body, run sv (normalize decimal isalnum corpus) = Some body.
Proof.
  intros H1 H2 H3. apply TextFacts.run_normalize; assumption.
Qed.

Lemma normalize_returns_witness :
  exists body,
    run toy (normalize wide_decimal ascii_alnum
                       [utf8 "(1) ABC 1.１ 漢字 Kim"; utf8 "US$ +12.5%"])
    = Some body.
Proof.
  apply (@normalize_returns wide_decimal ascii_alnum toy _
           wide_decimal_ascii wide_decimal_hangul
           (toy_digits_plain wide_decimal wide_decimal_hangul)).
Defined.

(** X23: [normalize] gives at most one line for each line of the corpus:
    the line feeds it writes for [=], [:] and [;] stay inside the line,
    which is not cut there. *)
Theorem normalize_one_per_line decimal isalnum sv (corpus body : list str) :
  run sv (normalize decimal isalnum corpus) = Some body ->
  (length body <= length corpus)%nat.
Proof. apply TextFacts.run_normalize_length. Qed.

Lemma normalize_one_per_line_witness :
  run toy (normalize ascii_decimal ascii_alnum [utf8 "가:나"; utf8 "#"])
  = Some [[chr "가"; 10%Z; chr "나"]] /\
  (length [[chr "가"; 10%Z; chr "나"]] <= length [utf8 "가:나"; utf8 "#"])%nat.
Proof.
  split; [vm_compute; reflexivity|].
  apply (@normalize_one_per_line ascii_decimal ascii_alnum toy
           [utf8 "가:나"; utf8 "#"]).
  vm_compute. reflexivity.
Defined.

(** X24: on lines made of Korean syllables, whitespace and the
    separators [=] and [;], [normalize] calls no reader and only turns
    the separators into line feeds, dropping the lines that are then
    empty or blank. *)
Theorem normalize_korean_text decimal isalnum (corpus : list str) :
  (forall c, korean_text c = true -> decimal c = None) ->
  Forall (fun line => forallb korean_text line = true) corpus ->
  normalize decimal isalnum corpus
  = Ret (filter kept (map (map to_line_feed) corpus)).
Proof.
  intros Hdec. apply TextFacts.normalize_text; auto.
Qed.

Lemma normalize_korean_text_witness :
  normalize ascii_decimal ascii_alnum [utf8 "가=나; 다"; utf8 " ;"]
  = Ret [[chr "가"; 10%Z; chr "나"; 10%Z; 32%Z; chr "다"]].
Proof.
  apply (@normalize_korean_text ascii_decimal ascii_alnum
           [utf8 "가=나; 다"; utf8 " ;"] TextFacts.ascii_decimal_text).
  repeat constructor.
Defined.

(** X25: normalising twice gives what normalising once gives: the lines
    that [normalize] returns are returned unchanged by a second run,
    which calls no reader. *)
Theorem normalize_idempotent decimal isalnum sv (corpus body : list str) :
  (forall c, korean_or_space c = true -> decimal c = None) ->
  run sv (normalize decimal isalnum corpus) = Some body ->
  normalize decimal isalnum body = Ret body.
Proof.
  intros Hdec Hrun.
  pose proof (@TextFacts.normalize_clean_lines decimal isalnum sv corpus body Hrun) as Hb.
  rewrite (@TextFacts.normalize_text decimal isalnum korean_or_space
             TextFacts.korean_or_space_text Hdec body).
  - f_equal.
    assert (E : map (map to_line_feed) body = body).
    { clear Hrun. induction Hb as [|l body [Hl _] _ IH]; [reflexivity|].
      cbn [map]. rewrite (@TextFacts.map_to_line_feed_id l Hl), IH. reflexivity. }
    rewrite E. apply TextFacts.filter_kept_all.
    eapply Forall_impl; [|exact Hb]. intros l [_ Hk]. exact Hk.
  - eapply Forall_impl; [|exact Hb]. intros l [Hl _]. exact Hl.
Qed.

Lemma normalize_idempotent_witness :
  normalize ascii_decimal ascii_alnum
            [utf8 " 정부는 삼점일사 에이비씨를 "; utf8 " 수 "]
  = Ret [utf8 " 정부는 삼점일사 에이비씨를 "; utf8 " 수 "].
Proof.
  apply (@normalize_idempotent ascii_decimal ascii_alnum toy sample_corpus).
  - intros c H. apply TextFacts.ascii_decimal_text.
    apply TextFacts.korean_or_space_text. exact H.
  - vm_compute. reflexivity.
Defined.

(** X26: segmenting what [normalize] returns, as the pipeline does
    next, only cuts the lines at their line boundaries: the eight
    substitutions of [bySentence] find nothing to rewrite, and every
    line that comes out is made of Korean syllables and whitespace and
    holds no line boundary. *)
Theorem bySentence_after_normalize decimal isalnum sv (corpus body : list str) :
  run sv (normalize decimal isalnum corpus) = Some body ->
  bySentence body = flat_map (fun l => filter kept (splitlines l)) body /\
  Forall (fun s => forallb korean_or_space s = true /\ no_break s = true)
         (bySentence body).
Proof.
  intros Hrun.
  pose proof (@TextFacts.normalize_clean_lines decimal isalnum sv corpus body Hrun) as Hb.
  assert (E : bySentence body
              = flat_map (fun l => filter kept (splitlines l)) body).
  { unfold bySentence. clear Hrun.
    induction Hb as [|l body [Hl _] _ IH]; [reflexivity|].
    cbn [flat_map]. rewrite IH, (@PipelineFacts.bySentence_line_korean l Hl).
    reflexivity. }
  split; [exact E|]. rewrite E. apply Forall_forall. intros s Hs.
  apply in_flat_map in Hs. destruct Hs as (l & Hl & Hs).
  apply filter_In in Hs. destruct Hs as [Hs _].
  apply (@PipelineFacts.pieces_korean l s); [|exact Hs].
  exact (proj1 (proj1 (Forall_forall _ _) Hb l Hl)).
Qed.

Lemma bySentence_after_normalize_witness :
  bySentence [[chr "가"; 10%Z; chr "나"]] = [utf8 "가"; utf8 "나"].
Proof.
  destruct (@bySentence_after_normalize ascii_decimal ascii_alnum toy
              [utf8 "가:나"; utf8 "#"] [[chr "가"; 10%Z; chr "나"]]) as [E _].
  - vm_compute. reflexivity.
  - rewrite E. vm_compute. reflexivity.
Defined.
